(** * Degradation and gradient synthesis engine: a shallow embedding

    The Python sources compute on NumPy arrays of 8-bit channels with
    IEEE-754 arithmetic (binary64 for Python floats and float64 arrays,
    binary32 for float32 arrays).  The embedding keeps that arithmetic:
    floats are [spec_float] values with the rounding operations of the
    standard library's executable specification, so every definition
    below evaluates on concrete inputs. *)

From Stdlib Require Import String ZArith QArith Qabs Bool List Lia.
From Stdlib Require Import Floats.SpecFloat.
From Stdlib Require Import Sorting.Permutation Sorting.Sorted.
From Stdlib Require DecimalString DecimalNat Decimal.
Import ListNotations.
Local Open Scope Z_scope.

(** ** IEEE-754 arithmetic *)

Module IEEE.

Record format := { prec : Z; emax : Z }.

(** Python [float], NumPy [float64]. *)
Definition binary64 : format := {| prec := 53; emax := 1024 |}.
(** NumPy [float32], C [float]. *)
Definition binary32 : format := {| prec := 24; emax := 128 |}.

Section Ops.
Variable fmt : format.

Definition of_Z (n : Z) : spec_float :=
  binary_normalize (prec fmt) (emax fmt) n 0 false.

Definition add : spec_float -> spec_float -> spec_float :=
  SFadd (prec fmt) (emax fmt).
Definition sub : spec_float -> spec_float -> spec_float :=
  SFsub (prec fmt) (emax fmt).
Definition mul : spec_float -> spec_float -> spec_float :=
  SFmul (prec fmt) (emax fmt).
Definition div : spec_float -> spec_float -> spec_float :=
  SFdiv (prec fmt) (emax fmt).

(** Conversion of a float of another format into [fmt]: rounding to
    nearest, ties to even, when narrowing; the same value in the
    canonical mantissa and exponent of [fmt] when widening, which
    the comparisons rely on. *)
Definition round (x : spec_float) : spec_float :=
  match x with
  | S754_finite s m e => binary_round (prec fmt) (emax fmt) s m e
  | _ => x
  end.

(** A decimal literal [n / 10^k] of the source text.  Both [n] and
    [10^k] are exactly representable for every literal of the
    sources, so the correctly rounded quotient is the literal's
    value. *)
Definition dec (n : Z) (k : nat) : spec_float :=
  div (of_Z n) (of_Z (10 ^ Z.of_nat k)).
End Ops.

Definition is_nan (x : spec_float) : bool :=
  match x with S754_nan => true | _ => false end.

Definition is_finite (x : spec_float) : bool :=
  match x with
  | S754_zero _ | S754_finite _ _ _ => true
  | _ => false
  end.

(** A magnitude bound that does not depend on the format: zero, or a
    finite float [m * 2^e] with [e <= B] and [m < 2^(B - e)], hence
    of absolute value below [2^B]. *)
Definition smallb (B : Z) (x : spec_float) : bool :=
  match x with
  | S754_zero _ => true
  | S754_finite _ m e => (e <=? B) && (Z.pos m <? 2 ^ (B - e))
  | _ => false
  end.

Definition ltb : spec_float -> spec_float -> bool := SFltb.
Definition leb : spec_float -> spec_float -> bool := SFleb.

(** The exact rational value of a finite float (0 for the others). *)
Definition to_Q (x : spec_float) : Q :=
  match x with
  | S754_finite s m e =>
      let n := if s then Z.neg m else Z.pos m in
      match e with
      | Z0 => inject_Z n
      | Z.pos p => inject_Z (n * 2 ^ Z.pos p)
      | Z.neg p => Qmake n (2 ^ p)
      end
  | _ => 0%Q
  end.

(** Truncation toward zero, the C conversion of a float to an integer
    type; undefined on NaN and the infinities. *)
Definition trunc (x : spec_float) : option Z :=
  match x with
  | S754_zero _ => Some 0
  | S754_finite s m e =>
      let a := match e with
               | Z.neg p => Z.pos m / 2 ^ Z.pos p
               | _ => Z.pos m * 2 ^ e
               end in
      Some (if s then - a else a)
  | _ => None
  end.

(** [ndarray.astype(np.uint8)] on one element: truncation; a value
    outside the range of the target type has no defined result. *)
Definition to_uint8 (x : spec_float) : option Z :=
  match trunc x with
  | Some z => if (0 <=? z) && (z <=? 255) then Some z else None
  | None => None
  end.

(** [np.clip(x, lo, hi)] on one element, [minimum(maximum(x, lo), hi)];
    NaN propagates. *)
Definition clip (lo hi x : spec_float) : spec_float :=
  if is_nan x then x
  else if ltb x lo then lo
  else if ltb hi x then hi
  else x.

End IEEE.

Notation "'f64'" := IEEE.binary64.
Notation "'f32'" := IEEE.binary32.

(** ** Python values and exceptions *)

Inductive exn :=
| ValueError (msg : string)
| IndexError
| ZeroDivisionError
| OverflowError
| cv2_error.

Inductive result (A : Type) :=
| Ok (a : A)
| Raise (e : exn).
Arguments Ok {A} a.
Arguments Raise {A} e.

Definition bind {A B : Type} (r : result A) (k : A -> result B) : result B :=
  match r with
  | Ok a => k a
  | Raise e => Raise e
  end.

Notation "'do' x <- r ; k" := (bind r (fun x => k))
  (at level 10, x name, r at level 100, k at level 200).

(** Python's [int(x)] on a float: truncation, [OverflowError] (or
    [ValueError]) on the infinities and NaN. *)
Definition py_int (x : spec_float) : result Z :=
  match IEEE.trunc x with
  | Some z => Ok z
  | None => Raise OverflowError
  end.

(** ** NumPy arrays *)

Module NDArray.

Record ndarray (A : Type) := mk { shape : list nat; data : list A }.
Arguments mk {A} shape data.
Arguments shape {A} _.
Arguments data {A} _.

Definition size (s : list nat) : nat := fold_right Nat.mul 1%nat s.

(** The buffer holds exactly the elements the shape announces. *)
Definition wf {A} (a : ndarray A) : Prop :=
  length (data a) = size (shape a).

(** Element-wise operations ([a * k], [np.clip], [astype]). *)
Definition map {A B} (f : A -> B) (a : ndarray A) : ndarray B :=
  mk (shape a) (List.map f (data a)).

(** Element-wise operation that also sees the flat (row-major) index
    of the element it rewrites. *)
Fixpoint mapi_from {A B} (i : nat) (f : nat -> A -> B) (l : list A)
  : list B :=
  match l with
  | [] => []
  | x :: l' => f i x :: mapi_from (S i) f l'
  end.

Definition mapi {A B} (f : nat -> A -> B) (a : ndarray A) : ndarray B :=
  mk (shape a) (mapi_from 0 f (data a)).

(** An array of the given shape whose element at flat index [i] is
    [f i]. *)
Definition tabulate {A} (s : list nat) (f : nat -> A) : ndarray A :=
  mk s (List.map f (seq 0 (size s))).

(** [a.shape[2]] of a three-dimensional array. *)
Definition channels {A} (a : ndarray A) : option nat :=
  match shape a with
  | [_; _; c] => Some c
  | _ => None
  end.

(** [a[:, :, c] = f(a[:, :, c])]: in a row-major (h, w, n) buffer the
    element at flat index [i] belongs to channel [i mod n]. *)
Definition update_channel {A} (n c : nat) (f : A -> A) (a : ndarray A)
  : ndarray A :=
  mapi (fun i v => if Nat.eqb (i mod n) c then f v else v) a.

(** Element-wise operation on two buffers of one length. *)
Fixpoint zip_with {A B C} (f : A -> B -> C) (l1 : list A) (l2 : list B)
  : list C :=
  match l1, l2 with
  | x :: l1', y :: l2' => f x y :: zip_with f l1' l2'
  | _, _ => []
  end.

(** All elements are 8-bit channel values. *)
Definition is_uint8 (a : ndarray Z) : Prop :=
  Forall (fun v => 0 <= v <= 255) (data a).

End NDArray.

Abbreviation ndarray := NDArray.ndarray.

(** The 8-bit conversion of a whole array needs the value the platform
    produces where C leaves the conversion undefined (NaN, out of
    range); it is a parameter of everything that converts. *)
Definition to_uint8 (undef : spec_float -> Z) (x : spec_float) : Z :=
  match IEEE.to_uint8 x with
  | Some z => z
  | None => undef x mod 256
  end.

Definition astype_uint8 (undef : spec_float -> Z) (a : ndarray spec_float)
  : ndarray Z :=
  NDArray.map (to_uint8 undef) a.

(** [np.clip(a, 0, 255)] on a float array of the given format. *)
Definition clip_0_255 (fmt : IEEE.format) (x : spec_float) : spec_float :=
  IEEE.clip (IEEE.of_Z fmt 0) (IEEE.of_Z fmt 255) x.

(** ** visual_degradation.py: class VisualDegradationGenerator *)

Module VisualDegradation.

Inductive interpolation := INTER_AREA | INTER_LINEAR.

Section Generator.
(** Platform conversion of undefined float-to-uint8 casts. *)
Variable undef : spec_float -> Z.
(** Library kernels, by the value they give each output element:
    PIL's Gaussian blur of a radius, OpenCV's resampling for an
    interpolation mode and a target (width, height), and OpenCV's
    BGR/HSV conversions on one pixel. *)
Variable gaussian_blur_at : spec_float -> ndarray Z -> nat -> Z.
Variable resize_at : interpolation -> ndarray Z -> nat * nat -> nat -> Z.
Variable bgr2hsv hsv2bgr : Z * Z * Z -> Z * Z * Z.

Definition lit (n : Z) (k : nat) : spec_float := IEEE.dec f64 n k.
Definition flt (n : Z) : spec_float := IEEE.of_Z f64 n.

Fixpoint map_pixels (f : Z * Z * Z -> Z * Z * Z) (l : list Z) : list Z :=
  match l with
  | a :: b :: c :: l' =>
      let '(x, y, z) := f (a, b, c) in x :: y :: z :: map_pixels f l'
  | _ => l
  end.

(** [cv2.cvtColor] with a three-channel target: three- and
    four-channel sources are accepted, the fourth channel is
    dropped. *)
Fixpoint map_pixels4 (f : Z * Z * Z -> Z * Z * Z) (l : list Z) : list Z :=
  match l with
  | a :: b :: c :: _ :: l' =>
      let '(x, y, z) := f (a, b, c) in x :: y :: z :: map_pixels4 f l'
  | _ => []
  end.

Definition cvtColor (f : Z * Z * Z -> Z * Z * Z) (a : ndarray Z)
  : result (ndarray Z) :=
  match NDArray.shape a with
  | [h; w; 3%nat] => Ok (NDArray.mk [h; w; 3%nat] (map_pixels f (NDArray.data a)))
  | [h; w; 4%nat] => Ok (NDArray.mk [h; w; 3%nat] (map_pixels4 f (NDArray.data a)))
  | _ => Raise cv2_error
  end.

(** [cv2.COLOR_BGR2RGB] and [cv2.COLOR_RGB2BGR] reverse the channel
    order of a pixel. *)
Definition swap_rb (p : Z * Z * Z) : Z * Z * Z :=
  let '(b, g, r) := p in (r, g, b).

(** [ImageFilter.GaussianBlur(radius)] applied to an image. *)
Definition gaussian_blur (radius : spec_float) (a : ndarray Z)
  : ndarray Z :=
  NDArray.tabulate (NDArray.shape a) (gaussian_blur_at radius a).

(** [cv2.resize(a, (w, h), interpolation=...)]: the result has [h]
    rows and [w] columns and the channels of [a] (a single channel is
    returned as a two-dimensional array); an empty source or target is
    refused. *)
Definition cv2_resize (a : ndarray Z) (dsize : nat * nat)
    (interp : interpolation) : result (ndarray Z) :=
  let '(w, h) := dsize in
  let resized (sh sw : nat) (channels : list nat) :=
    if (Nat.eqb sh 0 || Nat.eqb sw 0 || Nat.eqb w 0 || Nat.eqb h 0)%bool
    then Raise cv2_error
    else Ok (NDArray.tabulate (h :: w :: channels) (resize_at interp a dsize)) in
  match NDArray.shape a with
  | [sh; sw] => resized sh sw []
  | [sh; sw; c] => resized sh sw (if Nat.eqb c 1 then [] else [c])
  | _ => Raise cv2_error
  end.

Definition blur_radius (level : Z) : spec_float :=
  IEEE.add f64 (lit 1 1)
    (IEEE.mul f64 (IEEE.div f64 (flt level) (lit 1000 1)) (lit 199 1)).

Definition degrade_sharpness (image : ndarray Z) (level : Z)
  : result (ndarray Z) :=
  if level =? 0 then Ok image
  else
    let blur_radius := blur_radius level in
    do pil_image <- cvtColor swap_rb image;
    let blurred := gaussian_blur blur_radius pil_image in
    cvtColor swap_rb blurred.

Definition brightness_factor (level : Z) : spec_float :=
  if level <=? 50
  then IEEE.sub f64 (lit 10 1)
         (IEEE.mul f64 (IEEE.div f64 (flt level) (lit 500 1)) (lit 8 1))
  else IEEE.add f64 (lit 10 1)
         (IEEE.mul f64 (IEEE.div f64 (flt (level - 50)) (lit 500 1))
            (lit 15 1)).

Definition degrade_brightness (image : ndarray Z) (level : Z)
  : ndarray Z :=
  if level =? 0 then image
  else
    let brightness_factor := brightness_factor level in
    let adjusted :=
      NDArray.map
        (fun v => IEEE.mul f32 (IEEE.of_Z f32 v)
                    (IEEE.round f32 brightness_factor)) image in
    astype_uint8 undef (NDArray.map (clip_0_255 f32) adjusted).

Definition contrast_factor (level : Z) : spec_float :=
  IEEE.sub f64 (lit 10 1)
    (IEEE.mul f64 (IEEE.div f64 (flt level) (lit 1000 1)) (lit 99 2)).

(** [np.mean] of an 8-bit array: the sum is exact in binary64, then
    one division by the element count. *)
Definition np_mean (a : ndarray Z) : spec_float :=
  IEEE.div f64 (flt (fold_right Z.add 0 (NDArray.data a)))
    (flt (Z.of_nat (length (NDArray.data a)))).

Definition degrade_contrast (image : ndarray Z) (level : Z)
  : ndarray Z :=
  if level =? 0 then image
  else
    let contrast_factor := contrast_factor level in
    let mean := np_mean image in
    let adjusted :=
      NDArray.map
        (fun v => IEEE.add f64
                    (IEEE.mul f64 (IEEE.sub f64 (flt v) mean)
                       contrast_factor) mean) image in
    astype_uint8 undef (NDArray.map (clip_0_255 f64) adjusted).

(** NumPy's [%] on floats of one format, for a positive finite
    divisor: C's exact [fmod], moved into the divisor's sign. *)
Definition np_remainder (fmt : IEEE.format) (x y : spec_float)
  : spec_float :=
  match x, y with
  | S754_zero _, S754_finite false _ _ => S754_zero false
  | S754_finite sx mx ex, S754_finite false my ey =>
      let e := Z.min ex ey in
      let X := Z.pos mx * 2 ^ (ex - e) in
      let Y := Z.pos my * 2 ^ (ey - e) in
      let r := X mod Y in
      if r =? 0 then S754_zero false
      else if sx
           then IEEE.add fmt
                  (binary_normalize (IEEE.prec fmt) (IEEE.emax fmt) (- r) e false) y
           else binary_normalize (IEEE.prec fmt) (IEEE.emax fmt) r e false
  | _, _ => S754_nan
  end.

Definition hue_shift (level : Z) : spec_float :=
  IEEE.sub f64
    (IEEE.mul f64 (IEEE.div f64 (flt level) (lit 1000 1)) (flt 360))
    (flt 180).

Definition saturation_factor (level : Z) : spec_float :=
  IEEE.add f64 (lit 1 1)
    (IEEE.mul f64 (IEEE.div f64 (flt level) (lit 1000 1)) (lit 29 1)).

Definition degrade_color_distortion (image : ndarray Z) (level : Z)
  : result (ndarray Z) :=
  if level =? 0 then Ok image
  else
    do hsv8 <- cvtColor bgr2hsv image;
    let hsv := NDArray.map (IEEE.of_Z f32) hsv8 in
    let hue_shift := IEEE.round f32 (hue_shift level) in
    let hsv :=
      NDArray.update_channel 3 0
        (fun x => np_remainder f32 (IEEE.add f32 x hue_shift)
                    (IEEE.of_Z f32 180)) hsv in
    let saturation_factor := IEEE.round f32 (saturation_factor level) in
    let hsv :=
      NDArray.update_channel 3 1
        (fun x => clip_0_255 f32 (IEEE.mul f32 x saturation_factor)) hsv in
    cvtColor hsv2bgr (astype_uint8 undef hsv).

Definition shift_intensity (level : Z) : spec_float :=
  IEEE.div f64 (flt level) (lit 1000 1).

(** The in-place [image_float[:, :, c] *= k] of one branch: [k] is a
    Python float, the array is float32. *)
Definition scale_channel (n c : nat) (k : spec_float)
    (a : ndarray spec_float) : ndarray spec_float :=
  NDArray.update_channel n c (fun x => IEEE.mul f32 x (IEEE.round f32 k)) a.

Definition amplify (s : spec_float) : spec_float :=
  IEEE.add f64 (lit 10 1) s.
Definition attenuate (s : spec_float) (n : Z) : spec_float :=
  IEEE.sub f64 (lit 10 1) (IEEE.mul f64 s (lit n 1)).

Definition color_shift_float (n : nat) (image_float : ndarray spec_float)
    (level : Z) : ndarray spec_float :=
  let shift_type := level mod 6 in
  let shift_intensity := shift_intensity level in
  if shift_type =? 0 then
    scale_channel n 1 (attenuate shift_intensity 3)
      (scale_channel n 2 (amplify shift_intensity) image_float)
  else if shift_type =? 1 then
    scale_channel n 2 (attenuate shift_intensity 3)
      (scale_channel n 1 (amplify shift_intensity) image_float)
  else if shift_type =? 2 then
    scale_channel n 1 (attenuate shift_intensity 3)
      (scale_channel n 0 (amplify shift_intensity) image_float)
  else if shift_type =? 3 then
    scale_channel n 0 (attenuate shift_intensity 5) image_float
  else if shift_type =? 4 then
    scale_channel n 2 (attenuate shift_intensity 5) image_float
  else
    scale_channel n 1 (attenuate shift_intensity 5) image_float.

(** Indexing [a[:, :, 2]] needs three dimensions and at least three
    channels. *)
Definition degrade_color_shift (image : ndarray Z) (level : Z)
  : result (ndarray Z) :=
  if level =? 0 then Ok image
  else
    match NDArray.channels image with
    | Some n =>
        if (3 <=? n)%nat then
          let image_float := NDArray.map (IEEE.of_Z f32) image in
          Ok (astype_uint8 undef
                (NDArray.map (clip_0_255 f32)
                   (color_shift_float n image_float level)))
        else Raise IndexError
    | None => Raise IndexError
    end.

Definition scale_factor (level : Z) : spec_float :=
  IEEE.sub f64 (lit 10 1)
    (IEEE.mul f64 (IEEE.div f64 (flt level) (lit 1000 1)) (lit 95 2)).

Definition degrade_resolution (image : ndarray Z) (level : Z)
  : result (ndarray Z) :=
  if level =? 0 then Ok image
  else
    match NDArray.shape image with
    | h :: w :: _ =>
        let scale_factor := scale_factor level in
        do sw <- py_int (IEEE.mul f64 (flt (Z.of_nat w)) scale_factor);
        let new_w := Z.max sw 8 in
        do sh <- py_int (IEEE.mul f64 (flt (Z.of_nat h)) scale_factor);
        let new_h := Z.max sh 8 in
        do downsampled <-
          cv2_resize image (Z.to_nat new_w, Z.to_nat new_h) INTER_AREA;
        cv2_resize downsampled (w, h) INTER_LINEAR
    | _ => Raise (ValueError "not enough values to unpack")
    end.

(** The [degradation_methods] table of [generate_degraded_dataset]. *)
Inductive degradation_type :=
| sharpness | brightness | contrast
| color_distortion | color_shift | resolution.

Definition degradation_methods (t : degradation_type)
  : ndarray Z -> Z -> result (ndarray Z) :=
  match t with
  | sharpness => degrade_sharpness
  | brightness => fun image level => Ok (degrade_brightness image level)
  | contrast => fun image level => Ok (degrade_contrast image level)
  | color_distortion => degrade_color_distortion
  | color_shift => degrade_color_shift
  | resolution => degrade_resolution
  end.
End Generator.
End VisualDegradation.

(** ** Pillow images

    A PIL image is identified with the array [np.array(image)] gives:
    shape (h, w) for mode L and (h, w, 3) for mode RGB, 8-bit elements;
    [Image.fromarray] is the way back. *)

Module PIL.

Definition Image := ndarray Z.

(** [image.size], as (width, height). *)
Definition size (im : Image) : nat * nat :=
  match NDArray.shape im with
  | h :: w :: _ => (w, h)
  | _ => (0%nat, 0%nat)
  end.

Section Library.
Variable undef : spec_float -> Z.
(** Library kernels: the Gaussian blur of a radius and the
    nearest-neighbour resampling to a target size, by the value of
    each output element. *)
Variable gaussian_blur_at : spec_float -> Image -> nat -> Z.
Variable nearest_at : Image -> nat * nat -> nat -> Z.

(** [image.filter(ImageFilter.GaussianBlur(radius=r))]. *)
Definition filter_GaussianBlur (r : spec_float) (im : Image) : Image :=
  NDArray.tabulate (NDArray.shape im) (gaussian_blur_at r im).

(** [image.resize(size, Image.NEAREST)]: a copy when the size is the
    image's own, a resampled image of the requested size otherwise. *)
Definition resize_NEAREST (im : Image) (sz : nat * nat) : Image :=
  if (Nat.eqb (fst sz) (fst (size im)) && Nat.eqb (snd sz) (snd (size im)))%bool
  then im
  else
    match NDArray.shape im with
    | _ :: _ :: rest =>
        NDArray.tabulate (snd sz :: fst sz :: rest) (nearest_at im sz)
    | s => NDArray.tabulate s (nearest_at im sz)
    end.

(** [Image.blend(im1, im2, alpha)]: the C routine takes [alpha] as a
    single-precision float, copies an operand at 0 and 1,
    interpolates in single precision inside [0, 1] and clamps
    outside. *)
Definition blend_pixel (alpha : spec_float) (in1 in2 : Z) : Z :=
  let temp :=
    IEEE.add f32 (IEEE.of_Z f32 in1)
      (IEEE.mul f32 alpha (IEEE.of_Z f32 (in2 - in1))) in
  if (IEEE.leb (IEEE.of_Z f32 0) alpha && IEEE.leb alpha (IEEE.of_Z f32 1))%bool
  then to_uint8 undef temp
  else if IEEE.leb temp (IEEE.of_Z f32 0) then 0
  else if IEEE.leb (IEEE.of_Z f32 255) temp then 255
  else to_uint8 undef temp.

Definition blend (im1 im2 : Image) (alpha : spec_float) : Image :=
  let alpha := IEEE.round f32 alpha in
  if SFeqb alpha (IEEE.of_Z f32 0) then im1
  else if SFeqb alpha (IEEE.of_Z f32 1) then im2
  else NDArray.mk (NDArray.shape im1)
         (NDArray.zip_with (blend_pixel alpha) (NDArray.data im1)
            (NDArray.data im2)).

(** [image.convert("L")] on one RGB pixel (ITU-R 601-2 luma). *)
Definition luma (r g b : Z) : Z :=
  Z.shiftr (r * 19595 + g * 38470 + b * 7471 + 32768) 16.

(** [image.convert("L").convert(image.mode)]: every pixel replaced
    by its grey level. *)
Fixpoint grey_pixels (l : list Z) : list Z :=
  match l with
  | r :: g :: b :: l' =>
      let y := luma r g b in y :: y :: y :: grey_pixels l'
  | _ => l
  end.

Fixpoint luma_sum (l : list Z) : Z * Z :=
  match l with
  | r :: g :: b :: l' =>
      let '(s, n) := luma_sum l' in (luma r g b + s, n + 1)
  | _ => (0, 0)
  end.

Definition is_rgb (im : Image) : bool :=
  match NDArray.channels im with
  | Some 3%nat => true
  | _ => false
  end.

(** [ImageEnhance.Brightness(image)]: the degenerate image is
    black. *)
Definition brightness_degenerate (im : Image) : Image :=
  NDArray.map (fun _ => 0) im.

(** [ImageEnhance.Contrast(image)]: the degenerate image is the
    uniform grey [int(mean + 0.5)] of the image's grey levels. *)
Definition contrast_degenerate (im : Image) : Image :=
  let '(s, n) :=
    if is_rgb im then luma_sum (NDArray.data im)
    else (fold_right Z.add 0 (NDArray.data im),
           Z.of_nat (List.length (NDArray.data im))) in
  let mean :=
    IEEE.add f64 (IEEE.div f64 (IEEE.of_Z f64 s) (IEEE.of_Z f64 n))
      (IEEE.dec f64 5 1) in
  NDArray.map (fun _ => to_uint8 undef mean) im.

(** [ImageEnhance.Color(image)]: the degenerate image is the grey
    version of the image. *)
Definition color_degenerate (im : Image) : Image :=
  if is_rgb im then NDArray.mk (NDArray.shape im) (grey_pixels (NDArray.data im))
  else im.

(** [enhancer.enhance(factor)]. *)
Definition enhance (degenerate im : Image) (factor : spec_float) : Image :=
  blend degenerate im factor.
End Library.
End PIL.

(** ** NumPy's random source

    The draws are inputs of the model: [gauss i] is the standard normal
    deviate behind element [i] ([np.random.normal], [np.random.randn]),
    [unif i] the uniform deviate in [0, 1) behind pixel [i]
    ([np.random.random]), [pois i lam] the Poisson count for element
    [i]. *)

Module NPRandom.

Record source := mk {
  gauss : nat -> spec_float;
  unif : nat -> spec_float;
  pois : nat -> spec_float -> Z
}.

(** What the generators promise about their deviates. *)
Definition well_behaved (rng : source) : Prop :=
  (forall i, IEEE.is_finite (gauss rng i) = true) /\
  (forall i, IEEE.leb (IEEE.of_Z f64 0) (unif rng i) = true /\
             IEEE.ltb (unif rng i) (IEEE.of_Z f64 1) = true) /\
  (forall i lam, 0 <= pois rng i lam).

(** [np.random.normal(loc, scale, shape)]: [loc + scale * gauss],
    refused for a negative scale. *)
Definition normal (rng : source) (loc scale : spec_float) (s : list nat)
  : result (ndarray spec_float) :=
  if IEEE.ltb scale (IEEE.of_Z f64 0) then Raise (ValueError "scale < 0")
  else Ok (NDArray.tabulate s
             (fun i => IEEE.add f64 loc (IEEE.mul f64 scale (gauss rng i)))).

(** [np.random.poisson(lam)] on one element: rate 0 always gives
    count 0; a negative or NaN rate is refused. *)
Definition poisson1 (rng : source) (i : nat) (lam : spec_float)
  : result Z :=
  match lam with
  | S754_zero _ => Ok 0
  | S754_finite false _ _ => Ok (pois rng i lam)
  | _ => Raise (ValueError "lam < 0 or lam is NaN")
  end.

End NPRandom.

(** ** noise_gradient_generator.py: class NoiseGradientGenerator *)

Module NoiseGradient.

Section Generator.
Variable undef : spec_float -> Z.
Variable gaussian_blur_at : spec_float -> PIL.Image -> nat -> Z.
Variable nearest_at : PIL.Image -> nat * nat -> nat -> Z.
Variable rng : NPRandom.source.
(** The three draws of Python's [random.random()] behind the
    [random.uniform] calls of [apply_color_shift]. *)
Variable py_random : nat -> spec_float.

Definition lit (n : Z) (k : nat) : spec_float := IEEE.dec f64 n k.
Definition flt (n : Z) : spec_float := IEEE.of_Z f64 n.

(** The noise array of [apply_gaussian_noise]. *)
Definition gaussian_noise (scale : spec_float) (image : PIL.Image)
  : result (ndarray spec_float) :=
  NPRandom.normal rng (flt 0) scale (NDArray.shape image).

(** [np.clip(img_array + noise, 0, 255).astype(np.uint8)]. *)
Definition add_noise (image : PIL.Image) (noise : ndarray spec_float)
  : PIL.Image :=
  NDArray.mk (NDArray.shape image)
    (NDArray.zip_with
       (fun v n => to_uint8 undef
                     (clip_0_255 f64 (IEEE.add f64 (flt v) n)))
       (NDArray.data image) (NDArray.data noise)).

Definition apply_gaussian_noise (image : PIL.Image)
    (intensity : spec_float) : result PIL.Image :=
  let img_array := image in
  do noise <- gaussian_noise (IEEE.mul f64 intensity (flt 50)) img_array;
  Ok (add_noise img_array noise).

(** Elements per pixel: the product of the dimensions after the
    first two. *)
Definition per_pixel (a : ndarray Z) : nat :=
  NDArray.size (skipn 2 (NDArray.shape a)).

Definition apply_salt_pepper_noise (image : PIL.Image)
    (intensity : spec_float) : PIL.Image :=
  let img_array := image in
  let n := per_pixel img_array in
  let noise_mask := fun i => NPRandom.unif rng (i / n)%nat in
  let salt := IEEE.mul f64 intensity (lit 5 2) in
  let pepper := IEEE.sub f64 (flt 1) (IEEE.mul f64 intensity (lit 5 2)) in
  let salted :=
    NDArray.mapi
      (fun i v => if IEEE.ltb (noise_mask i) salt then 255 else v)
      img_array in
  NDArray.mapi
    (fun i v => if IEEE.ltb pepper (noise_mask i) then 0 else v) salted.

(** The float array handed to [astype] by [apply_poisson_noise],
    element by element. *)
Definition poisson_clipped1 (intensity : spec_float) (i : nat) (v : Z)
  : result spec_float :=
  let lam := IEEE.mul f64 (IEEE.mul f64 (flt v) intensity) (lit 1 1) in
  do k <- NPRandom.poisson1 rng i lam;
  let noisy := IEEE.div f64 (flt k) (IEEE.mul f64 intensity (lit 1 1)) in
  Ok (clip_0_255 f64 noisy).

Fixpoint sequence {A} (l : list (result A)) : result (list A) :=
  match l with
  | [] => Ok []
  | r :: l' => do x <- r; do xs <- sequence l'; Ok (x :: xs)
  end.

Definition poisson_clipped (image : PIL.Image) (intensity : spec_float)
  : result (ndarray spec_float) :=
  do d <- sequence (NDArray.mapi_from 0 (poisson_clipped1 intensity)
                      (NDArray.data image));
  Ok (NDArray.mk (NDArray.shape image) d).

Definition apply_poisson_noise (image : PIL.Image)
    (intensity : spec_float) : result PIL.Image :=
  do noisy_array <- poisson_clipped image intensity;
  Ok (astype_uint8 undef noisy_array).

Definition apply_speckle_noise (image : PIL.Image)
    (intensity : spec_float) : PIL.Image :=
  NDArray.mapi
    (fun i v =>
       let x := flt v in
       let noise :=
         IEEE.mul f64 (IEEE.mul f64 (NPRandom.gauss rng i) intensity)
           (flt 20) in
       let noisy :=
         IEEE.add f64 x (IEEE.div f64 (IEEE.mul f64 x noise) (flt 100)) in
       to_uint8 undef (clip_0_255 f64 noisy))
    image.

Definition apply_blur_effect (image : PIL.Image) (intensity : spec_float)
  : PIL.Image :=
  let blur_radius := IEEE.mul f64 intensity (flt 5) in
  PIL.filter_GaussianBlur gaussian_blur_at blur_radius image.

Definition apply_pixelation (image : PIL.Image) (intensity : spec_float)
  : result PIL.Image :=
  let original_size := PIL.size image in
  do p <- py_int (IEEE.mul f64 intensity (flt 50));
  let pixel_size := Z.max 1 p in
  let small_size :=
    (Z.to_nat (Z.max 1 (Z.of_nat (fst original_size) / pixel_size)),
     Z.to_nat (Z.max 1 (Z.of_nat (snd original_size) / pixel_size))) in
  let resized := PIL.resize_NEAREST nearest_at image small_size in
  Ok (PIL.resize_NEAREST nearest_at resized original_size).

(** [random.uniform(a, b)] is [a + (b - a) * random()]. *)
Definition uniform (k : nat) (a b : spec_float) : spec_float :=
  IEEE.add f64 a (IEEE.mul f64 (IEEE.sub f64 b a) (py_random k)).

(** The three channel assignments need at least three channels in a
    three-dimensional array; other arrays pass through unchanged. *)
Definition apply_color_shift (image : PIL.Image) (intensity : spec_float)
  : result PIL.Image :=
  let img_array := image in
  match NDArray.shape img_array with
  | [_; _; n] =>
      let shift := IEEE.mul f64 intensity (flt 50) in
      let r_shift := uniform 0 (SFopp shift) shift in
      let g_shift := uniform 1 (SFopp shift) shift in
      let b_shift := uniform 2 (SFopp shift) shift in
      let put c s a :=
        NDArray.update_channel n c
          (fun v => to_uint8 undef
                      (clip_0_255 f64 (IEEE.add f64 (flt v) s))) a in
      if (3 <=? n)%nat
      then Ok (put 2%nat b_shift
                 (put 1%nat g_shift (put 0%nat r_shift img_array)))
      else Raise IndexError
  | _ => Ok img_array
  end.

Definition contrast_factor (intensity : spec_float) : spec_float :=
  IEEE.add f64 (lit 5 1) (IEEE.mul f64 intensity (lit 15 1)).

Definition apply_contrast_variation (image : PIL.Image)
    (intensity : spec_float) : PIL.Image :=
  PIL.enhance undef (PIL.contrast_degenerate undef image) image
    (contrast_factor intensity).

Definition brightness_factor (intensity : spec_float) : spec_float :=
  IEEE.add f64 (lit 3 1) (IEEE.mul f64 intensity (lit 14 1)).

Definition apply_brightness_variation (image : PIL.Image)
    (intensity : spec_float) : PIL.Image :=
  PIL.enhance undef (PIL.brightness_degenerate image) image
    (brightness_factor intensity).

Definition saturation_factor (intensity : spec_float) : spec_float :=
  IEEE.mul f64 intensity (lit 20 1).

Definition apply_saturation_variation (image : PIL.Image)
    (intensity : spec_float) : PIL.Image :=
  PIL.enhance undef (PIL.color_degenerate image) image
    (saturation_factor intensity).

(** The [transformations] table. *)
Inductive transform_type :=
| gaussian_noise_t | salt_pepper_noise | poisson_noise | speckle_noise
| blur_effect | pixelation | color_shift | contrast_variation
| brightness_variation | saturation_variation.

Definition transformations (t : transform_type)
  : PIL.Image -> spec_float -> result PIL.Image :=
  match t with
  | gaussian_noise_t => apply_gaussian_noise
  | salt_pepper_noise => fun im x => Ok (apply_salt_pepper_noise im x)
  | poisson_noise => apply_poisson_noise
  | speckle_noise => fun im x => Ok (apply_speckle_noise im x)
  | blur_effect => fun im x => Ok (apply_blur_effect im x)
  | pixelation => apply_pixelation
  | color_shift => apply_color_shift
  | contrast_variation => fun im x => Ok (apply_contrast_variation im x)
  | brightness_variation => fun im x => Ok (apply_brightness_variation im x)
  | saturation_variation => fun im x => Ok (apply_saturation_variation im x)
  end.

(** The intensity [i / 99.0] of step [i] in
    [generate_gradients_for_image]. *)
Definition gradient_intensity (i : Z) : spec_float :=
  IEEE.div f64 (flt i) (lit 990 1).
End Generator.
End NoiseGradient.

(** ** fast_noise_generator.py *)

Module FastNoise.

Section Generator.
Variable undef : spec_float -> Z.
Variable nearest_at : PIL.Image -> nat * nat -> nat -> Z.
Variable rng : NPRandom.source.

Definition intensity (gradient_level : Z) : spec_float :=
  IEEE.div f64 (IEEE.of_Z f64 gradient_level) (IEEE.dec f64 990 1).

Definition apply_noise_gradient (image : PIL.Image) (gradient_level : Z)
  : result PIL.Image :=
  let intensity := intensity gradient_level in
  let img_array := image in
  do noise <-
    NoiseGradient.gaussian_noise rng
      (IEEE.mul f64 intensity (IEEE.of_Z f64 25)) img_array;
  Ok (NoiseGradient.add_noise undef img_array noise).

Definition apply_pixel_manipulation (image : PIL.Image)
    (gradient_level : Z) : result PIL.Image :=
  let intensity := intensity gradient_level in
  let original_size := PIL.size image in
  do p <- py_int (IEEE.mul f64 intensity (IEEE.of_Z f64 20));
  let pixel_size := Z.max 1 (p + 1) in
  let small_size :=
    (Z.to_nat (Z.max 1 (Z.of_nat (fst original_size) / pixel_size)),
     Z.to_nat (Z.max 1 (Z.of_nat (snd original_size) / pixel_size))) in
  let resized := PIL.resize_NEAREST nearest_at image small_size in
  Ok (PIL.resize_NEAREST nearest_at resized original_size).
End Generator.
End FastNoise.

(** ** colorblind_simulation.py: class ColorBlindnessSimulator *)

Module ColorBlind.

Definition row := (spec_float * spec_float * spec_float)%type.
Definition matrix := (row * row * row)%type.

Definition d5 (n : Z) : spec_float := IEEE.dec f64 n 5.
Definition d6 (n : Z) : spec_float := IEEE.dec f64 n 6.

Definition protanopia_matrix : matrix :=
  ((d5 56667, d5 43333, d5 0),
   (d5 55833, d5 44167, d5 0),
   (d5 0, d5 24167, d5 75833)).

Definition deuteranopia_matrix : matrix :=
  ((d5 62500, d5 37500, d5 0),
   (d5 70000, d5 30000, d5 0),
   (d5 0, d5 30000, d5 70000)).

Definition tritanopia_matrix : matrix :=
  ((d5 95000, d5 5000, d5 0),
   (d5 0, d5 43333, d5 56667),
   (d5 0, d5 47500, d5 52500)).

Definition improved_protanopia : matrix :=
  ((d6 152286, d6 1052583, d6 (-204868)),
   (d6 114503, d6 786281, d6 99216),
   (d6 (-3882), d6 (-48116), d6 1051998)).

Definition improved_deuteranopia : matrix :=
  ((d6 367322, d6 860646, d6 (-227968)),
   (d6 280085, d6 672501, d6 47413),
   (d6 (-11820), d6 42940, d6 968881)).

Definition improved_tritanopia : matrix :=
  ((d6 1255528, d6 (-76749), d6 (-178779)),
   (d6 (-78411), d6 930809, d6 147602),
   (d6 4733, d6 691367, d6 303900)).

Section Simulator.
Variable undef : spec_float -> Z.

(** One entry of [np.dot(pixels, matrix.T)]: the float32 pixel is
    widened to binary64 and the three products are summed left to
    right. *)
Definition dot (p : row) (m : row) : spec_float :=
  let '(p0, p1, p2) := p in
  let '(m0, m1, m2) := m in
  let w := IEEE.round f64 in
  IEEE.add f64
    (IEEE.add f64 (IEEE.mul f64 (w p0) m0) (IEEE.mul f64 (w p1) m1))
    (IEEE.mul f64 (w p2) m2).

(** [(1 - severity) * pixels + severity * transformed_pixels] on one
    channel: the first product is taken in the float32 of [pixels],
    the second in binary64. *)
Definition mix (severity p t : spec_float) : spec_float :=
  IEEE.add f64
    (IEEE.round f64
       (IEEE.mul f32
          (IEEE.round f32 (IEEE.sub f64 (IEEE.of_Z f64 1) severity)) p))
    (IEEE.mul f64 severity t).

(** [(np.clip(x, 0, 1) * 255).astype(np.uint8)] on one channel. *)
Definition quantize (x : spec_float) : Z :=
  to_uint8 undef
    (IEEE.mul f64 (IEEE.clip (IEEE.of_Z f64 0) (IEEE.of_Z f64 1) x)
       (IEEE.of_Z f64 255)).

Definition transform_pixel (m : matrix) (severity : spec_float) (p : row)
  : Z * Z * Z :=
  let '(m0, m1, m2) := m in
  let '(p0, p1, p2) := p in
  let t0 := dot p m0 in
  let t1 := dot p m1 in
  let t2 := dot p m2 in
  let '(t0, t1, t2) :=
    if IEEE.ltb severity (IEEE.dec f64 10 1)
    then (mix severity p0 t0, mix severity p1 t1, mix severity p2 t2)
    else (t0, t1, t2) in
  (quantize t0, quantize t1, quantize t2).

(** [np.array(image, dtype=np.float32) / 255.0] on one channel. *)
Definition normalize (v : Z) : spec_float :=
  IEEE.div f32 (IEEE.of_Z f32 v) (IEEE.of_Z f32 255).

Fixpoint transform_pixels (m : matrix) (severity : spec_float)
    (l : list Z) : list Z :=
  match l with
  | r :: g :: b :: l' =>
      let '(x, y, z) :=
        transform_pixel m severity (normalize r, normalize g, normalize b) in
      x :: y :: z :: transform_pixels m severity l'
  | _ => []
  end.

(** The message of the [ValueError] says that the image must be in
    RGB format. *)
Definition apply_colorblindness_matrix (image : PIL.Image) (m : matrix)
    (severity : spec_float) : result PIL.Image :=
  let original_shape := NDArray.shape image in
  match original_shape with
  | [_; _; 3%nat] =>
      Ok (NDArray.mk original_shape
            (transform_pixels m severity (NDArray.data image)))
  | _ => Raise (ValueError "图像必须是RGB格式")
  end.

Definition simulate_protanopia (image : PIL.Image) (severity : spec_float)
    (improved : bool) : result PIL.Image :=
  let m := if improved then improved_protanopia else protanopia_matrix in
  apply_colorblindness_matrix image m severity.

Definition simulate_deuteranopia (image : PIL.Image)
    (severity : spec_float) (improved : bool) : result PIL.Image :=
  let m := if improved then improved_deuteranopia else deuteranopia_matrix in
  apply_colorblindness_matrix image m severity.

Definition simulate_tritanopia (image : PIL.Image) (severity : spec_float)
    (improved : bool) : result PIL.Image :=
  let m := if improved then improved_tritanopia else tritanopia_matrix in
  apply_colorblindness_matrix image m severity.

Inductive colorblind_type := protanopia | deuteranopia | tritanopia.

(** The [simulation_functions] table of [generate_gradients]. *)
Definition simulation_functions (t : colorblind_type)
  : PIL.Image -> spec_float -> bool -> result PIL.Image :=
  match t with
  | protanopia => simulate_protanopia
  | deuteranopia => simulate_deuteranopia
  | tritanopia => simulate_tritanopia
  end.

Definition matrix_of (t : colorblind_type) (improved : bool) : matrix :=
  match t, improved with
  | protanopia, true => improved_protanopia
  | protanopia, false => protanopia_matrix
  | deuteranopia, true => improved_deuteranopia
  | deuteranopia, false => deuteranopia_matrix
  | tritanopia, true => improved_tritanopia
  | tritanopia, false => tritanopia_matrix
  end.
End Simulator.
End ColorBlind.

(** ** Python numbers *)

Inductive pynum :=
| PyInt (n : Z)
| PyFloat (x : spec_float).

Module Py.
Definition to_float (v : pynum) : spec_float :=
  match v with
  | PyInt n => IEEE.of_Z f64 n
  | PyFloat x => x
  end.

Definition lt (a b : pynum) : bool :=
  match a, b with
  | PyInt x, PyInt y => x <? y
  | _, _ => IEEE.ltb (to_float a) (to_float b)
  end.

(** [min(a, b)] and [max(a, b)] keep the first argument unless the
    second is strictly smaller (larger). *)
Definition min (a b : pynum) : pynum := if lt b a then b else a.
Definition max (a b : pynum) : pynum := if lt a b then b else a.

Definition arith (fz : Z -> Z -> Z)
    (ff : spec_float -> spec_float -> spec_float) (a b : pynum) : pynum :=
  match a, b with
  | PyInt x, PyInt y => PyInt (fz x y)
  | _, _ => PyFloat (ff (to_float a) (to_float b))
  end.

Definition add : pynum -> pynum -> pynum := arith Z.add (IEEE.add f64).
Definition sub : pynum -> pynum -> pynum := arith Z.sub (IEEE.sub f64).
Definition mul : pynum -> pynum -> pynum := arith Z.mul (IEEE.mul f64).
End Py.

(** ** complete_50_illusions_final.py: class Complete50IllusionsGenerator *)

Module Illusions.

Section Generator.
(** NumPy's elementary functions and the stream of
    [np.random.beta(0.5, 0.5)] draws, consumed in call order. *)
Variable np_exp np_log np_sin : spec_float -> spec_float.
Variable beta_draws : nat -> spec_float.
(** [self.gradient_count], 100 after [__init__]. *)
Variable gradient_count : Z.

Definition flt (n : Z) : spec_float := IEEE.of_Z f64 n.
Definition np_pi : spec_float := IEEE.dec f64 3141592653589793 15.

(** The interpolation position of an inner index and the number of
    draws it consumed; the divisor [gradient_count - 1] is not zero
    at any index this is reached for. *)
Definition curve (i : Z) (drawn : nat) : spec_float * nat :=
  if i <? 20 then
    (IEEE.div f64 (flt i) (flt (gradient_count - 1)), drawn)
  else if i <? 40 then
    (IEEE.div f64
       (IEEE.sub f64 (np_exp (IEEE.div f64 (flt i) (flt 20))) (flt 1))
       (IEEE.sub f64 (np_exp (IEEE.dec f64 495 2)) (flt 1)), drawn)
  else if i <? 60 then
    (IEEE.div f64 (np_log (flt (i + 1))) (np_log (flt gradient_count)),
     drawn)
  else if i <? 80 then
    (IEEE.div f64
       (IEEE.add f64
          (np_sin (IEEE.div f64 (IEEE.mul f64 (flt i) np_pi)
                     (flt gradient_count)))
          (flt 1))
       (flt 2), drawn)
  else (beta_draws drawn, S drawn).

(** The value of one parameter at index [i]. *)
Definition param_value (i : Z) (min_val max_val : pynum) (drawn : nat)
  : pynum * nat :=
  if i =? 0 then (min_val, drawn)
  else if i =? gradient_count - 1 then (max_val, drawn)
  else
    let '(t, drawn) := curve i drawn in
    let t := Py.max (PyInt 0) (Py.min (PyInt 1) (PyFloat t)) in
    (Py.add min_val (Py.mul (Py.sub max_val min_val) t), drawn).

Definition param_ranges := list (string * (pynum * pynum)).
Definition params := list (string * pynum).

(** The inner loop over [param_ranges.items()]. *)
Fixpoint gen_params (i : Z) (ranges : param_ranges) (drawn : nat)
  : params * nat :=
  match ranges with
  | [] => ([], drawn)
  | (param_name, (min_val, max_val)) :: rest =>
      let '(v, drawn) := param_value i min_val max_val drawn in
      let '(ps, drawn) := gen_params i rest drawn in
      ((param_name, v) :: ps, drawn)
  end.

(** The outer loop [for i in range(self.gradient_count)], from index
    [i] for [n] more steps: the parameter dictionaries in order. *)
Fixpoint gen_from (n : nat) (i : Z) (ranges : param_ranges) (drawn : nat)
  : list params :=
  match n with
  | O => []
  | S n' =>
      let '(ps, drawn) := gen_params i ranges drawn in
      ps :: gen_from n' (i + 1) ranges drawn
  end.

Definition generate_gradient_variations (ranges : param_ranges)
  : list params :=
  gen_from (Z.to_nat gradient_count) 0 ranges 0.

(** The dictionaries that give every parameter its lower bound and
    its upper bound. *)
Definition mins (ranges : param_ranges) : params :=
  List.map (fun '(k, (lo, _)) => (k, lo)) ranges.
Definition maxs (ranges : param_ranges) : params :=
  List.map (fun '(k, (_, hi)) => (k, hi)) ranges.
End Generator.
End Illusions.

(** ** VLM_Comprehensive_Benchmark_scripts/evaluation_framework.py:
       class ColorBlindnessEvaluator *)

Module ColorEval.

(** What [model_predict_func(image_path)] did. *)
Inductive call :=
| Raised
| Returned (prediction : string) (confidence : spec_float).

(** An entry of [sequence_results["predictions"]]; the [success] key
    is absent from the entry of a call that raised. *)
Record pred := mk_pred {
  step : nat;
  severity : spec_float;
  success : option bool
}.

Section Evaluator.
(** [self.is_prediction_correct], a text comparison. *)
Variable is_prediction_correct : string -> string -> bool.
Variable model_predict_func : string -> call.

Definition flt (n : Z) : spec_float := IEEE.of_Z f64 n.

Definition find_failure_threshold (predictions : list pred)
  : spec_float :=
  match
    find (fun p => match success p with
                   | Some ok => negb ok
                   | None => false
                   end) predictions
  with
  | Some p => severity p
  | None => IEEE.dec f64 10 1
  end.

Fixpoint recovery_scan (failed : bool) (predictions : list pred)
  : option spec_float :=
  match predictions with
  | [] => None
  | p :: rest =>
      match success p with
      | Some false => recovery_scan true rest
      | Some true =>
          if failed then Some (severity p) else recovery_scan failed rest
      | None => recovery_scan failed rest
      end
  end.

Definition find_recovery_threshold (predictions : list pred)
  : option spec_float :=
  recovery_scan false predictions.

(** One step of the loop over [enumerate(gradient_files)]. *)
Definition evaluate_step (n : nat) (expected_answer : string)
    (confidence_threshold : spec_float) (step : nat)
    (image_path : string) : result pred :=
  if Nat.eqb (n - 1) 0 then Raise ZeroDivisionError
  else
    let severity :=
      IEEE.div f64 (flt (Z.of_nat step)) (flt (Z.of_nat (n - 1))) in
    match model_predict_func image_path with
    | Returned prediction confidence =>
        let is_correct := is_prediction_correct prediction expected_answer in
        let is_confident := IEEE.leb confidence_threshold confidence in
        Ok (mk_pred step severity (Some (is_correct && is_confident)))
    | Raised => Ok (mk_pred step severity None)
    end.

Fixpoint evaluate_steps (n : nat) (expected_answer : string)
    (confidence_threshold : spec_float) (step : nat)
    (files : list string) : result (list pred) :=
  match files with
  | [] => Ok []
  | image_path :: rest =>
      do p <- evaluate_step n expected_answer confidence_threshold
                step image_path;
      do ps <- evaluate_steps n expected_answer confidence_threshold
                 (S step) rest;
      Ok (p :: ps)
  end.

Record sequence_results := mk_results {
  total_steps : nat;
  predictions : list pred;
  failure_threshold : spec_float;
  recovery_threshold : option spec_float
}.

Definition evaluate_colorblind_sequence (gradient_files : list string)
    (expected_answer : string) (confidence_threshold : spec_float)
  : result sequence_results :=
  do ps <- evaluate_steps (List.length gradient_files) expected_answer
             confidence_threshold 0 gradient_files;
  Ok (mk_results (List.length gradient_files) ps
        (find_failure_threshold ps) (find_recovery_threshold ps)).
End Evaluator.
End ColorEval.

(** ** evaluation_framework.py: class VisualBoundaryEvaluator *)

Module BoundaryEval.

Record TestResult := mk_result {
  level : Z;
  success : bool;
  confidence : spec_float
}.

(** [sorted(results, key=lambda x: x.level)], a stable sort. *)
Fixpoint insert_by_level (r : TestResult) (l : list TestResult)
  : list TestResult :=
  match l with
  | [] => [r]
  | x :: l' =>
      if level x <=? level r then x :: insert_by_level r l'
      else r :: x :: l'
  end.

Definition sorted_by_level (results : list TestResult) : list TestResult :=
  fold_left (fun acc r => insert_by_level r acc) results [].

(** The scan for the first run of three failures; [failure_count] is
    the length of the failure run that ends just before the list. *)
Fixpoint scan (failure_count : Z) (sorted_results : list TestResult)
  : option Z :=
  match sorted_results with
  | [] => None
  | result :: rest =>
      if success result then scan 0 rest
      else
        let failure_count := failure_count + 1 in
        if 3 <=? failure_count then Some (level result - 2)
        else scan failure_count rest
  end.

(** The dictionary returned by [find_failure_threshold], without its
    averaged confidence. *)
Record threshold_info := mk_info {
  failure_threshold : option Z;
  success_rate : spec_float;
  total_tests : Z;
  successful_tests : Z
}.

Definition find_failure_threshold (results : list TestResult)
  : threshold_info :=
  let sorted_results := sorted_by_level results in
  let failure_threshold := scan 0 sorted_results in
  let total_tests := Z.of_nat (List.length results) in
  let successful_tests :=
    Z.of_nat (List.length (filter success results)) in
  let success_rate :=
    if 0 <? total_tests
    then IEEE.div f64 (IEEE.of_Z f64 successful_tests)
           (IEEE.of_Z f64 total_tests)
    else IEEE.of_Z f64 0 in
  mk_info failure_threshold success_rate total_tests successful_tests.

(** [test_single_image]: a level whose degraded image is missing is
    recorded as a failure, the others get the model's verdict. *)
Definition test_single_image (image_exists : Z -> bool)
    (model_function : Z -> bool * spec_float) (test_levels : list Z)
  : list TestResult :=
  List.map
    (fun level =>
       if image_exists level
       then let '(ok, conf) := model_function level in
            mk_result level ok conf
       else mk_result level false (IEEE.of_Z f64 0))
    test_levels.

(** [list(range(0, 101, 10))], the default [test_levels]. *)
Definition default_test_levels : list Z :=
  List.map (fun k => 10 * Z.of_nat k) (seq 0 11).
End BoundaryEval.

(** * The specification's formulas and the finite checks

    Definitions named [Spec.x] follow the words of the specification;
    the boolean checks compare them with the code on the finite ranges
    of levels and channel values. *)

(** The integers [a, a + n). *)
Definition zrange (a n : nat) : list Z := List.map Z.of_nat (seq a n).

Module Spec.
(** The brightness factor in the words of the specification. *)
Definition brightness_factor (level : Z) : Q :=
  if level <=? 50
  then (1 - (inject_Z level / 50) * (8 # 10))%Q
  else (1 + (inject_Z (level - 50) / 50) * (15 # 10))%Q.

(** Clamping to the channel range [0, 255]. *)
Definition clamp (q : Q) : Q :=
  if Qle_bool q 0 then 0%Q
  else if Qle_bool 255 q then 255%Q
  else q.

(** An 8-bit output [o] renders the real value [q] when it is the
    integer below it or, where rounding pushed the product just under
    an integer, one less: [q - 1 <= o <= q]. *)
Definition rendersb (o : Z) (q : Q) : bool :=
  (0 <=? o) && (o <=? 255) &&
  Qle_bool (q - 1) (inject_Z o) && Qle_bool (inject_Z o) q.
Definition renders (o : Z) (q : Q) : Prop :=
  0 <= o <= 255 /\ (q - 1 <= inject_Z o)%Q /\ (inject_Z o <= q)%Q.

(** The channels of a pixel in the BGR order of the arrays. *)
Inductive channel := Blue | Green | Red.

Definition channel_of (c : nat) : channel :=
  match c with
  | 0%nat => Blue
  | 1%nat => Green
  | _ => Red
  end.

(** The six channel biases of the colour shift, by [level mod 6], with
    [shift_intensity = level / 100]: the factor each channel is
    multiplied by. *)
Definition color_shift_multiplier (level : Z) (c : channel) : Q :=
  let s := (inject_Z level / 100)%Q in
  let amplified := (1 + s)%Q in
  let attenuated_3 := (1 - s * (3 # 10))%Q in
  let attenuated_5 := (1 - s * (5 # 10))%Q in
  match level mod 6, c with
  | 0, Red => amplified          (* redward *)
  | 0, Green => attenuated_3
  | 1, Green => amplified        (* greenward *)
  | 1, Red => attenuated_3
  | 2, Blue => amplified         (* blueward *)
  | 2, Green => attenuated_3
  | 3, Blue => attenuated_5      (* yellowward *)
  | 4, Red => attenuated_5       (* cyanward *)
  | 5, Green => attenuated_5     (* magentaward *)
  | _, _ => 1%Q
  end.

(** The sum of a row of a matrix, over the rationals. *)
Definition row_sum (r : ColorBlind.row) : Q :=
  let '(a, b, c) := r in (IEEE.to_Q a + IEEE.to_Q b + IEEE.to_Q c)%Q.

(** The numeric tolerance of the fixed-point property: two parts in a
    million on the [0, 1] scale. *)
Definition tolerance : Q := 2 # 1000000.
End Spec.

(** One level of the brightness check: the computed factor against the
    formula, the range of the formula, and every channel value. *)
Definition brightness_level_ok (level : Z) : bool :=
  let factor := VisualDegradation.brightness_factor level in
  let k := IEEE.round f32 factor in
  let q := Spec.brightness_factor level in
  Qle_bool (Qabs (IEEE.to_Q factor - q)) (1 # 2 ^ 50) &&
  (if level <=? 50
   then Qle_bool (2 # 10) q && Qle_bool q 1
   else negb (Qle_bool q 1) && Qle_bool q (25 # 10)) &&
  forallb
    (fun v =>
       match IEEE.to_uint8
               (clip_0_255 f32 (IEEE.mul f32 (IEEE.of_Z f32 v) k)) with
       | Some o => Spec.rendersb o (Spec.clamp (inject_Z v * q))
       | None => false
       end) (zrange 0 256).

(** What [color_shift_float] does to one element of channel [c]. *)
Definition color_shift_elt (level : Z) (c : nat) : spec_float -> spec_float :=
  let shift_type := level mod 6 in
  let s := VisualDegradation.shift_intensity level in
  let scale k := fun x => IEEE.mul f32 x (IEEE.round f32 k) in
  let keep := fun x : spec_float => x in
  if shift_type =? 0 then
    if Nat.eqb c 1 then scale (VisualDegradation.attenuate s 3)
    else if Nat.eqb c 2 then scale (VisualDegradation.amplify s) else keep
  else if shift_type =? 1 then
    if Nat.eqb c 2 then scale (VisualDegradation.attenuate s 3)
    else if Nat.eqb c 1 then scale (VisualDegradation.amplify s) else keep
  else if shift_type =? 2 then
    if Nat.eqb c 1 then scale (VisualDegradation.attenuate s 3)
    else if Nat.eqb c 0 then scale (VisualDegradation.amplify s) else keep
  else if shift_type =? 3 then
    if Nat.eqb c 0 then scale (VisualDegradation.attenuate s 5) else keep
  else if shift_type =? 4 then
    if Nat.eqb c 2 then scale (VisualDegradation.attenuate s 5) else keep
  else
    if Nat.eqb c 1 then scale (VisualDegradation.attenuate s 5) else keep.

(** One level of the colour-shift check: the computed intensity against
    level / 100, and every channel value on every channel. *)
Definition color_shift_level_ok (level : Z) : bool :=
  Qle_bool
    (Qabs (IEEE.to_Q (VisualDegradation.shift_intensity level)
           - inject_Z level / 100)) (1 # 2 ^ 50) &&
  forallb
    (fun c =>
       let g := color_shift_elt level c in
       let q := Spec.color_shift_multiplier level (Spec.channel_of c) in
       forallb
         (fun v =>
            match IEEE.to_uint8 (clip_0_255 f32 (g (IEEE.of_Z f32 v))) with
            | Some o => Spec.rendersb o (Spec.clamp (inject_Z v * q))
            | None => false
            end) (zrange 0 256))
    [0%nat; 1%nat; 2%nat].

(** The six dichromacy matrices of the simulator. *)
Definition all_matrices : list ColorBlind.matrix :=
  [ColorBlind.protanopia_matrix; ColorBlind.deuteranopia_matrix;
   ColorBlind.tritanopia_matrix; ColorBlind.improved_protanopia;
   ColorBlind.improved_deuteranopia; ColorBlind.improved_tritanopia].

(** The rows of a matrix. *)
Definition rows (m : ColorBlind.matrix) : list ColorBlind.row :=
  let '(m0, m1, m2) := m in [m0; m1; m2].

(** The grey fixed point on one row and one grey level: the product is
    within the tolerance of the normalised level, and its 8-bit
    rendering is the level or the one below. *)
Definition gray_row_ok (r : ColorBlind.row) (v : Z) : bool :=
  let p := ColorBlind.normalize v in
  let t := ColorBlind.dot (p, p, p) r in
  Qle_bool (Qabs (IEEE.to_Q t - IEEE.to_Q p)) Spec.tolerance &&
  match IEEE.to_uint8
          (IEEE.mul f64
             (IEEE.clip (IEEE.of_Z f64 0) (IEEE.of_Z f64 1) t)
             (IEEE.of_Z f64 255)) with
  | Some o => (v - 1 <=? o) && (o <=? v)
  | None => false
  end.

(** The grey fixed point on a whole matrix: every row sums to 1 within
    the tolerance and passes on every grey level. *)
Definition gray_matrix_ok (m : ColorBlind.matrix) : bool :=
  forallb
    (fun r =>
       Qle_bool (Qabs (Spec.row_sum r - 1)) Spec.tolerance &&
       forallb (gray_row_ok r) (zrange 0 256))
    (rows m).

(** The shape of a three-channel image array. *)
Definition three_channel (s : list nat) : Prop :=
  exists h w, s = [h; w; 3%nat].

(** A float that is neither zero nor NaN and has sign [s]. *)
Definition signed_nonzero (s : bool) (x : spec_float) : Prop :=
  match x with
  | S754_finite s' _ _ | S754_infinity s' => s' = s
  | _ => False
  end.

(** A comparator that always answers with the given correctness and
    confidence verdicts, for the expected answer and the threshold. *)
Definition always (is_prediction_correct : string -> string -> bool)
    (model_predict_func : string -> ColorEval.call)
    (expected_answer : string) (confidence_threshold : spec_float)
    (is_correct is_confident : bool) : Prop :=
  forall image_path, exists prediction confidence,
    model_predict_func image_path = ColorEval.Returned prediction confidence /\
    is_prediction_correct prediction expected_answer = is_correct /\
    IEEE.leb confidence_threshold confidence = is_confident.

(** A prediction that counts as a failure: its [success] key is present
    and false. *)
Definition failed (p : ColorEval.pred) : Prop :=
  ColorEval.success p = Some false.

(** Adding a zero of either sign to an 8-bit value, clamping and
    converting back gives the value. *)
Definition plus_zero_ok (v : Z) : bool :=
  forallb
    (fun s =>
       match IEEE.to_uint8
               (clip_0_255 f64 (IEEE.add f64 (IEEE.of_Z f64 v) (S754_zero s)))
       with
       | Some o => o =? v
       | None => false
       end)
    [false; true].

(** The all-zero noise array of a shape. *)
Definition zero_noise (s : list nat) : ndarray spec_float :=
  NDArray.tabulate s (fun _ => S754_zero false).

(** The speckle formula on an 8-bit value with a zero noise term of
    either sign gives the value back. *)
Definition speckle_zero_ok (v : Z) : bool :=
  forallb
    (fun s =>
       let x := IEEE.of_Z f64 v in
       match IEEE.to_uint8
               (clip_0_255 f64
                  (IEEE.add f64 x
                     (IEEE.div f64 (IEEE.mul f64 x (S754_zero s))
                        (IEEE.of_Z f64 100))))
       with
       | Some o => o =? v
       | None => false
       end)
    [false; true].

(** At severity 0 the colour-space blend of a normalised 8-bit value
    with a zero term of either sign quantises back to the value, and the
    normalised value is bounded. *)
Definition severity_zero_ok (v : Z) : bool :=
  let p := ColorBlind.normalize v in
  let x :=
    IEEE.round f64
      (IEEE.mul f32
         (IEEE.round f32 (IEEE.sub f64 (IEEE.of_Z f64 1) (S754_zero false)))
         p) in
  IEEE.smallb 1 (IEEE.round f64 p) &&
  forallb
    (fun s =>
       match IEEE.to_uint8
               (IEEE.mul f64
                  (IEEE.clip (IEEE.of_Z f64 0) (IEEE.of_Z f64 1)
                     (IEEE.add f64 x (S754_zero s)))
                  (IEEE.of_Z f64 255))
       with
       | Some o => o =? v
       | None => false
       end)
    [false; true].

(** The entries of a row are below 2 in absolute value. *)
Definition row_small (r : ColorBlind.row) : bool :=
  let '(a, b, c) := r in
  IEEE.smallb 1 a && IEEE.smallb 1 b && IEEE.smallb 1 c.

(** The transforms of [NoiseGradientGenerator] whose intensity 0 is the
    identity. *)
Definition identity_at_zero : list NoiseGradient.transform_type :=
  [NoiseGradient.gaussian_noise_t; NoiseGradient.salt_pepper_noise;
   NoiseGradient.speckle_noise; NoiseGradient.pixelation;
   NoiseGradient.color_shift].

(** The output has the shape of the input (height, width and channel
    count) and a buffer that fills it. *)
Definition same_dims (image out : ndarray Z) : Prop :=
  NDArray.shape out = NDArray.shape image /\ NDArray.wf out.

(** A transform returned an image of the input's dimensions. *)
Definition keeps_dims (image : ndarray Z) (r : result (ndarray Z)) : Prop :=
  exists out, r = Ok out /\ same_dims image out.

(** The scale factor of the resolution loss is bounded at every level. *)
Definition scale_factor_ok (level : Z) : bool :=
  IEEE.smallb 1 (VisualDegradation.scale_factor level).

(** A float the Poisson sampler accepts as a rate. *)
Definition nonnegb (x : spec_float) : bool :=
  match x with
  | S754_zero _ | S754_finite false _ _ => true
  | _ => false
  end.

(** The intensity of every gradient step is a bounded non-negative
    float, its Gaussian scales are not negative and its pixel sizes are
    defined. *)
Definition intensity_ok (i : Z) : bool :=
  let x := NoiseGradient.gradient_intensity i in
  IEEE.smallb 1 x && nonnegb x &&
  negb (IEEE.ltb (IEEE.mul f64 x (IEEE.of_Z f64 50)) (IEEE.of_Z f64 0)) &&
  negb (IEEE.ltb (IEEE.mul f64 x (IEEE.of_Z f64 25)) (IEEE.of_Z f64 0)) &&
  IEEE.is_finite (IEEE.mul f64 x (IEEE.of_Z f64 50)) &&
  IEEE.is_finite (IEEE.mul f64 x (IEEE.of_Z f64 20)).

(** ** Further definitions for the evaluators, the sequencer and the
       parameter curves *)

(** The [success] key is present in a prediction: the model call
    returned. *)
Definition answered (p : ColorEval.pred) : bool :=
  match ColorEval.success p with
  | Some _ => true
  | None => false
  end.

(** A prediction that counts as a success: its [success] key is present
    and true. *)
Definition succeeded (p : ColorEval.pred) : Prop :=
  ColorEval.success p = Some true.

(** The last result of the first window of three consecutive failures
    of a list of results. *)
Fixpoint first_failure_run (l : list BoundaryEval.TestResult)
  : option BoundaryEval.TestResult :=
  match l with
  | r1 :: tl =>
      match tl with
      | r2 :: r3 :: _ =>
          if (negb (BoundaryEval.success r1) && negb (BoundaryEval.success r2)
              && negb (BoundaryEval.success r3))%bool
          then Some r3
          else first_failure_run tl
      | _ => None
      end
  | [] => None
  end.

(** The model call on a file returned. *)
Definition returned (model_predict_func : string -> ColorEval.call)
    (image_path : string) : bool :=
  match model_predict_func image_path with
  | ColorEval.Returned _ _ => true
  | ColorEval.Raised => false
  end.

(** The severity [step / (n - 1)] of a step among [n] files. *)
Definition step_severity (n step : nat) : spec_float :=
  IEEE.div f64 (IEEE.of_Z f64 (Z.of_nat step))
    (IEEE.of_Z f64 (Z.of_nat (n - 1))).

(** [max(0, min(1, t))], the clamped interpolation weight of the
    gradient sequencer. *)
Definition clamped (t : spec_float) : pynum :=
  Py.max (PyInt 0) (Py.min (PyInt 1) (PyFloat t)).

(** [min_val + (max_val - min_val) * t]. *)
Definition interpolate (min_val max_val t : pynum) : pynum :=
  Py.add min_val (Py.mul (Py.sub max_val min_val) t).

(** Every element of a list is related to every later one. *)
Fixpoint ordered (R : spec_float -> spec_float -> bool)
    (l : list spec_float) : bool :=
  match l with
  | [] => true
  | x :: l' => forallb (R x) l' && ordered R l'
  end.

(** [x > y] on floats. *)
Definition gtb (x y : spec_float) : bool := IEEE.ltb y x.

(** The ranges the source comments announce for the parameters of the
    six degradations, at one level. *)
Definition parameter_ranges_ok (level : Z) : bool :=
  IEEE.ltb (VisualDegradation.lit 1 1) (VisualDegradation.blur_radius level) &&
  IEEE.leb (VisualDegradation.blur_radius level) (VisualDegradation.lit 200 1) &&
  IEEE.leb (VisualDegradation.lit 1 2) (VisualDegradation.contrast_factor level) &&
  IEEE.ltb (VisualDegradation.contrast_factor level) (VisualDegradation.lit 10 1) &&
  IEEE.ltb (VisualDegradation.lit (-1800) 1) (VisualDegradation.hue_shift level) &&
  IEEE.leb (VisualDegradation.hue_shift level) (VisualDegradation.lit 1800 1) &&
  IEEE.ltb (VisualDegradation.lit 1 1) (VisualDegradation.saturation_factor level) &&
  IEEE.leb (VisualDegradation.saturation_factor level) (VisualDegradation.lit 30 1) &&
  IEEE.ltb (VisualDegradation.lit 0 1) (VisualDegradation.shift_intensity level) &&
  IEEE.leb (VisualDegradation.shift_intensity level) (VisualDegradation.lit 10 1) &&
  IEEE.leb (VisualDegradation.lit 5 2) (VisualDegradation.scale_factor level) &&
  IEEE.ltb (VisualDegradation.scale_factor level) (VisualDegradation.lit 10 1).

(** A walk along a list of inputs: every output passes a check and the
    outputs never decrease. *)
Fixpoint walk (f : Z -> Z) (ok : Z -> Z -> bool) (prev : Z) (vs : list Z)
  : bool :=
  match vs with
  | [] => true
  | v :: vs' => let o := f v in (prev <=? o) && ok v o && walk f ok o vs'
  end.

(** The 8-bit value of a float where the conversion is defined, -1
    where it is not. *)
Definition defined_uint8 (x : spec_float) : Z :=
  match IEEE.to_uint8 x with
  | Some z => z
  | None => -1
  end.

(** What [degrade_brightness] does to one channel value at a level. *)
Definition brightness_curve (undef : spec_float -> Z) (level v : Z) : Z :=
  to_uint8 undef
    (clip_0_255 f32
       (IEEE.mul f32 (IEEE.of_Z f32 v)
          (IEEE.round f32 (VisualDegradation.brightness_factor level)))).

(** One level of the brightness curve: defined on every channel value,
    never decreasing, below the identity up to level 50 and above it
    beyond. *)
Definition brightness_curve_ok (level : Z) : bool :=
  let k := IEEE.round f32 (VisualDegradation.brightness_factor level) in
  walk
    (fun v =>
       defined_uint8 (clip_0_255 f32 (IEEE.mul f32 (IEEE.of_Z f32 v) k)))
    (fun v o =>
       (0 <=? o) && (o <=? 255) &&
       (if level <=? 50 then o <=? v else v <=? o))
    0 (zrange 0 256).

(** The channels a colour-shift branch does not assign: channel 0
    (blue) for the red and green casts, channel 2 (red) for the blue
    cast, the two other channels for the three casts that lower a
    single channel. *)
Definition untouched (level : Z) (c : nat) : bool :=
  let shift_type := level mod 6 in
  if shift_type =? 0 then Nat.eqb c 0
  else if shift_type =? 1 then Nat.eqb c 0
  else if shift_type =? 2 then Nat.eqb c 2
  else if shift_type =? 3 then negb (Nat.eqb c 0)
  else if shift_type =? 4 then negb (Nat.eqb c 2)
  else negb (Nat.eqb c 1).

(** An 8-bit value survives the conversion to float32, the clamp and
    the conversion back. *)
Definition keep_ok (v : Z) : bool :=
  match IEEE.to_uint8 (clip_0_255 f32 (IEEE.of_Z f32 v)) with
  | Some o => o =? v
  | None => false
  end.

(** At one level a zero channel value stays zero on every channel. *)
Definition zero_ok (level : Z) : bool :=
  forallb
    (fun c =>
       match IEEE.to_uint8
               (clip_0_255 f32 (color_shift_elt level c (IEEE.of_Z f32 0))) with
       | Some o => o =? 0
       | None => false
       end)
    [0%nat; 1%nat; 2%nat].

(** What [degrade_color_distortion] does to one element of the HSV
    array before the conversion back to 8 bits: the hue channel is
    shifted modulo 180, the saturation channel scaled and clamped, the
    value channel kept. *)
Definition distort_elt (level : Z) (c : nat) (x : spec_float) : spec_float :=
  if Nat.eqb c 0 then
    VisualDegradation.np_remainder f32
      (IEEE.add f32 x (IEEE.round f32 (VisualDegradation.hue_shift level)))
      (IEEE.of_Z f32 180)
  else if Nat.eqb c 1 then
    clip_0_255 f32
      (IEEE.mul f32 x (IEEE.round f32 (VisualDegradation.saturation_factor level)))
  else x.

(** One level of the colour distortion: every 8-bit hue becomes a hue
    in [0, 180) and every 8-bit saturation an 8-bit saturation, with a
    defined conversion. *)
Definition distortion_level_ok (level : Z) : bool :=
  let s := IEEE.round f32 (VisualDegradation.hue_shift level) in
  let k := IEEE.round f32 (VisualDegradation.saturation_factor level) in
  forallb
    (fun v =>
       let x := IEEE.of_Z f32 v in
       match IEEE.to_uint8
               (VisualDegradation.np_remainder f32 (IEEE.add f32 x s)
                  (IEEE.of_Z f32 180)),
             IEEE.to_uint8 (clip_0_255 f32 (IEEE.mul f32 x k)),
             IEEE.to_uint8 x
       with
       | Some hue, Some sat, Some val =>
           (0 <=? hue) && (hue <? 180) && (0 <=? sat) && (sat <=? 255) &&
           (val =? v)
       | _, _, _ => false
       end)
    (zrange 0 256).

(** At the levels 50 and 100 the hue shift is a multiple of 180: a hue
    below 180 comes back unchanged. *)
Definition hue_fixed_ok (level : Z) : bool :=
  let s := IEEE.round f32 (VisualDegradation.hue_shift level) in
  forallb
    (fun v =>
       match IEEE.to_uint8
               (VisualDegradation.np_remainder f32
                  (IEEE.add f32 (IEEE.of_Z f32 v) s) (IEEE.of_Z f32 180)) with
       | Some hue => hue =? v
       | None => false
       end)
    (zrange 0 180).

(** The factors of the three enhancement series at one gradient step,
    against the ranges the source comments announce: brightness from
    0.3 to 1.7, contrast from 0.5 to 2.0, saturation from 0 to 2.0; the
    brightness and saturation factors are never the neutral 1.0. *)
Definition noise_factors_ok (i : Z) : bool :=
  let t := NoiseGradient.gradient_intensity i in
  IEEE.leb (NoiseGradient.flt 0) t && IEEE.leb t (NoiseGradient.flt 1) &&
  IEEE.leb (NoiseGradient.lit 3 1) (NoiseGradient.brightness_factor t) &&
  IEEE.leb (NoiseGradient.brightness_factor t) (NoiseGradient.lit 17 1) &&
  IEEE.leb (NoiseGradient.lit 5 1) (NoiseGradient.contrast_factor t) &&
  IEEE.leb (NoiseGradient.contrast_factor t) (NoiseGradient.lit 20 1) &&
  IEEE.leb (NoiseGradient.flt 0) (NoiseGradient.saturation_factor t) &&
  IEEE.leb (NoiseGradient.saturation_factor t) (NoiseGradient.lit 20 1) &&
  negb (SFeqb (NoiseGradient.brightness_factor t) (NoiseGradient.flt 1)) &&
  negb (SFeqb (NoiseGradient.saturation_factor t) (NoiseGradient.flt 1)).

(** ** NumPy: evenly spaced samples, slices, broadcasting and means *)

Module NumPy.

(** [np.linspace(start, stop, num)] on binary64 bounds: the samples
    [i * step + start] with [step = (stop - start) / (num - 1)], the
    last one replaced by [stop]; a step that underflows to zero is
    applied as [i / (num - 1) * (stop - start)]. *)
Definition linspace (start stop : spec_float) (num : nat)
  : list spec_float :=
  let div := (num - 1)%nat in
  let delta := IEEE.sub f64 stop start in
  let step := IEEE.div f64 delta (IEEE.of_Z f64 (Z.of_nat div)) in
  List.map
    (fun i =>
       if (Nat.ltb 1 num && Nat.eqb i div)%bool then stop
       else
         let y := IEEE.of_Z f64 (Z.of_nat i) in
         let y :=
           if Nat.eqb div 0 then IEEE.mul f64 y delta
           else if SFeqb step (IEEE.of_Z f64 0)
                then IEEE.mul f64
                       (IEEE.div f64 y (IEEE.of_Z f64 (Z.of_nat div))) delta
                else IEEE.mul f64 y step in
         IEEE.add f64 y start)
    (seq 0 num).

(** A bound of the slice [a:b] on an axis of length [n]: a negative
    bound counts from the end, and the result is clamped to the
    axis. *)
Definition slice_bound (n : nat) (a : Z) : nat :=
  Z.to_nat
    (Z.min (Z.of_nat n) (if a <? 0 then Z.max 0 (a + Z.of_nat n) else a)).

(** [a[y1:y2, x1:x2]] on an array of at least two dimensions: the rows
    and columns inside the bounds, every later axis whole. *)
Definition slice2 {A} (d : A) (a : ndarray A) (y1 y2 x1 x2 : Z)
  : result (ndarray A) :=
  match NDArray.shape a with
  | h :: w :: rest =>
      let ys := slice_bound h y1 in
      let ye := slice_bound h y2 in
      let xs := slice_bound w x1 in
      let xe := slice_bound w x2 in
      let nh := (ye - ys)%nat in
      let nw := (xe - xs)%nat in
      let pp := NDArray.size rest in
      Ok (NDArray.tabulate (nh :: nw :: rest)
            (fun j =>
               let k := (j mod pp)%nat in
               let c := ((j / pp) mod nw)%nat in
               let r := (j / pp / nw)%nat in
               nth (((ys + r) * w + (xs + c)) * pp + k)%nat
                 (NDArray.data a) d))
  | _ => Raise IndexError
  end.

(** Broadcasting of two shapes, both given last axis first: axes agree
    when they are equal or one of them is 1, and a missing axis counts
    as 1. *)
Fixpoint broadcast_rev (s1 s2 : list nat) : option (list nat) :=
  match s1, s2 with
  | [], s => Some s
  | s, [] => Some s
  | a :: s1', b :: s2' =>
      match broadcast_rev s1' s2' with
      | None => None
      | Some s =>
          if Nat.eqb a b then Some (a :: s)
          else if Nat.eqb a 1 then Some (b :: s)
          else if Nat.eqb b 1 then Some (a :: s)
          else None
      end
  end.

(** The flat index, in an operand of shape [src], of the element that
    position [i] of the broadcast shape [dst] reads (both shapes last
    axis first): an axis of length 1 is read at 0. *)
Fixpoint source_index_rev (src dst : list nat) (i stride : nat) : nat :=
  match src, dst with
  | s :: src', d :: dst' =>
      ((if Nat.eqb s 1 then 0 else (i mod d) * stride) +
       source_index_rev src' dst' (i / d) (stride * s))%nat
  | _, _ => 0%nat
  end.

(** An element-wise binary operation with broadcasting. *)
Definition broadcast2 {A B} (d : A) (f : A -> A -> B) (a b : ndarray A)
  : result (ndarray B) :=
  let sa := rev (NDArray.shape a) in
  let sb := rev (NDArray.shape b) in
  match broadcast_rev sa sb with
  | None => Raise (ValueError "operands could not be broadcast together")
  | Some s =>
      Ok (NDArray.tabulate (rev s)
            (fun i =>
               f (nth (source_index_rev sa s i 1) (NDArray.data a) d)
                 (nth (source_index_rev sb s i 1) (NDArray.data b) d)))
  end.

(** The order in which a reduction adds the elements of an array: a
    tree whose leaves are element positions.  NumPy sums pairwise, in
    an order that depends on the array's size and layout and on the
    build; the order is a parameter. *)
Inductive plan :=
| Leaf (i : nat)
| Node (l r : plan).

Fixpoint sum_by (fmt : IEEE.format) (p : plan) (a : list spec_float)
  : spec_float :=
  match p with
  | Leaf i => nth i a (S754_zero false)
  | Node l r => IEEE.add fmt (sum_by fmt l a) (sum_by fmt r a)
  end.

(** [np.mean] of a float32 array over all its elements: the sum, in
    float32, divided by the element count; NaN on an empty array. *)
Definition mean32 (order : nat -> plan) (a : list spec_float)
  : spec_float :=
  let total :=
    match a with
    | [] => S754_zero false
    | _ => sum_by f32 (order (List.length a)) a
    end in
  IEEE.div f32 total (IEEE.of_Z f32 (Z.of_nat (List.length a))).

End NumPy.

(** ** colorblind_simulation.py: class ColorBlindnessMetrics *)

Module ColorBlindMetrics.

(** The names [n] for which the simulator has a method [simulate_n];
    [getattr] raises AttributeError on every other name. *)
Inductive simulation :=
| protanopia | deuteranopia | tritanopia
| protanomaly | deuteranomaly | tritanomaly.

Section Metrics.
Variable undef : spec_float -> Z.
(** NumPy's promotion rules: under those of NumPy 2 a float64 scalar
    makes a float32 array float64 and a float32 scalar stays float32
    next to a Python float; under the older value-based rules it is
    the other way round. *)
Variable nep50 : bool.
(** The summation order of [np.mean]. *)
Variable order : nat -> NumPy.plan.

(** [(1 - severity) * pixels + severity * transformed_pixels] on one
    channel for a NumPy float64 [severity] under NumPy 2's rules: both
    products in binary64. *)
Definition mix64 (severity p t : spec_float) : spec_float :=
  IEEE.add f64
    (IEEE.mul f64 (IEEE.sub f64 (IEEE.of_Z f64 1) severity) (IEEE.round f64 p))
    (IEEE.mul f64 severity t).

Definition transform_pixel64 (m : ColorBlind.matrix) (severity : spec_float)
    (p : ColorBlind.row) : Z * Z * Z :=
  let '(m0, m1, m2) := m in
  let '(p0, p1, p2) := p in
  let t0 := ColorBlind.dot p m0 in
  let t1 := ColorBlind.dot p m1 in
  let t2 := ColorBlind.dot p m2 in
  let '(t0, t1, t2) :=
    if IEEE.ltb severity (IEEE.dec f64 10 1)
    then (mix64 severity p0 t0, mix64 severity p1 t1, mix64 severity p2 t2)
    else (t0, t1, t2) in
  (ColorBlind.quantize undef t0, ColorBlind.quantize undef t1,
   ColorBlind.quantize undef t2).

Fixpoint transform_pixels64 (m : ColorBlind.matrix) (severity : spec_float)
    (l : list Z) : list Z :=
  match l with
  | r :: g :: b :: l' =>
      let '(x, y, z) :=
        transform_pixel64 m severity
          (ColorBlind.normalize r, ColorBlind.normalize g,
           ColorBlind.normalize b) in
      x :: y :: z :: transform_pixels64 m severity l'
  | _ => []
  end.

(** [apply_colorblindness_matrix] with a NumPy float64 severity, as
    [calculate_visibility_threshold] calls it through the simulator. *)
Definition apply_colorblindness_matrix (image : PIL.Image)
    (m : ColorBlind.matrix) (severity : spec_float) : result PIL.Image :=
  if nep50 then
    let original_shape := NDArray.shape image in
    match original_shape with
    | [_; _; 3%nat] =>
        Ok (NDArray.mk original_shape
              (transform_pixels64 m severity (NDArray.data image)))
    | _ => Raise (ValueError "图像必须是RGB格式")
    end
  else ColorBlind.apply_colorblindness_matrix undef image m severity.

(** [getattr(self.simulator, f'simulate_{colorblind_type}')(image,
    severity)]: the improved matrices are the default, and the three
    anomaly methods pass the severity on to the dichromacy methods. *)
Definition simulate (colorblind_type : simulation) (image : PIL.Image)
    (severity : spec_float) : result PIL.Image :=
  match colorblind_type with
  | protanopia | protanomaly =>
      apply_colorblindness_matrix image ColorBlind.improved_protanopia severity
  | deuteranopia | deuteranomaly =>
      apply_colorblindness_matrix image ColorBlind.improved_deuteranopia severity
  | tritanopia | tritanomaly =>
      apply_colorblindness_matrix image ColorBlind.improved_tritanopia severity
  end.

(** The format of a float32 scalar combined with a Python float. *)
Definition scalar : IEEE.format := if nep50 then f32 else f64.

Definition calculate_target_visibility (original simulated : PIL.Image)
    (target_region : option (Z * Z * Z * Z)) : result spec_float :=
  let orig_array := NDArray.map (IEEE.of_Z f32) original in
  let sim_array := NDArray.map (IEEE.of_Z f32) simulated in
  let zero := S754_zero false in
  do difference <-
    match target_region with
    | None => NumPy.broadcast2 zero (IEEE.sub f32) orig_array sim_array
    | Some (x1, y1, x2, y2) =>
        do orig_region <- NumPy.slice2 zero orig_array y1 y2 x1 x2;
        do sim_region <- NumPy.slice2 zero sim_array y1 y2 x1 x2;
        NumPy.broadcast2 zero (IEEE.sub f32) orig_region sim_region
    end;
  let diff := NumPy.mean32 order (List.map SFabs (NDArray.data difference)) in
  Ok (IEEE.div scalar (IEEE.round scalar diff)
        (IEEE.round scalar (IEEE.dec f64 2550 1))).

(** The loop over [np.linspace(0, 1, 101)]. *)
Fixpoint first_invisible (image : PIL.Image) (colorblind_type : simulation)
    (target_region : option (Z * Z * Z * Z)) (severities : list spec_float)
  : result spec_float :=
  match severities with
  | [] => Ok (IEEE.dec f64 10 1)
  | severity :: rest =>
      do sim_image <- simulate colorblind_type image severity;
      do visibility_score <-
        calculate_target_visibility image sim_image target_region;
      if IEEE.ltb visibility_score (IEEE.round scalar (IEEE.dec f64 1 1))
      then Ok severity
      else first_invisible image colorblind_type target_region rest
  end.

Definition calculate_visibility_threshold (image : PIL.Image)
    (colorblind_type : simulation) (target_region : option (Z * Z * Z * Z))
  : result spec_float :=
  first_invisible image colorblind_type target_region
    (NumPy.linspace (IEEE.of_Z f64 0) (IEEE.of_Z f64 1) 101).
End Metrics.
End ColorBlindMetrics.

(** ** colorblindness_scripts/generate_dataset.py: difficulty levels *)

Module DatasetGenerator.

(** [assess_difficulty_level(severity, visibility_threshold)]; the
    threshold is [None] when its computation raised. *)
Definition assess_difficulty_level (severity : spec_float)
    (visibility_threshold : option spec_float) : string :=
  match visibility_threshold with
  | None => "unknown"
  | Some visibility_threshold =>
      if IEEE.ltb severity
           (IEEE.mul f64 visibility_threshold (IEEE.dec f64 5 1))
      then "easy"
      else if IEEE.ltb severity visibility_threshold then "medium"
      else if IEEE.ltb severity
                (IEEE.mul f64 visibility_threshold (IEEE.dec f64 15 1))
      then "hard"
      else "very_hard"
  end.

(** The threshold [step2_generate_gradients] stores for a colour-blind
    variant: an exception of the computation leaves [None]. *)
Definition stored_threshold (r : result spec_float) : option spec_float :=
  match r with
  | Ok t => Some t
  | Raise _ => None
  end.

End DatasetGenerator.

(** At severity 0 the binary64 blend of a normalised 8-bit value with a
    zero term of either sign quantises back to the value. *)
Definition severity_zero64_ok (v : Z) : bool :=
  let p := ColorBlind.normalize v in
  let x :=
    IEEE.mul f64 (IEEE.sub f64 (IEEE.of_Z f64 1) (S754_zero false))
      (IEEE.round f64 p) in
  forallb
    (fun s =>
       match IEEE.to_uint8
               (IEEE.mul f64
                  (IEEE.clip (IEEE.of_Z f64 0) (IEEE.of_Z f64 1)
                     (IEEE.add f64 x (S754_zero s)))
                  (IEEE.of_Z f64 255))
       with
       | Some o => o =? v
       | None => false
       end)
    [false; true].

(** The improved matrices, the ones the [simulate_] methods use by
    default. *)
Definition improved_matrix (t : ColorBlindMetrics.simulation)
  : ColorBlind.matrix :=
  match t with
  | ColorBlindMetrics.protanopia | ColorBlindMetrics.protanomaly =>
      ColorBlind.improved_protanopia
  | ColorBlindMetrics.deuteranopia | ColorBlindMetrics.deuteranomaly =>
      ColorBlind.improved_deuteranopia
  | ColorBlindMetrics.tritanopia | ColorBlindMetrics.tritanomaly =>
      ColorBlind.improved_tritanopia
  end.

(** The region of an image array that a target region selects: the
    whole array when there is none. *)
Definition selected (image : PIL.Image)
    (target_region : option (Z * Z * Z * Z)) : result (ndarray Z) :=
  match target_region with
  | None => Ok image
  | Some (x1, y1, x2, y2) => NumPy.slice2 0 image y1 y2 x1 x2
  end.

(** ** Python's number formatting *)

Module PyFormat.

(** The decimal digits of a natural number. *)
Definition digits (n : nat) : string :=
  DecimalString.NilEmpty.string_of_uint (Nat.to_uint n).

(** [f"{n:03d}"] for a number that is not negative: its decimal digits,
    padded with zeros on the left to three characters. *)
Definition format_03d (n : nat) : string :=
  let s := digits n in
  ((match String.length s with
    | 1%nat => "00"
    | 2%nat => "0"
    | _ => ""
    end) ++ s)%string.

End PyFormat.

(** ** colorblind_simulation.py: ColorBlindnessSimulator.generate_gradients *)

Module ColorBlindGradients.

(** The files [simulated_image.save] wrote, oldest first, by path. *)
Definition saved := list (string * PIL.Image).

Section Simulator.
Variable undef : spec_float -> Z.
(** [str(Path(output_dir) / filename)]. *)
Variable path_join : string -> string -> string.

(** The [simulation_functions] table, by name; the methods are called
    with their default, the improved matrices. *)
Definition simulation_functions (colorblind_type : string)
  : option (PIL.Image -> spec_float -> result PIL.Image) :=
  if String.eqb colorblind_type "protanopia" then
    Some (fun image severity =>
            ColorBlind.simulate_protanopia undef image severity true)
  else if String.eqb colorblind_type "deuteranopia" then
    Some (fun image severity =>
            ColorBlind.simulate_deuteranopia undef image severity true)
  else if String.eqb colorblind_type "tritanopia" then
    Some (fun image severity =>
            ColorBlind.simulate_tritanopia undef image severity true)
  else None.

(** [step / num_steps], a true division of integers (below [2^53] it
    is the division of their binary64 values). *)
Definition severity (num_steps : Z) (step : nat) : result spec_float :=
  if num_steps =? 0 then Raise ZeroDivisionError
  else Ok (IEEE.div f64 (IEEE.of_Z f64 (Z.of_nat step))
             (IEEE.of_Z f64 num_steps)).

(** [f"{colorblind_type}_severity_{step:03d}.png"]. *)
Definition filename (colorblind_type : string) (step : nat) : string :=
  (colorblind_type ++ "_severity_" ++ PyFormat.format_03d step ++ ".png")%string.

(** The loop over [range(num_steps + 1)]: the files written and the
    list returned, or the exception that ended the loop. *)
Fixpoint gradient_steps
    (sim_func : PIL.Image -> spec_float -> result PIL.Image)
    (image : PIL.Image) (colorblind_type output_dir : string)
    (num_steps : Z) (steps : list nat) : saved * result (list string) :=
  match steps with
  | [] => ([], Ok [])
  | step :: rest =>
      match (do s <- severity num_steps step; sim_func image s) with
      | Raise e => ([], Raise e)
      | Ok simulated_image =>
          let filepath := path_join output_dir (filename colorblind_type step) in
          let '(files, r) :=
            gradient_steps sim_func image colorblind_type output_dir
              num_steps rest in
          ((filepath, simulated_image) :: files,
           do generated_files <- r; Ok (filepath :: generated_files))
      end
  end.

(** The message of the [ValueError] names the unsupported type. *)
Definition generate_gradients (image : PIL.Image) (colorblind_type : string)
    (num_steps : Z) (output_dir : string) : saved * result (list string) :=
  match simulation_functions colorblind_type with
  | None => ([], Raise (ValueError ("不支持的色盲类型: " ++ colorblind_type)))
  | Some sim_func =>
      gradient_steps sim_func image colorblind_type output_dir num_steps
        (seq 0 (Z.to_nat (num_steps + 1)))
  end.
End Simulator.
End ColorBlindGradients.

(** The number a zero-padded decimal string stands for. *)
Definition decode_03d (s : string) : option nat :=
  option_map Nat.of_uint (DecimalString.NilEmpty.uint_of_string s).

(** The three colour-blindness types [generate_gradients] supports. *)
Definition supported (colorblind_type : string) : Prop :=
  colorblind_type = "protanopia"%string \/
  colorblind_type = "deuteranopia"%string \/
  colorblind_type = "tritanopia"%string.

(** ** Valid results *)

(** A pixel of three 8-bit channels. *)
Definition pixel8 (p : Z * Z * Z) : Prop :=
  let '(a, b, c) := p in
  0 <= a <= 255 /\ 0 <= b <= 255 /\ 0 <= c <= 255.

(** What the library kernels give on an 8-bit image: 8-bit values.
    The kernels are PIL's Gaussian blur and nearest-neighbour
    resampling and OpenCV's resampling and HSV-to-BGR conversion. *)
Definition kernels_8bit
    (gaussian_blur_at : spec_float -> ndarray Z -> nat -> Z)
    (resize_at : VisualDegradation.interpolation -> ndarray Z ->
                 nat * nat -> nat -> Z)
    (hsv2bgr : Z * Z * Z -> Z * Z * Z)
    (nearest_at : PIL.Image -> nat * nat -> nat -> Z) : Prop :=
  (forall r a i, NDArray.is_uint8 a -> 0 <= gaussian_blur_at r a i <= 255) /\
  (forall m a sz i, NDArray.is_uint8 a -> 0 <= resize_at m a sz i <= 255) /\
  (forall p, pixel8 p -> pixel8 (hsv2bgr p)) /\
  (forall a sz i, NDArray.is_uint8 a -> 0 <= nearest_at a sz i <= 255).

(** The call raises nothing, and what it returns is an image all of
    whose channel values lie in 0..255. *)
Definition returns_valid (r : result (ndarray Z)) : Prop :=
  exists out, r = Ok out /\ NDArray.is_uint8 out.

(** * Properties *)

(** ** Rounding keeps bounded values finite

    The rounding of [SpecFloat] shifts a mantissa right one bit at a
    time; the lemmas below bound its result, so that sums and products
    of bounded floats are finite floats. *)

Section Rounding.
Variable prec emax : Z.
Hypothesis prec_pos : 0 < prec.

Lemma shr_1_m r : 0 <= shr_m r -> shr_m (shr_1 r) = shr_m r / 2.
Proof.
  destruct r as [m rb sb]; simpl; intros Hm.
  destruct m as [|p|p]; [reflexivity| |lia].
  destruct p as [p|p|]; simpl.
  - rewrite Pos2Z.inj_xI. apply Z.div_unique with 1; lia.
  - rewrite Pos2Z.inj_xO. apply Z.div_unique with 0; lia.
  - reflexivity.
Qed.

Lemma shr_iter_m p : forall r,
    0 <= shr_m r -> shr_m (iter_pos shr_1 p r) = shr_m r / 2 ^ Z.pos p.
Proof.
  induction p as [p IH|p IH|]; intros r Hr; simpl iter_pos.
  - assert (H1 : 0 <= shr_m (shr_1 r)) by (rewrite shr_1_m by lia; apply Z.div_pos; lia).
    assert (H2 : 0 <= shr_m (iter_pos shr_1 p (shr_1 r))) by (rewrite IH by lia; apply Z.div_pos; lia).
    rewrite IH by lia. rewrite IH by lia. rewrite shr_1_m by lia.
    rewrite !Z.div_div by lia. f_equal.
    replace (Z.pos p~1) with (1 + Z.pos p + Z.pos p) by lia.
    rewrite !Z.pow_add_r by lia. change (2 ^ 1) with 2. ring.
  - assert (H2 : 0 <= shr_m (iter_pos shr_1 p r)) by (rewrite IH by lia; apply Z.div_pos; lia).
    rewrite IH by lia. rewrite IH by lia.
    rewrite !Z.div_div by lia. f_equal.
    replace (Z.pos p~0) with (Z.pos p + Z.pos p) by lia.
    rewrite Z.pow_add_r by lia. ring.
  - rewrite shr_1_m by lia. reflexivity.
Qed.

Lemma digits2_log2 p : Z.pos (digits2_pos p) = Z.log2 (Z.pos p) + 1.
Proof.
  induction p as [p IH|p IH|]; simpl digits2_pos.
  - rewrite Pos2Z.inj_succ, IH.
    change (Z.pos p~1) with (2 * Z.pos p + 1). rewrite Z.log2_succ_double by lia. lia.
  - rewrite Pos2Z.inj_succ, IH.
    change (Z.pos p~0) with (2 * Z.pos p). rewrite Z.log2_double by lia. lia.
  - reflexivity.
Qed.

Lemma digits_le m k : 0 <= m -> 0 <= k -> m < 2 ^ k -> Zdigits2 m <= k.
Proof.
  intros Hm Hk Hlt. destruct m as [|p|p]; simpl; [lia| |lia].
  rewrite digits2_log2. apply Z.log2_lt_pow2 in Hlt; lia.
Qed.

Lemma shr_fexp_spec m e l :
  0 <= m ->
  0 <= shr_m (fst (shr_fexp prec emax m e l)) /\
  snd (shr_fexp prec emax m e l) = Z.max e (fexp prec emax (Zdigits2 m + e)) /\
  shr_m (fst (shr_fexp prec emax m e l)) =
    m / 2 ^ (snd (shr_fexp prec emax m e l) - e).
Proof.
  intros Hm. unfold shr_fexp, shr.
  assert (Hrec : shr_m (shr_record_of_loc m l) = m)
    by (destruct l as [|[ | | ]]; reflexivity).
  destruct (fexp prec emax (Zdigits2 m + e) - e) as [|p|p] eqn:En; simpl fst; simpl snd.
  - rewrite Hrec. replace (e - e) with 0 by lia. rewrite Z.div_1_r. repeat split; lia.
  - rewrite shr_iter_m by lia. rewrite Hrec.
    replace (e + Z.pos p - e) with (Z.pos p) by lia.
    repeat split; [apply Z.div_pos; lia | lia].
  - rewrite Hrec. replace (e - e) with 0 by lia. rewrite Z.div_1_r. repeat split; lia.
Qed.

Lemma rne_bounds m l : 0 <= m ->
  m <= round_nearest_even m l <= m + 1.
Proof.
  intros Hm. unfold round_nearest_even.
  destruct l as [|[ | | ]]; try destruct (Z.even m); lia.
Qed.

Lemma fexp_le x B : x <= B -> emin prec emax <= B -> fexp prec emax x <= B.
Proof. unfold fexp. lia. Qed.

Lemma div_pow_lt m e e1 B :
  0 <= m -> e <= e1 -> e1 <= B -> m < 2 ^ (B - e) ->
  m / 2 ^ (e1 - e) < 2 ^ (B - e1).
Proof.
  intros Hm He He1 Hlt.
  apply Z.div_lt_upper_bound; [lia|].
  rewrite <- Z.pow_add_r by lia.
  replace (e1 - e + (B - e1)) with (B - e) by lia. exact Hlt.
Qed.

Lemma small_round_aux B s m e l :
  0 <= m -> e <= B -> m < 2 ^ (B - e) ->
  emin prec emax <= B -> B + 1 <= emax - prec ->
  IEEE.smallb (B + 1) (binary_round_aux prec emax s m e l) = true.
Proof.
  intros Hm He Hlt Hemin Hemax. unfold binary_round_aux.
  destruct (shr_fexp_spec m e l Hm) as (H1 & H2 & H3).
  destruct (shr_fexp prec emax m e l) as [mrs' e'] eqn:E1.
  simpl fst in *; simpl snd in *.
  assert (Hd : Zdigits2 m + e <= B)
    by (pose proof (digits_le m (B - e) Hm ltac:(lia) Hlt); lia).
  assert (He' : e' <= B) by (pose proof (fexp_le _ _ Hd Hemin); lia).
  assert (Hee' : e <= e') by lia.
  assert (Hm1 : shr_m mrs' < 2 ^ (B - e'))
    by (rewrite H3; apply div_pow_lt; lia).
  set (m2 := round_nearest_even (shr_m mrs') (loc_of_shr_record mrs')).
  pose proof (rne_bounds (shr_m mrs') (loc_of_shr_record mrs') H1) as Hm2.
  fold m2 in Hm2.
  assert (Hm2lt : m2 < 2 ^ (B + 1 - e')).
  { replace (B + 1 - e') with (1 + (B - e')) by lia.
    rewrite Z.pow_add_r by lia. change (2 ^ 1) with 2. lia. }
  assert (Hm2pos : 0 <= m2) by lia.
  destruct (shr_fexp_spec m2 e' loc_Exact Hm2pos) as (K1 & K2 & K3).
  destruct (shr_fexp prec emax m2 e' loc_Exact) as [mrs'' e''] eqn:E2.
  simpl fst in *; simpl snd in *.
  assert (Hd2 : Zdigits2 m2 + e' <= B + 1)
    by (pose proof (digits_le m2 (B + 1 - e') Hm2pos ltac:(lia) Hm2lt); lia).
  assert (He'' : e'' <= B + 1)
    by (pose proof (fexp_le _ (B + 1) Hd2 ltac:(lia)); lia).
  assert (Hm3 : shr_m mrs'' < 2 ^ (B + 1 - e''))
    by (rewrite K3; apply div_pow_lt; lia).
  destruct (shr_m mrs'') as [|p|p] eqn:E3; [reflexivity| |lia].
  replace (e'' <=? emax - prec) with true by (symmetry; apply Z.leb_le; lia).
  simpl. apply andb_true_intro; split; [apply Z.leb_le; lia | apply Z.ltb_lt; lia].
Qed.

Lemma iter_xO_pow d : forall m, Z.pos (Pos.iter xO m d) = Z.pos m * 2 ^ Z.pos d.
Proof.
  induction d as [|d IH] using Pos.peano_ind; intros m.
  - simpl. lia.
  - rewrite Pos.iter_succ, Pos2Z.inj_xO, IH, Pos2Z.inj_succ, Z.pow_succ_r by lia. ring.
Qed.

Lemma small_mono B B' x : B <= B' -> IEEE.smallb B x = true -> IEEE.smallb B' x = true.
Proof.
  intros HB. destruct x as [ | | |s m e]; simpl; auto.
  intros H. apply andb_prop in H. destruct H as [H1 H2].
  apply Z.leb_le in H1. apply Z.ltb_lt in H2.
  apply andb_true_intro; split; [apply Z.leb_le; lia | apply Z.ltb_lt].
  eapply Z.lt_le_trans; [exact H2|]. apply Z.pow_le_mono_r; lia.
Qed.

Lemma small_binary_round B s m e :
  e <= B -> Z.pos m < 2 ^ (B - e) ->
  emin prec emax <= B -> B + 1 <= emax - prec ->
  IEEE.smallb (B + 1) (binary_round prec emax s m e) = true.
Proof.
  intros He Hlt Hemin Hemax. unfold binary_round, shl_align.
  destruct (fexp prec emax (Z.pos (digits2_pos m) + e) - e) as [|d|d] eqn:Ed;
    try (apply small_round_aux; lia).
  apply small_round_aux; try lia.
  rewrite iter_xO_pow.
  replace (B - fexp prec emax (Z.pos (digits2_pos m) + e)) with ((B - e) + Z.pos d) by lia.
  rewrite Z.pow_add_r by lia. apply Z.mul_lt_mono_pos_r; lia.
Qed.

Lemma small_normalize B n z :
  0 <= B -> Z.abs n < 2 ^ B ->
  emin prec emax <= B -> B + 1 <= emax - prec ->
  IEEE.smallb (B + 1) (binary_normalize prec emax n 0 z) = true.
Proof.
  intros HB Hn Hemin Hemax. unfold binary_normalize.
  destruct n as [|p|p]; [reflexivity| |];
    apply small_binary_round; rewrite ?Z.sub_0_r; lia.
Qed.

Lemma small_mul B1 B2 x y :
  IEEE.smallb B1 x = true -> IEEE.smallb B2 y = true ->
  emin prec emax <= B1 + B2 -> B1 + B2 + 1 <= emax - prec ->
  IEEE.smallb (B1 + B2 + 1) (SFmul prec emax x y) = true.
Proof.
  intros Hx Hy Hemin Hemax.
  destruct x as [sx| | |sx mx ex]; destruct y as [sy| | |sy my ey];
    try discriminate; try reflexivity.
  simpl in Hx, Hy. apply andb_prop in Hx, Hy.
  destruct Hx as [Hx1 Hx2], Hy as [Hy1 Hy2].
  apply Z.leb_le in Hx1, Hy1. apply Z.ltb_lt in Hx2, Hy2.
  unfold SFmul. apply small_round_aux; try lia.
  rewrite Pos2Z.inj_mul.
  replace (B1 + B2 - (ex + ey)) with ((B1 - ex) + (B2 - ey)) by lia.
  rewrite Z.pow_add_r by lia.
  apply Z.mul_lt_mono_nonneg; lia.
Qed.

Lemma shl_align_value mx ex ez :
  ez <= ex ->
  Z.pos (fst (shl_align mx ex ez)) = Z.pos mx * 2 ^ (ex - ez).
Proof.
  intros H. unfold shl_align.
  destruct (ez - ex) as [|d|d] eqn:Ed; simpl fst.
  - replace (ex - ez) with 0 by lia. simpl. lia.
  - lia.
  - rewrite iter_xO_pow. do 2 f_equal. lia.
Qed.

Lemma small_add B x y :
  IEEE.smallb B x = true -> IEEE.smallb B y = true ->
  emin prec emax <= B + 1 -> B + 2 <= emax - prec ->
  IEEE.smallb (B + 2) (SFadd prec emax x y) = true.
Proof.
  intros Hx Hy Hemin Hemax.
  destruct x as [sx| | |sx mx ex]; destruct y as [sy| | |sy my ey];
    try discriminate.
  - destruct sx, sy; reflexivity.
  - simpl SFadd. apply small_mono with B; [lia|exact Hy].
  - simpl SFadd. apply small_mono with B; [lia|exact Hx].
  - simpl in Hx, Hy. apply andb_prop in Hx, Hy.
    destruct Hx as [Hx1 Hx2], Hy as [Hy1 Hy2].
    apply Z.leb_le in Hx1, Hy1. apply Z.ltb_lt in Hx2, Hy2.
    unfold SFadd.
    set (ez := Z.min ex ey).
    rewrite !shl_align_value by (unfold ez; lia).
    assert (HX : Z.pos mx * 2 ^ (ex - ez) < 2 ^ (B - ez)).
    { replace (B - ez) with ((B - ex) + (ex - ez)) by lia.
      rewrite Z.pow_add_r by (unfold ez; lia).
      apply Z.mul_lt_mono_pos_r; [apply Z.pow_pos_nonneg; unfold ez; lia | lia]. }
    assert (HY : Z.pos my * 2 ^ (ey - ez) < 2 ^ (B - ez)).
    { replace (B - ez) with ((B - ey) + (ey - ez)) by lia.
      rewrite Z.pow_add_r by (unfold ez; lia).
      apply Z.mul_lt_mono_pos_r; [apply Z.pow_pos_nonneg; unfold ez; lia | lia]. }
    assert (HXp : 0 < Z.pos mx * 2 ^ (ex - ez))
      by (apply Z.mul_pos_pos; [lia | apply Z.pow_pos_nonneg; unfold ez; lia]).
    assert (HYp : 0 < Z.pos my * 2 ^ (ey - ez))
      by (apply Z.mul_pos_pos; [lia | apply Z.pow_pos_nonneg; unfold ez; lia]).
    assert (Hpow : 2 ^ (B + 1 - ez) = 2 * 2 ^ (B - ez)).
    { replace (B + 1 - ez) with (1 + (B - ez)) by lia.
      rewrite Z.pow_add_r by (unfold ez; lia). reflexivity. }
    set (M := cond_Zopp sx (Z.pos mx * 2 ^ (ex - ez)) +
              cond_Zopp sy (Z.pos my * 2 ^ (ey - ez))).
    assert (HM : Z.abs M < 2 ^ (B + 1 - ez))
      by (rewrite Hpow; unfold M, cond_Zopp; destruct sx, sy; lia).
    unfold binary_normalize.
    replace (B + 2) with (B + 1 + 1) by lia.
    destruct M as [|p|p]; [reflexivity| |];
      apply small_binary_round; unfold ez in *; lia.
Qed.
End Rounding.

Section RoundingPositive.
Variable prec emax : Z.
Hypothesis prec_pos : 0 < prec.

Lemma digits_lower m : 0 < m -> 2 ^ (Zdigits2 m - 1) <= m.
Proof.
  intros Hm. destruct m as [|p|p]; try lia. simpl Zdigits2.
  rewrite digits2_log2. replace (Z.log2 (Z.pos p) + 1 - 1) with (Z.log2 (Z.pos p)) by lia.
  apply Z.log2_spec. lia.
Qed.

Lemma digits_pos m : 0 < m -> 1 <= Zdigits2 m.
Proof.
  intros Hm. destruct m as [|p|p]; try lia. simpl Zdigits2.
  rewrite digits2_log2. pose proof (Z.log2_nonneg (Z.pos p)). lia.
Qed.

Lemma shr_fexp_pos m e l :
  0 < m -> emin prec emax <= Zdigits2 m + e - 1 ->
  0 < shr_m (fst (shr_fexp prec emax m e l)).
Proof.
  intros Hm He.
  destruct (shr_fexp_spec prec emax m e l ltac:(lia)) as (H1 & H2 & H3).
  rewrite H3, H2.
  pose proof (digits_lower m Hm) as Hlow.
  pose proof (digits_pos m Hm) as Hd.
  assert (Hk : Z.max e (fexp prec emax (Zdigits2 m + e)) - e <= Zdigits2 m - 1)
    by (unfold fexp; lia).
  apply Z.div_str_pos. split; [apply Z.pow_pos_nonneg; lia|].
  eapply Z.le_trans; [|exact Hlow].
  apply Z.pow_le_mono_r; lia.
Qed.

Lemma round_aux_signed s m e l :
  0 < m -> emin prec emax <= Zdigits2 m + e - 1 ->
  signed_nonzero s (binary_round_aux prec emax s m e l).
Proof.
  intros Hm He. unfold binary_round_aux.
  pose proof (shr_fexp_pos m e l Hm He) as H1.
  destruct (shr_fexp_spec prec emax m e l ltac:(lia)) as (_ & H2 & _).
  destruct (shr_fexp prec emax m e l) as [mrs' e'] eqn:E1.
  simpl fst in *; simpl snd in *.
  set (m2 := round_nearest_even (shr_m mrs') (loc_of_shr_record mrs')).
  pose proof (rne_bounds (shr_m mrs') (loc_of_shr_record mrs') ltac:(lia)) as Hm2.
  fold m2 in Hm2.
  assert (Hm2pos : 0 < m2) by lia.
  pose proof (digits_pos m2 Hm2pos) as Hd2.
  assert (He' : emin prec emax <= e') by (unfold fexp in H2; lia).
  pose proof (shr_fexp_pos m2 e' loc_Exact Hm2pos ltac:(lia)) as H3.
  destruct (shr_fexp prec emax m2 e' loc_Exact) as [mrs'' e''] eqn:E2.
  simpl fst in *.
  destruct (shr_m mrs'') as [|p|p]; try lia.
  destruct (e'' <=? emax - prec); reflexivity.
Qed.

Lemma normalize_pos_signed p z :
  emin prec emax <= 0 ->
  signed_nonzero false (binary_normalize prec emax (Z.pos p) 0 z).
Proof.
  intros Hemin. unfold binary_normalize, binary_round, shl_align.
  pose proof (digits_pos (Z.pos p) ltac:(lia)) as Hd. simpl Zdigits2 in Hd.
  destruct (fexp prec emax (Z.pos (digits2_pos p) + 0) - 0) as [|d|d] eqn:Ed;
    try (apply round_aux_signed; simpl Zdigits2; lia).
  apply round_aux_signed; [lia|].
  assert (Hdg : Zdigits2 (Z.pos (Pos.iter xO p d)) = Z.pos (digits2_pos p) + Z.pos d).
  { simpl Zdigits2. rewrite !digits2_log2, iter_xO_pow.
    rewrite Z.log2_mul_pow2 by lia. lia. }
  rewrite Hdg. lia.
Qed.
End RoundingPositive.

Lemma div_zero_by_positive n :
  0 < n -> IEEE.div f64 (IEEE.of_Z f64 0) (IEEE.of_Z f64 n) = S754_zero false.
Proof.
  intros Hn. destruct n as [|p|p]; try lia.
  pose proof (normalize_pos_signed 53 1024 ltac:(lia) p false ltac:(unfold emin; lia)) as H.
  unfold IEEE.div, IEEE.of_Z. cbn [IEEE.prec IEEE.emax IEEE.binary64].
  change (binary_normalize 53 1024 0 0 false) with (S754_zero false).
  destruct (binary_normalize 53 1024 (Z.pos p) 0 false) as [s|s| |s m e];
    simpl in H; try contradiction; subst; reflexivity.
Qed.

(** ** Checks over a range of integers *)

Lemma zrange_In a n z :
  Z.of_nat a <= z < Z.of_nat a + Z.of_nat n -> In z (zrange a n).
Proof.
  intros H. unfold zrange. apply in_map_iff. exists (Z.to_nat z).
  split; [lia|]. apply in_seq. lia.
Qed.

Lemma forallb_zrange (P : Z -> bool) a n z :
  forallb P (zrange a n) = true ->
  Z.of_nat a <= z < Z.of_nat a + Z.of_nat n -> P z = true.
Proof.
  intros H Hz. rewrite forallb_forall in H. apply H, zrange_In, Hz.
Qed.

(** ** visual_degradation.py: brightness *)

Lemma rendersb_true o q : Spec.rendersb o q = true -> Spec.renders o q.
Proof.
  unfold Spec.rendersb, Spec.renders. intros H.
  repeat (apply andb_prop in H; destruct H as [H ?]).
  repeat match goal with
         | K : (_ <=? _) = true |- _ => apply Z.leb_le in K
         | K : Qle_bool _ _ = true |- _ => apply Qle_bool_iff in K
         end.
  auto.
Qed.

Lemma to_uint8_defined undef x z : IEEE.to_uint8 x = Some z -> to_uint8 undef x = z.
Proof. unfold to_uint8. intros ->. reflexivity. Qed.

Lemma brightness_levels_ok : forallb brightness_level_ok (zrange 1 100) = true.
Proof. vm_compute. reflexivity. Qed.

Lemma Forall2_map_r {A B} (R : A -> B -> Prop) (f : A -> B) l :
  (forall x, In x l -> R x (f x)) -> Forall2 R l (List.map f l).
Proof.
  induction l as [|x l IH]; intros H; simpl; constructor.
  - apply H. left. reflexivity.
  - apply IH. intros y Hy. apply H. right. exact Hy.
Qed.

(** C5: for every image and every level from 1 to 100 the brightness
    factor follows the two-band formula, 1 - (level/50) * 0.8 up to
    level 50 (between 0.2 and 1) and 1 + ((level-50)/50) * 1.5 above
    (above 1, at most 2.5); the factor the code computes is that value
    up to 2^-50, and every output channel renders clamp(v * factor). *)
Theorem degrade_brightness_formula :
  forall (undef : spec_float -> Z) (image : ndarray Z) (level : Z),
    1 <= level <= 100 ->
    NDArray.is_uint8 image ->
    let factor := Spec.brightness_factor level in
    let out := VisualDegradation.degrade_brightness undef image level in
    (if level <=? 50
     then factor == 1 - (inject_Z level / 50) * (8 # 10) /\ 2 # 10 <= factor <= 1
     else factor == 1 + (inject_Z (level - 50) / 50) * (15 # 10) /\
          1 < factor <= 25 # 10)%Q /\
    (Qabs (IEEE.to_Q (VisualDegradation.brightness_factor level) - factor)
       <= 1 # 2 ^ 50)%Q /\
    NDArray.shape out = NDArray.shape image /\
    Forall2 (fun v o => Spec.renders o (Spec.clamp (inject_Z v * factor)))
      (NDArray.data image) (NDArray.data out).
Proof.
  intros undef image level Hl Himg factor out.
  pose proof (forallb_zrange _ 1 100 level brightness_levels_ok ltac:(lia)) as Hok.
  unfold brightness_level_ok in Hok.
  apply andb_prop in Hok. destruct Hok as [Hok Hpix].
  apply andb_prop in Hok. destruct Hok as [Hfac Hrange].
  apply Qle_bool_iff in Hfac.
  assert (Hout : out = astype_uint8 undef
            (NDArray.map (clip_0_255 f32)
               (NDArray.map
                  (fun v => IEEE.mul f32 (IEEE.of_Z f32 v)
                     (IEEE.round f32 (VisualDegradation.brightness_factor level)))
                  image))).
  { unfold out, VisualDegradation.degrade_brightness.
    destruct (level =? 0) eqn:E; [apply Z.eqb_eq in E; lia | reflexivity]. }
  split; [|split; [exact Hfac|split]].
  - unfold factor, Spec.brightness_factor in *.
    destruct (level <=? 50).
    + apply andb_prop in Hrange. destruct Hrange as [H1 H2].
      apply Qle_bool_iff in H1, H2. split; [reflexivity|split; assumption].
    + apply andb_prop in Hrange. destruct Hrange as [H1 H2].
      apply Qle_bool_iff in H2. split; [reflexivity|split; [|assumption]].
      apply Qnot_le_lt. intros K. apply Qle_bool_iff in K. rewrite K in H1. discriminate.
  - rewrite Hout. reflexivity.
  - rewrite Hout. unfold astype_uint8, NDArray.map. simpl NDArray.data.
    rewrite !map_map. apply Forall2_map_r. intros v Hv.
    unfold NDArray.is_uint8 in Himg. rewrite Forall_forall in Himg.
    specialize (Himg v Hv).
    pose proof (forallb_zrange _ 0 256 v Hpix ltac:(lia)) as Hv'.
    cbv beta in Hv'.
    destruct (IEEE.to_uint8 _) as [o|] eqn:Eo in Hv'; [|discriminate].
    rewrite (to_uint8_defined undef _ o Eo).
    apply rendersb_true. exact Hv'.
Qed.

Lemma degrade_brightness_formula_witness :
  let image := NDArray.mk [1%nat; 1%nat; 3%nat] [200; 100; 50] in
  Forall2
    (fun v o =>
       Spec.renders o (Spec.clamp (inject_Z v * Spec.brightness_factor 60)))
    (NDArray.data image)
    (NDArray.data (VisualDegradation.degrade_brightness (fun _ => 0) image 60)).
Proof.
  intros image.
  exact (proj2 (proj2 (proj2
    (degrade_brightness_formula (fun _ => 0) image 60 ltac:(lia)
       ltac:(unfold NDArray.is_uint8; simpl; repeat constructor; lia))))).
Defined.

(** ** visual_degradation.py: colour shift *)

Lemma mapi_from_ext {A B} (f g : nat -> A -> B) l : forall k,
  (forall i x, f i x = g i x) ->
  NDArray.mapi_from k f l = NDArray.mapi_from k g l.
Proof.
  induction l as [|x l IH]; intros k H; simpl; [reflexivity|].
  rewrite H, (IH (S k) H). reflexivity.
Qed.

Lemma mapi_from_compose {A B C} (f : nat -> A -> B) (g : nat -> B -> C) l :
  forall k,
  NDArray.mapi_from k g (NDArray.mapi_from k f l) =
  NDArray.mapi_from k (fun i x => g i (f i x)) l.
Proof.
  induction l as [|x l IH]; intros k; simpl; [reflexivity|].
  rewrite IH. reflexivity.
Qed.

Lemma nth_error_mapi_from {A B} (f : nat -> A -> B) l : forall k j,
  nth_error (NDArray.mapi_from k f l) j =
  option_map (f (k + j)%nat) (nth_error l j).
Proof.
  induction l as [|x l IH]; intros k j; destruct j as [|j]; simpl;
    try reflexivity.
  - rewrite Nat.add_0_r. reflexivity.
  - rewrite IH. replace (S k + j)%nat with (k + S j)%nat by lia. reflexivity.
Qed.

Lemma length_mapi_from {A B} (f : nat -> A -> B) l : forall k,
  List.length (NDArray.mapi_from k f l) = List.length l.
Proof.
  induction l as [|x l IH]; intros k; simpl; [reflexivity|].
  rewrite IH. reflexivity.
Qed.

Lemma color_shift_float_elt (a : ndarray spec_float) (level : Z) :
  VisualDegradation.color_shift_float 3 a level =
  NDArray.mapi (fun i x => color_shift_elt level (i mod 3) x) a.
Proof.
  unfold VisualDegradation.color_shift_float, color_shift_elt,
    VisualDegradation.scale_channel, NDArray.update_channel, NDArray.mapi.
  cbv zeta.
  repeat match goal with
         | |- context [if ?b =? ?k then _ else _] =>
             destruct (b =? k); cbv iota
         end;
    cbn [NDArray.shape NDArray.data];
    rewrite ?mapi_from_compose; f_equal; apply mapi_from_ext; intros i x;
    repeat match goal with
           | |- context [Nat.eqb ?u ?k] =>
               destruct (Nat.eqb_spec u k); cbv iota
           end; try reflexivity; exfalso; lia.
Qed.

Lemma color_shift_levels_ok :
  forallb color_shift_level_ok (zrange 1 100) = true.
Proof. vm_compute. reflexivity. Qed.

(** C8: for every three-channel image and every level from 1 to 100
    the colour shift takes the branch level mod 6 with
    shift_intensity = level / 100 (up to 2^-50 in the code) and every
    output channel renders clamp(v * multiplier), the multiplier being
    1 + s or 1 - 0.3 s on the two channels of the first three branches,
    1 - 0.5 s on the one channel of the last three, and 1 elsewhere. *)
Theorem degrade_color_shift_branches :
  forall (undef : spec_float -> Z) (image : ndarray Z) (level : Z) (h w : nat),
    1 <= level <= 100 ->
    NDArray.shape image = [h; w; 3%nat] ->
    NDArray.is_uint8 image ->
    (Qabs (IEEE.to_Q (VisualDegradation.shift_intensity level)
           - inject_Z level / 100) <= 1 # 2 ^ 50)%Q /\
    exists out,
      VisualDegradation.degrade_color_shift undef image level = Ok out /\
      NDArray.shape out = NDArray.shape image /\
      List.length (NDArray.data out) = List.length (NDArray.data image) /\
      forall i v,
        nth_error (NDArray.data image) i = Some v ->
        exists o,
          nth_error (NDArray.data out) i = Some o /\
          Spec.renders o
            (Spec.clamp
               (inject_Z v *
                Spec.color_shift_multiplier level (Spec.channel_of (i mod 3)))).
Proof.
  intros undef image level h w Hl Hshape Himg.
  pose proof (forallb_zrange _ 1 100 level color_shift_levels_ok ltac:(lia)) as Hok.
  unfold color_shift_level_ok in Hok.
  apply andb_prop in Hok. destruct Hok as [Hs Hpix].
  apply Qle_bool_iff in Hs. split; [exact Hs|].
  unfold VisualDegradation.degrade_color_shift.
  destruct (level =? 0) eqn:E; [apply Z.eqb_eq in E; lia|].
  unfold NDArray.channels. rewrite Hshape. simpl Nat.leb. cbv iota.
  eexists. split; [reflexivity|].
  rewrite color_shift_float_elt.
  unfold astype_uint8, NDArray.map, NDArray.mapi.
  cbn [NDArray.shape NDArray.data].
  split; [congruence|].
  split; [rewrite !length_map, length_mapi_from, length_map; reflexivity|].
  intros i v Hv.
  rewrite !nth_error_map, nth_error_mapi_from, nth_error_map, Hv.
  cbn [option_map]. rewrite Nat.add_0_l.
  eexists. split; [reflexivity|]. cbv beta.
  assert (Hc : In (i mod 3)%nat [0%nat; 1%nat; 2%nat]).
  { pose proof (Nat.mod_upper_bound i 3 ltac:(lia)) as Hm.
    destruct (i mod 3)%nat as [|[|[|c]]]; simpl; auto; lia. }
  rewrite forallb_forall in Hpix. specialize (Hpix _ Hc). cbv zeta in Hpix.
  unfold NDArray.is_uint8 in Himg. rewrite Forall_forall in Himg.
  specialize (Himg v (nth_error_In _ _ Hv)).
  pose proof (forallb_zrange _ 0 256 v Hpix ltac:(lia)) as Hv'.
  cbv beta in Hv'.
  destruct (IEEE.to_uint8 _) as [o|] eqn:Eo in Hv'; [|discriminate].
  rewrite (to_uint8_defined undef _ o Eo).
  apply rendersb_true. exact Hv'.
Qed.

Lemma degrade_color_shift_branches_witness :
  let image := NDArray.mk [1%nat; 1%nat; 3%nat] [10; 20; 30] in
  exists out,
    VisualDegradation.degrade_color_shift (fun _ => 0) image 7 = Ok out /\
    NDArray.shape out = NDArray.shape image /\
    List.length (NDArray.data out) = List.length (NDArray.data image) /\
    forall i v,
      nth_error (NDArray.data image) i = Some v ->
      exists o,
        nth_error (NDArray.data out) i = Some o /\
        Spec.renders o
          (Spec.clamp
             (inject_Z v *
              Spec.color_shift_multiplier 7 (Spec.channel_of (i mod 3)))).
Proof.
  intros image.
  exact (proj2
    (degrade_color_shift_branches (fun _ => 0) image 7 1%nat 1%nat ltac:(lia)
       ltac:(reflexivity)
       ltac:(unfold NDArray.is_uint8; simpl; repeat constructor; lia))).
Defined.

(** ** colorblind_simulation.py: grey pixels and the format check *)

Lemma gray_matrices_ok : forallb gray_matrix_ok all_matrices = true.
Proof. vm_compute. reflexivity. Qed.

Lemma matrix_of_In t improved :
  In (ColorBlind.matrix_of t improved) all_matrices.
Proof. destruct t, improved; simpl; auto 10. Qed.

Lemma transform_pixel_full undef (m : ColorBlind.matrix) (p : ColorBlind.row) :
  ColorBlind.transform_pixel undef m (IEEE.dec f64 10 1) p =
  let '(m0, m1, m2) := m in
  (ColorBlind.quantize undef (ColorBlind.dot p m0),
   ColorBlind.quantize undef (ColorBlind.dot p m1),
   ColorBlind.quantize undef (ColorBlind.dot p m2)).
Proof.
  destruct m as [[m0 m1] m2], p as [[p0 p1] p2].
  unfold ColorBlind.transform_pixel.
  change (IEEE.ltb (IEEE.dec f64 10 1) (IEEE.dec f64 10 1)) with false.
  reflexivity.
Qed.

Lemma gray_row undef r v :
  gray_row_ok r v = true ->
  let p := ColorBlind.normalize v in
  (Qabs (IEEE.to_Q (ColorBlind.dot (p, p, p) r) - IEEE.to_Q p)
     <= Spec.tolerance)%Q /\
  v - 1 <= ColorBlind.quantize undef (ColorBlind.dot (p, p, p) r) <= v.
Proof.
  unfold gray_row_ok. cbv zeta. intros H.
  apply andb_prop in H. destruct H as [H1 H2].
  apply Qle_bool_iff in H1. split; [exact H1|].
  unfold ColorBlind.quantize.
  destruct (IEEE.to_uint8 _) as [o|] eqn:Eo in H2; [|discriminate].
  rewrite (to_uint8_defined undef _ o Eo).
  apply andb_prop in H2. destruct H2 as [H2 H3].
  apply Z.leb_le in H2, H3. lia.
Qed.

(** C6: grey pixels are fixed points of every dichromacy matrix, within
    numeric tolerance. *)
Theorem gray_pixel_fixed_point :
  forall (undef : spec_float -> Z) (t : ColorBlind.colorblind_type)
         (improved : bool) (v : Z),
    0 <= v <= 255 ->
    let m := ColorBlind.matrix_of t improved in
    let p := ColorBlind.normalize v in
    Forall (fun r => (Qabs (Spec.row_sum r - 1) <= Spec.tolerance)%Q) (rows m) /\
    Forall (fun r => (Qabs (IEEE.to_Q (ColorBlind.dot (p, p, p) r) - IEEE.to_Q p)
                        <= Spec.tolerance)%Q) (rows m) /\
    exists o0 o1 o2,
      ColorBlind.apply_colorblindness_matrix undef
        (NDArray.mk [1%nat; 1%nat; 3%nat] [v; v; v]) m (IEEE.dec f64 10 1) =
      Ok (NDArray.mk [1%nat; 1%nat; 3%nat] [o0; o1; o2]) /\
      v - 1 <= o0 <= v /\ v - 1 <= o1 <= v /\ v - 1 <= o2 <= v.
Proof.
  intros undef t improved v Hv m p.
  pose proof gray_matrices_ok as Hall. rewrite forallb_forall in Hall.
  specialize (Hall m (matrix_of_In t improved)).
  unfold gray_matrix_ok in Hall. rewrite forallb_forall in Hall.
  assert (Hrow : forall r, In r (rows m) ->
            (Qabs (Spec.row_sum r - 1) <= Spec.tolerance)%Q /\
            gray_row_ok r v = true).
  { intros r Hr. specialize (Hall r Hr).
    apply andb_prop in Hall. destruct Hall as [H1 H2].
    apply Qle_bool_iff in H1. split; [exact H1|].
    apply (forallb_zrange _ 0 256 v H2). lia. }
  split; [|split].
  - apply Forall_forall. intros r Hr. apply (Hrow r Hr).
  - apply Forall_forall. intros r Hr.
    apply (gray_row undef r v (proj2 (Hrow r Hr))).
  - unfold ColorBlind.apply_colorblindness_matrix.
    cbn [NDArray.shape NDArray.data ColorBlind.transform_pixels].
    fold p. rewrite transform_pixel_full.
    destruct m as [[m0 m1] m2] eqn:Em.
    do 3 eexists. split; [reflexivity|].
    repeat split;
      match goal with
      | |- context [ColorBlind.dot _ ?r] =>
          apply (gray_row undef r v); apply Hrow; simpl; auto
      end.
Qed.

Lemma gray_pixel_fixed_point_witness :
  exists o0 o1 o2,
    ColorBlind.apply_colorblindness_matrix (fun _ => 0)
      (NDArray.mk [1%nat; 1%nat; 3%nat] [128; 128; 128])
      ColorBlind.improved_deuteranopia (IEEE.dec f64 10 1) =
    Ok (NDArray.mk [1%nat; 1%nat; 3%nat] [o0; o1; o2]) /\
    128 - 1 <= o0 <= 128 /\ 128 - 1 <= o1 <= 128 /\ 128 - 1 <= o2 <= 128.
Proof.
  exact (proj2 (proj2
    (gray_pixel_fixed_point (fun _ => 0) ColorBlind.deuteranopia true 128
       ltac:(lia)))).
Defined.

Lemma three_channel_dec (s : list nat) : {three_channel s} + {~ three_channel s}.
Proof.
  destruct s as [|h [|w [|c [|x s]]]];
    try (right; intros (h' & w' & H); discriminate).
  destruct (Nat.eq_dec c 3) as [->|Hc].
  - left. exists h, w. reflexivity.
  - right. intros (h' & w' & H). inversion H. contradiction.
Qed.

Lemma apply_colorblindness_matrix_non_rgb undef image m severity :
  ~ three_channel (NDArray.shape image) ->
  ColorBlind.apply_colorblindness_matrix undef image m severity =
  Raise (ValueError "图像必须是RGB格式").
Proof.
  destruct image as [s d]. unfold ColorBlind.apply_colorblindness_matrix.
  cbn [NDArray.shape NDArray.data]. intros Hn.
  destruct s as [|h [|w [|c [|x s]]]]; try reflexivity;
    destruct c as [|[|[|[|c]]]]; try reflexivity.
  exfalso. apply Hn. exists h, w. reflexivity.
Qed.

Lemma apply_colorblindness_matrix_rgb undef image m severity :
  three_channel (NDArray.shape image) ->
  ColorBlind.apply_colorblindness_matrix undef image m severity =
  Ok (NDArray.mk (NDArray.shape image)
        (ColorBlind.transform_pixels undef m severity (NDArray.data image))).
Proof.
  intros (h & w & Hs). unfold ColorBlind.apply_colorblindness_matrix.
  rewrite Hs. reflexivity.
Qed.

(** C9: the colour-space transform raises its invalid-format error
    exactly on the inputs that are not three-channel arrays, whatever
    the matrix and the severity; on a three-channel input it returns an
    image of the input's shape.  The call evaluates to the error at
    once: nothing is retried. *)
Theorem apply_colorblindness_matrix_rejects_non_rgb :
  forall (undef : spec_float -> Z) (image : PIL.Image)
         (m : ColorBlind.matrix) (severity : spec_float),
    (~ three_channel (NDArray.shape image) <->
     ColorBlind.apply_colorblindness_matrix undef image m severity =
     Raise (ValueError "图像必须是RGB格式")) /\
    (three_channel (NDArray.shape image) <->
     exists out,
       ColorBlind.apply_colorblindness_matrix undef image m severity = Ok out /\
       NDArray.shape out = NDArray.shape image).
Proof.
  intros undef image m severity.
  destruct (three_channel_dec (NDArray.shape image)) as [Hs|Hn].
  - rewrite (apply_colorblindness_matrix_rgb undef image m severity Hs).
    split; split.
    + intros Hn. contradiction.
    + discriminate.
    + intros _. eexists. split; reflexivity.
    + intros _. exact Hs.
  - rewrite (apply_colorblindness_matrix_non_rgb undef image m severity Hn).
    split; split.
    + reflexivity.
    + intros _. exact Hn.
    + intros H. contradiction.
    + intros (out & H & _). discriminate.
Qed.

(** ** complete_50_illusions_final.py: the endpoints of a gradient *)

Section IllusionFacts.
Variable np_exp np_log np_sin : spec_float -> spec_float.
Variable beta_draws : nat -> spec_float.
Variable gradient_count : Z.

Let gen_params := Illusions.gen_params np_exp np_log np_sin beta_draws gradient_count.
Let gen_from := Illusions.gen_from np_exp np_log np_sin beta_draws gradient_count.

Lemma gen_params_first ranges drawn :
  gen_params 0 ranges drawn = (Illusions.mins ranges, drawn).
Proof.
  revert drawn.
  induction ranges as [|[k [lo hi]] rest IH]; intros drawn; [reflexivity|].
  unfold gen_params in *. cbn [Illusions.gen_params].
  change (Illusions.param_value np_exp np_log np_sin beta_draws
            gradient_count 0 lo hi drawn) with (lo, drawn).
  cbv iota beta. rewrite IH. reflexivity.
Qed.

Lemma gen_params_last ranges drawn :
  gradient_count - 1 <> 0 ->
  gen_params (gradient_count - 1) ranges drawn = (Illusions.maxs ranges, drawn).
Proof.
  intros H. revert drawn.
  induction ranges as [|[k [lo hi]] rest IH]; intros drawn; [reflexivity|].
  unfold gen_params in *. cbn [Illusions.gen_params].
  assert (Hv : Illusions.param_value np_exp np_log np_sin beta_draws
                 gradient_count (gradient_count - 1) lo hi drawn = (hi, drawn)).
  { unfold Illusions.param_value.
    destruct (gradient_count - 1 =? 0) eqn:E; [apply Z.eqb_eq in E; lia|].
    rewrite Z.eqb_refl. reflexivity. }
  rewrite Hv. cbv iota beta. rewrite IH. reflexivity.
Qed.

Lemma nth_error_gen_from n : forall i ranges drawn k,
  (k < n)%nat ->
  exists d,
    nth_error (gen_from n i ranges drawn) k =
    Some (fst (gen_params (i + Z.of_nat k) ranges d)).
Proof.
  induction n as [|n IH]; intros i ranges drawn k Hk; [lia|].
  unfold gen_from in *. simpl.
  destruct (Illusions.gen_params np_exp np_log np_sin beta_draws
              gradient_count i ranges drawn) as [ps d] eqn:E.
  destruct k as [|k].
  - exists drawn. simpl. unfold gen_params. rewrite Z.add_0_r, E. reflexivity.
  - simpl. destruct (IH (i + 1) ranges d k ltac:(lia)) as [d' Hd'].
    exists d'. rewrite Hd'. do 3 f_equal. lia.
Qed.

Lemma length_gen_from n : forall i ranges drawn,
  List.length (gen_from n i ranges drawn) = n.
Proof.
  induction n as [|n IH]; intros i ranges drawn; [reflexivity|].
  unfold gen_from in *. simpl.
  destruct (Illusions.gen_params _ _ _ _ _ _ _ _) as [ps d].
  simpl. rewrite IH. reflexivity.
Qed.
End IllusionFacts.

(** C7 (amended): with at least two steps the gradient sequencer gives
    every parameter exactly its minimum at index 0 and exactly its
    maximum at index total_steps - 1, whatever the curves and the random
    draws are; nothing is interpolated at those two indices. *)
Theorem gradient_endpoints_exact :
  forall (np_exp np_log np_sin : spec_float -> spec_float)
         (beta_draws : nat -> spec_float) (gradient_count : Z)
         (ranges : Illusions.param_ranges),
    2 <= gradient_count ->
    let variations :=
      Illusions.generate_gradient_variations np_exp np_log np_sin beta_draws
        gradient_count ranges in
    List.length variations = Z.to_nat gradient_count /\
    nth_error variations 0 = Some (Illusions.mins ranges) /\
    nth_error variations (Z.to_nat (gradient_count - 1)) =
      Some (Illusions.maxs ranges).
Proof.
  intros np_exp np_log np_sin beta_draws gradient_count ranges Hc variations.
  unfold variations, Illusions.generate_gradient_variations.
  split; [apply length_gen_from|split].
  - destruct (nth_error_gen_from np_exp np_log np_sin beta_draws gradient_count
                (Z.to_nat gradient_count) 0 ranges 0%nat 0%nat ltac:(lia))
      as [d Hd].
    rewrite Hd. simpl. rewrite gen_params_first. reflexivity.
  - destruct (nth_error_gen_from np_exp np_log np_sin beta_draws gradient_count
                (Z.to_nat gradient_count) 0 ranges 0%nat
                (Z.to_nat (gradient_count - 1)) ltac:(lia))
      as [d Hd].
    rewrite Hd.
    replace (0 + Z.of_nat (Z.to_nat (gradient_count - 1)))
      with (gradient_count - 1) by lia.
    rewrite gen_params_last by lia. reflexivity.
Qed.

Lemma gradient_endpoints_exact_witness :
  nth_error
    (Illusions.generate_gradient_variations (fun x => x) (fun x => x)
       (fun x => x) (fun _ => S754_zero false) 100
       [("intensity"%string, (PyFloat (IEEE.dec f64 5 1), PyFloat (IEEE.dec f64 20 1)));
        ("checker_size"%string, (PyInt 20, PyInt 50))])
    (Z.to_nat (100 - 1)) =
  Some [("intensity"%string, PyFloat (IEEE.dec f64 20 1));
        ("checker_size"%string, PyInt 50)].
Proof.
  exact (proj2 (proj2
    (gradient_endpoints_exact (fun x => x) (fun x => x) (fun x => x)
       (fun _ => S754_zero false) 100
       [("intensity"%string, (PyFloat (IEEE.dec f64 5 1), PyFloat (IEEE.dec f64 20 1)));
        ("checker_size"%string, (PyInt 20, PyInt 50))]
       ltac:(lia)))).
Defined.

(** C7, as stated, fails for a single step: index 0 is also index
    total_steps - 1 and receives the minimum, not the maximum. *)
Lemma gradient_single_step_counterexample :
  let ranges := [("checker_size"%string, (PyInt 20, PyInt 50))] in
  let variations :=
    Illusions.generate_gradient_variations (fun x => x) (fun x => x)
      (fun x => x) (fun _ => S754_zero false) 1 ranges in
  nth_error variations (Z.to_nat (1 - 1)) = Some (Illusions.mins ranges) /\
  nth_error variations (Z.to_nat (1 - 1)) <> Some (Illusions.maxs ranges).
Proof.
  split; [reflexivity|discriminate].
Qed.

(** ** Failure thresholds *)

Lemma find_failure_threshold_first l1 p l2 :
  Forall (fun q => ~ failed q) l1 -> failed p ->
  ColorEval.find_failure_threshold (l1 ++ p :: l2) = ColorEval.severity p.
Proof.
  unfold ColorEval.find_failure_threshold, failed. intros Hl Hp.
  induction Hl as [|q l1 Hq Hl IH]; simpl.
  - rewrite Hp. reflexivity.
  - destruct (ColorEval.success q) as [[|]|]; simpl; auto. contradiction Hq. reflexivity.
Qed.

Lemma find_failure_threshold_none l :
  Forall (fun q => ~ failed q) l ->
  ColorEval.find_failure_threshold l = IEEE.dec f64 10 1.
Proof.
  unfold ColorEval.find_failure_threshold, failed. intros Hl.
  induction Hl as [|q l Hq Hl IH]; simpl; [reflexivity|].
  destruct (ColorEval.success q) as [[|]|]; simpl; auto. contradiction Hq. reflexivity.
Qed.

Section ColorEvalFacts.
Variable is_prediction_correct : string -> string -> bool.
Variable model_predict_func : string -> ColorEval.call.
Variable expected_answer : string.
Variable confidence_threshold : spec_float.

Let steps := ColorEval.evaluate_steps is_prediction_correct model_predict_func.

Lemma evaluate_steps_always n ok1 ok2 files : forall step,
  always is_prediction_correct model_predict_func expected_answer
    confidence_threshold ok1 ok2 ->
  (2 <= n)%nat ->
  steps n expected_answer confidence_threshold step files =
  Ok (List.map
        (fun k => ColorEval.mk_pred k
           (IEEE.div f64 (IEEE.of_Z f64 (Z.of_nat k))
              (IEEE.of_Z f64 (Z.of_nat (n - 1))))
           (Some (ok1 && ok2)))
        (seq step (List.length files))).
Proof.
  intros step Hal Hn. revert step.
  induction files as [|f files IH]; intros step; [reflexivity|].
  unfold steps in *. cbn [ColorEval.evaluate_steps].
  unfold ColorEval.evaluate_step at 1.
  destruct (Nat.eqb_spec (n - 1) 0) as [E|E]; [lia|].
  destruct (Hal f) as (prediction & confidence & Hc & H1 & H2).
  rewrite Hc, H1, H2. cbn [bind]. rewrite IH. reflexivity.
Qed.
End ColorEvalFacts.

Lemma scan_all_success l : forall c,
  Forall (fun r => BoundaryEval.success r = true) l ->
  BoundaryEval.scan c l = None.
Proof.
  induction l as [|r l IH]; intros c H; [reflexivity|].
  inversion H as [|? ? Hr Hl]; subst. simpl. rewrite Hr. apply IH, Hl.
Qed.

Lemma insert_by_level_Forall (P : BoundaryEval.TestResult -> Prop) r l :
  P r -> Forall P l -> Forall P (BoundaryEval.insert_by_level r l).
Proof.
  intros Hr Hl. induction Hl as [|x l Hx Hl IH]; simpl.
  - constructor; [exact Hr|constructor].
  - destruct (BoundaryEval.level x <=? BoundaryEval.level r);
      repeat constructor; auto.
Qed.

Lemma sorted_by_level_Forall (P : BoundaryEval.TestResult -> Prop) l :
  Forall P l -> Forall P (BoundaryEval.sorted_by_level l).
Proof.
  unfold BoundaryEval.sorted_by_level.
  assert (H : forall acc, Forall P acc -> Forall P l ->
            Forall P (fold_left
                        (fun acc r => BoundaryEval.insert_by_level r acc) l acc)).
  { induction l as [|x l IH]; intros acc Hacc Hl; simpl; [exact Hacc|].
    inversion Hl; subst. apply IH; [apply insert_by_level_Forall|]; assumption. }
  intros Hl. apply H; [constructor|exact Hl].
Qed.

(** C2 (amended): in the colour-blindness evaluator the failure
    threshold is the severity of the first prediction whose success flag
    is false and 1.0, the largest severity, when there is none, never
    null; over at least two gradient files a comparator that is always
    correct and confident gives 1.0 and one that never is gives 0.  The
    visual-boundary evaluator reports no threshold (null) when every
    test succeeds. *)
Theorem failure_threshold_first_failure :
  forall (is_prediction_correct : string -> string -> bool)
         (good bad : string -> ColorEval.call)
         (expected_answer : string) (confidence_threshold : spec_float)
         (gradient_files : list string)
         (l1 l2 : list ColorEval.pred) (p : ColorEval.pred)
         (results : list BoundaryEval.TestResult),
    (2 <= List.length gradient_files)%nat ->
    always is_prediction_correct good expected_answer confidence_threshold
      true true ->
    always is_prediction_correct bad expected_answer confidence_threshold
      false false ->
    Forall (fun q => ~ failed q) l1 ->
    failed p ->
    Forall (fun r => BoundaryEval.success r = true) results ->
    ColorEval.find_failure_threshold (l1 ++ p :: l2) = ColorEval.severity p /\
    ColorEval.find_failure_threshold l1 = IEEE.dec f64 10 1 /\
    (exists r,
       ColorEval.evaluate_colorblind_sequence is_prediction_correct good
         gradient_files expected_answer confidence_threshold = Ok r /\
       ColorEval.failure_threshold r = IEEE.dec f64 10 1) /\
    (exists r,
       ColorEval.evaluate_colorblind_sequence is_prediction_correct bad
         gradient_files expected_answer confidence_threshold = Ok r /\
       ColorEval.failure_threshold r = IEEE.of_Z f64 0) /\
    BoundaryEval.failure_threshold
      (BoundaryEval.find_failure_threshold results) = None.
Proof.
  intros ipc good bad expected thr files l1 l2 p results Hn Hgood Hbad Hl1 Hp Hres.
  split; [apply find_failure_threshold_first; assumption|].
  split; [apply find_failure_threshold_none; assumption|].
  split; [|split].
  - unfold ColorEval.evaluate_colorblind_sequence.
    rewrite (evaluate_steps_always ipc good expected thr _ true true files 0%nat Hgood Hn).
    cbn [bind]. eexists. split; [reflexivity|].
    cbn [ColorEval.failure_threshold].
    apply find_failure_threshold_none.
    apply Forall_forall. intros q Hq. apply in_map_iff in Hq.
    destruct Hq as (k & <- & _). unfold failed. simpl. discriminate.
  - unfold ColorEval.evaluate_colorblind_sequence.
    rewrite (evaluate_steps_always ipc bad expected thr _ false false files 0%nat Hbad Hn).
    cbn [bind]. eexists. split; [reflexivity|].
    cbn [ColorEval.failure_threshold].
    destruct files as [|f files]; [simpl in Hn; lia|].
    cbn [List.length seq List.map].
    unfold ColorEval.find_failure_threshold. cbn [find ColorEval.success andb negb].
    cbn [ColorEval.severity].
    change (IEEE.of_Z f64 0) with (S754_zero false).
    apply (div_zero_by_positive (Z.of_nat (List.length (f :: files) - 1))).
    simpl in Hn. simpl List.length. lia.
  - unfold BoundaryEval.find_failure_threshold.
    cbn [BoundaryEval.failure_threshold].
    apply scan_all_success, sorted_by_level_Forall, Hres.
Qed.

Lemma failure_threshold_first_failure_witness :
  let good := fun _ : string => ColorEval.Returned "7" (IEEE.dec f64 9 1) in
  let bad := fun _ : string => ColorEval.Returned "3" (IEEE.dec f64 1 1) in
  (exists r,
     ColorEval.evaluate_colorblind_sequence String.eqb good
       ["s000.png"; "s050.png"; "s100.png"]%string "7" (IEEE.dec f64 5 1) = Ok r /\
     ColorEval.failure_threshold r = IEEE.dec f64 10 1) /\
  (exists r,
     ColorEval.evaluate_colorblind_sequence String.eqb bad
       ["s000.png"; "s050.png"; "s100.png"]%string "7" (IEEE.dec f64 5 1) = Ok r /\
     ColorEval.failure_threshold r = IEEE.of_Z f64 0).
Proof.
  intros good bad.
  pose proof
    (failure_threshold_first_failure String.eqb good bad "7" (IEEE.dec f64 5 1)
       ["s000.png"; "s050.png"; "s100.png"]%string
       [ColorEval.mk_pred 0 (IEEE.of_Z f64 0) (Some true)] []
       (ColorEval.mk_pred 1 (IEEE.dec f64 5 1) (Some false))
       [BoundaryEval.mk_result 0 true (IEEE.dec f64 9 1)]
       ltac:(simpl; lia)
       ltac:(intros path; exists "7"%string, (IEEE.dec f64 9 1);
             repeat split; reflexivity)
       ltac:(intros path; exists "3"%string, (IEEE.dec f64 1 1);
             repeat split; reflexivity)
       ltac:(repeat constructor; discriminate)
       ltac:(reflexivity)
       ltac:(repeat constructor)) as H.
  exact (conj (proj1 (proj2 (proj2 H))) (proj1 (proj2 (proj2 (proj2 H))))).
Defined.

(** C2, as stated, fails on the visual-boundary evaluator: over the
    default levels 0, 10, ..., 100 a model that always succeeds gets no
    threshold at all instead of the maximum level, and a model that
    always fails gets 18, two below the level of its third failure,
    instead of 0. *)
Lemma boundary_threshold_counterexample :
  let run ok :=
    BoundaryEval.failure_threshold
      (BoundaryEval.find_failure_threshold
         (BoundaryEval.test_single_image (fun _ => true)
            (fun _ => (ok, IEEE.dec f64 9 1))
            BoundaryEval.default_test_levels)) in
  run true = None /\ run true <> Some 100 /\
  run false = Some 18 /\ run false <> Some 0.
Proof.
  vm_compute. repeat split; discriminate.
Qed.

(** ** Gaussian noise at level 0 *)

Lemma plus_zero_all : forallb plus_zero_ok (zrange 0 256) = true.
Proof. vm_compute. reflexivity. Qed.

Lemma plus_zero undef v s :
  0 <= v <= 255 ->
  to_uint8 undef
    (clip_0_255 f64 (IEEE.add f64 (IEEE.of_Z f64 v) (S754_zero s))) = v.
Proof.
  intros Hv.
  pose proof (forallb_zrange _ 0 256 v plus_zero_all ltac:(lia)) as H.
  unfold plus_zero_ok in H. rewrite forallb_forall in H.
  assert (Hs : In s [false; true]) by (destruct s; simpl; auto).
  specialize (H s Hs). cbv beta in H.
  destruct (IEEE.to_uint8 _) as [o|] eqn:Eo in H; [|discriminate].
  rewrite (to_uint8_defined undef _ o Eo). apply Z.eqb_eq. exact H.
Qed.

Lemma mul_zero_l s z :
  IEEE.is_finite z = true ->
  exists s', IEEE.mul f64 (S754_zero s) z = S754_zero s'.
Proof. destruct z; try discriminate; intros _; eexists; reflexivity. Qed.

Lemma mul_zero_r s z :
  IEEE.is_finite z = true ->
  exists s', IEEE.mul f64 z (S754_zero s) = S754_zero s'.
Proof. destruct z; try discriminate; intros _; eexists; reflexivity. Qed.

Lemma gaussian_zero_elt z :
  IEEE.is_finite z = true ->
  IEEE.add f64 (IEEE.of_Z f64 0) (IEEE.mul f64 (S754_zero false) z) =
  S754_zero false.
Proof.
  intros Hz. destruct (mul_zero_l false z Hz) as [s ->]. destruct s; reflexivity.
Qed.

Lemma zip_with_const {A B} (f : A -> B -> A) (c : B) (l : list A) :
  forall (l2 : list nat),
    List.length l2 = List.length l ->
    (forall v, In v l -> f v c = v) ->
    NDArray.zip_with f l (List.map (fun _ => c) l2) = l.
Proof.
  induction l as [|x l IH]; intros l2 Hlen Hf; destruct l2 as [|y l2];
    try discriminate; [reflexivity|].
  simpl. rewrite Hf by (left; reflexivity).
  rewrite IH; [reflexivity|simpl in Hlen; lia|].
  intros v Hv. apply Hf. right. exact Hv.
Qed.

Lemma add_zero_noise undef image :
  NDArray.wf image -> NDArray.is_uint8 image ->
  NoiseGradient.add_noise undef image (zero_noise (NDArray.shape image)) = image.
Proof.
  intros Hwf Himg. destruct image as [s d].
  unfold NoiseGradient.add_noise, zero_noise, NDArray.tabulate.
  unfold NDArray.wf, NDArray.is_uint8 in *. cbn [NDArray.shape NDArray.data] in *.
  f_equal. apply zip_with_const.
  - rewrite length_seq. symmetry. exact Hwf.
  - intros v Hv. rewrite Forall_forall in Himg.
    apply plus_zero. apply Himg, Hv.
Qed.

Lemma gaussian_noise_zero rng image :
  (forall i, IEEE.is_finite (NPRandom.gauss rng i) = true) ->
  NoiseGradient.gaussian_noise rng (S754_zero false) image =
  Ok (zero_noise (NDArray.shape image)).
Proof.
  intros Hg. unfold NoiseGradient.gaussian_noise, NPRandom.normal.
  change (IEEE.ltb (S754_zero false) (IEEE.of_Z f64 0)) with false.
  cbv iota. f_equal. unfold zero_noise, NDArray.tabulate. f_equal.
  apply map_ext. intros i. apply gaussian_zero_elt, Hg.
Qed.

(** C4: Gaussian noise at level 0 has standard deviation exactly 0, adds
    a noise array that is exactly zero, and returns the image
    unchanged. *)
Theorem gaussian_noise_level_zero_identity :
  forall (undef : spec_float -> Z) (rng : NPRandom.source) (image : PIL.Image),
    (forall i, IEEE.is_finite (NPRandom.gauss rng i) = true) ->
    NDArray.wf image ->
    NDArray.is_uint8 image ->
    IEEE.mul f64 (FastNoise.intensity 0) (IEEE.of_Z f64 25) = S754_zero false /\
    IEEE.mul f64 (NoiseGradient.gradient_intensity 0) (IEEE.of_Z f64 50) =
      S754_zero false /\
    NoiseGradient.gaussian_noise rng (S754_zero false) image =
      Ok (zero_noise (NDArray.shape image)) /\
    FastNoise.apply_noise_gradient undef rng image 0 = Ok image /\
    NoiseGradient.apply_gaussian_noise undef rng image
      (NoiseGradient.gradient_intensity 0) = Ok image.
Proof.
  intros undef rng image Hg Hwf Himg.
  split; [reflexivity|]. split; [reflexivity|].
  split; [apply gaussian_noise_zero, Hg|]. split.
  - unfold FastNoise.apply_noise_gradient.
    change (IEEE.mul f64 (FastNoise.intensity 0) (IEEE.of_Z f64 25))
      with (S754_zero false).
    rewrite (gaussian_noise_zero rng image Hg). cbn [bind].
    rewrite add_zero_noise by assumption. reflexivity.
  - unfold NoiseGradient.apply_gaussian_noise.
    change (IEEE.mul f64 (NoiseGradient.gradient_intensity 0)
              (NoiseGradient.flt 50)) with (S754_zero false).
    rewrite (gaussian_noise_zero rng image Hg). cbn [bind].
    rewrite add_zero_noise by assumption. reflexivity.
Qed.

Lemma gaussian_noise_level_zero_identity_witness :
  let rng :=
    NPRandom.mk
      (fun i => if Nat.even i then IEEE.dec f64 13 1 else IEEE.dec f64 (-7) 1)
      (fun _ => S754_zero false) (fun _ _ => 0) in
  let image := NDArray.mk [1%nat; 2%nat; 3%nat] [0; 17; 255; 128; 64; 1] in
  FastNoise.apply_noise_gradient (fun _ => 0) rng image 0 = Ok image /\
  NoiseGradient.apply_gaussian_noise (fun _ => 0) rng image
    (NoiseGradient.gradient_intensity 0) = Ok image.
Proof.
  intros rng image.
  exact (proj2 (proj2 (proj2
    (gaussian_noise_level_zero_identity (fun _ => 0) rng image
       ltac:(intros i; unfold rng; cbn [NPRandom.gauss];
             destruct (Nat.even i); reflexivity)
       ltac:(reflexivity)
       ltac:(unfold NDArray.is_uint8; simpl; repeat constructor; lia))))).
Defined.

Lemma gaussian_level_zero undef rng image :
  (forall i, IEEE.is_finite (NPRandom.gauss rng i) = true) ->
  NDArray.wf image ->
  NDArray.is_uint8 image ->
  FastNoise.apply_noise_gradient undef rng image 0 = Ok image /\
  NoiseGradient.apply_gaussian_noise undef rng image
    (NoiseGradient.gradient_intensity 0) = Ok image.
Proof.
  intros Hg Hwf Himg. split.
  - unfold FastNoise.apply_noise_gradient.
    change (IEEE.mul f64 (FastNoise.intensity 0) (IEEE.of_Z f64 25))
      with (S754_zero false).
    rewrite (gaussian_noise_zero rng image Hg). cbn [bind].
    rewrite add_zero_noise by assumption. reflexivity.
  - unfold NoiseGradient.apply_gaussian_noise.
    change (IEEE.mul f64 (NoiseGradient.gradient_intensity 0)
              (NoiseGradient.flt 50)) with (S754_zero false).
    rewrite (gaussian_noise_zero rng image Hg). cbn [bind].
    rewrite add_zero_noise by assumption. reflexivity.
Qed.

(** ** Poisson noise at intensity 0 *)

Lemma sequence_mapi_const {A B} (f : nat -> A -> result B) (c : B) l :
  forall k,
    (forall i v, In v l -> f i v = Ok c) ->
    NoiseGradient.sequence (NDArray.mapi_from k f l) =
    Ok (List.map (fun _ => c) l).
Proof.
  induction l as [|x l IH]; intros k Hf; [reflexivity|].
  cbn [NDArray.mapi_from NoiseGradient.sequence List.map].
  rewrite Hf by (left; reflexivity). cbn [bind].
  rewrite IH by (intros i v Hv; apply Hf; right; exact Hv).
  reflexivity.
Qed.

Lemma of_Z_uint8_finite v :
  0 <= v <= 255 -> IEEE.is_finite (IEEE.of_Z f64 v) = true.
Proof.
  intros Hv.
  assert (H : IEEE.smallb 9 (IEEE.of_Z f64 v) = true).
  { apply (small_normalize 53 1024 ltac:(lia) 8); unfold emin; lia. }
  destruct (IEEE.of_Z f64 v); simpl in *; congruence.
Qed.

Lemma poisson_clipped1_zero rng i v :
  0 <= v <= 255 ->
  NoiseGradient.poisson_clipped1 rng (NoiseGradient.gradient_intensity 0) i v =
  Ok S754_nan.
Proof.
  intros Hv. unfold NoiseGradient.poisson_clipped1.
  change (NoiseGradient.gradient_intensity 0) with (S754_zero false).
  pose proof (of_Z_uint8_finite v Hv) as Hf.
  unfold NoiseGradient.flt at 1.
  destruct (mul_zero_r false _ Hf) as [s ->].
  let c := eval vm_compute in (NoiseGradient.lit 1 1) in
  change (NoiseGradient.lit 1 1) with c.
  destruct s; reflexivity.
Qed.

(** X21: at intensity 0, the first step of every sequence, the Poisson
    transform divides the zero count by the zero rate; every element
    handed to the 8-bit conversion is NaN, for every image, so the
    returned image holds one and the same value everywhere, whatever the
    platform makes of converting NaN: the content of the input is
    lost. *)
Theorem poisson_noise_zero_intensity_nan :
  forall (undef : spec_float -> Z) (rng : NPRandom.source) (image : PIL.Image),
    NDArray.is_uint8 image ->
    NoiseGradient.poisson_clipped rng image (NoiseGradient.gradient_intensity 0) =
      Ok (NDArray.map (fun _ => S754_nan) image) /\
    NoiseGradient.apply_poisson_noise undef rng image
      (NoiseGradient.gradient_intensity 0) =
      Ok (NDArray.map (fun _ => undef S754_nan mod 256) image).
Proof.
  intros undef rng image Himg.
  assert (H : NoiseGradient.poisson_clipped rng image
                (NoiseGradient.gradient_intensity 0) =
              Ok (NDArray.map (fun _ => S754_nan) image)).
  { unfold NoiseGradient.poisson_clipped.
    rewrite (sequence_mapi_const _ S754_nan).
    - reflexivity.
    - intros i v Hv. apply poisson_clipped1_zero.
      unfold NDArray.is_uint8 in Himg. rewrite Forall_forall in Himg.
      apply Himg, Hv. }
  split; [exact H|].
  unfold NoiseGradient.apply_poisson_noise. rewrite H. cbn [bind].
  unfold astype_uint8, NDArray.map. cbn [NDArray.shape NDArray.data].
  rewrite map_map. reflexivity.
Qed.

Lemma poisson_noise_zero_intensity_nan_witness :
  let rng := NPRandom.mk (fun _ => S754_zero false) (fun _ => S754_zero false)
               (fun _ _ => 3) in
  let image := NDArray.mk [1%nat; 1%nat; 3%nat] [10; 20; 30] in
  NoiseGradient.poisson_clipped rng image (NoiseGradient.gradient_intensity 0) =
  Ok (NDArray.mk [1%nat; 1%nat; 3%nat] [S754_nan; S754_nan; S754_nan]).
Proof.
  intros rng image.
  exact (proj1
    (poisson_noise_zero_intensity_nan (fun _ => 0) rng image
       ltac:(unfold NDArray.is_uint8; simpl; repeat constructor; lia))).
Defined.

(** ** Level 0 is the identity *)

Lemma speckle_zero_all : forallb speckle_zero_ok (zrange 0 256) = true.
Proof. vm_compute. reflexivity. Qed.

Lemma severity_zero_all : forallb severity_zero_ok (zrange 0 256) = true.
Proof. vm_compute. reflexivity. Qed.

Lemma rows_small_all :
  forallb (fun m => forallb row_small (rows m)) all_matrices = true.
Proof. vm_compute. reflexivity. Qed.

Lemma mapi_from_id {A} (f : nat -> A -> A) l : forall k,
  (forall i v, In v l -> f i v = v) -> NDArray.mapi_from k f l = l.
Proof.
  induction l as [|x l IH]; intros k Hf; [reflexivity|].
  simpl. rewrite Hf by (left; reflexivity).
  rewrite IH by (intros i v Hv; apply Hf; right; exact Hv). reflexivity.
Qed.

Lemma mapi_id {A} (f : nat -> A -> A) (a : ndarray A) :
  (forall i v, In v (NDArray.data a) -> f i v = v) -> NDArray.mapi f a = a.
Proof.
  intros Hf. destruct a as [s d]. unfold NDArray.mapi.
  cbn [NDArray.shape NDArray.data] in *. rewrite mapi_from_id by exact Hf.
  reflexivity.
Qed.

Lemma update_channel_id {A} n c (f : A -> A) (a : ndarray A) :
  (forall v, In v (NDArray.data a) -> f v = v) ->
  NDArray.update_channel n c f a = a.
Proof.
  intros Hf. unfold NDArray.update_channel. apply mapi_id.
  intros i v Hv. destruct (Nat.eqb (i mod n) c); [apply Hf, Hv|reflexivity].
Qed.

Lemma compare_antisym x y :
  SFcompare x y = Some Lt -> SFcompare y x = Some Gt.
Proof.
  destruct x as [sx|sx| |sx mx ex], y as [sy|sy| |sy my ey]; simpl;
    try discriminate;
    try (destruct sx; discriminate || reflexivity);
    try (destruct sy; discriminate || reflexivity);
    try (destruct sx, sy; discriminate || reflexivity).
  destruct sx, sy; try discriminate; try reflexivity;
    rewrite (Z.compare_antisym ex ey);
    destruct (ex ?= ey) eqn:E; simpl; try discriminate; try reflexivity;
    replace (Pos.compare_cont Eq my mx)
      with (CompOpp (Pos.compare_cont Eq mx my))
      by (apply Pos.compare_cont_antisym);
    destruct (Pos.compare_cont Eq mx my); simpl; discriminate || reflexivity.
Qed.

Lemma ltb_antisym x y : IEEE.ltb x y = true -> IEEE.ltb y x = false.
Proof.
  unfold IEEE.ltb, SFltb. intros H.
  destruct (SFcompare x y) as [[| |]|] eqn:E; try discriminate.
  rewrite (compare_antisym x y E). reflexivity.
Qed.

Lemma ltb_zero_of_leb u :
  IEEE.leb (IEEE.of_Z f64 0) u = true -> IEEE.ltb u (S754_zero false) = false.
Proof.
  change (IEEE.of_Z f64 0) with (S754_zero false).
  destruct u as [s|s| |s m e]; simpl; try reflexivity; try discriminate;
    destruct s; simpl; try discriminate; reflexivity.
Qed.

Lemma small_finite B x : IEEE.smallb B x = true -> IEEE.is_finite x = true.
Proof. destruct x; simpl; congruence. Qed.

Lemma mul64_small B1 B2 x y :
  IEEE.smallb B1 x = true -> IEEE.smallb B2 y = true ->
  -1074 <= B1 + B2 -> B1 + B2 + 1 <= 971 ->
  IEEE.smallb (B1 + B2 + 1) (IEEE.mul f64 x y) = true.
Proof.
  intros. apply (small_mul 53 1024); unfold emin; try assumption; lia.
Qed.

Lemma add64_small B x y :
  IEEE.smallb B x = true -> IEEE.smallb B y = true ->
  -1074 <= B + 1 -> B + 2 <= 971 ->
  IEEE.smallb (B + 2) (IEEE.add f64 x y) = true.
Proof.
  intros. apply (small_add 53 1024); unfold emin; try assumption; lia.
Qed.

Lemma dot_finite p0 p1 p2 r :
  IEEE.smallb 1 (IEEE.round f64 p0) = true ->
  IEEE.smallb 1 (IEEE.round f64 p1) = true ->
  IEEE.smallb 1 (IEEE.round f64 p2) = true ->
  row_small r = true ->
  IEEE.is_finite (ColorBlind.dot (p0, p1, p2) r) = true.
Proof.
  intros H0 H1 H2 Hr. destruct r as [[a b] c]. unfold row_small in Hr.
  apply andb_prop in Hr. destruct Hr as [Hr Hc].
  apply andb_prop in Hr. destruct Hr as [Ha Hb].
  unfold ColorBlind.dot. cbv zeta.
  apply (small_finite 7).
  apply (add64_small 5); try lia.
  - apply (add64_small 3); try lia; apply (mul64_small 1 1); auto; lia.
  - apply (small_mono 3 5); [lia|]. apply (mul64_small 1 1); auto; lia.
Qed.

Lemma mix_zero undef p t v :
  0 <= v <= 255 -> p = ColorBlind.normalize v ->
  IEEE.is_finite t = true ->
  ColorBlind.quantize undef (ColorBlind.mix (S754_zero false) p t) = v.
Proof.
  intros Hv -> Ht. unfold ColorBlind.mix, ColorBlind.quantize.
  destruct (mul_zero_l false t Ht) as [s ->].
  pose proof (forallb_zrange _ 0 256 v severity_zero_all ltac:(lia)) as H.
  unfold severity_zero_ok in H. cbv zeta in H.
  apply andb_prop in H. destruct H as [_ H]. rewrite forallb_forall in H.
  assert (Hs : In s [false; true]) by (destruct s; simpl; auto).
  specialize (H s Hs). cbv beta in H.
  destruct (IEEE.to_uint8 _) as [o|] eqn:Eo in H; [|discriminate].
  rewrite (to_uint8_defined undef _ o Eo). apply Z.eqb_eq. exact H.
Qed.

Lemma normalize_small v :
  0 <= v <= 255 ->
  IEEE.smallb 1 (IEEE.round f64 (ColorBlind.normalize v)) = true.
Proof.
  intros Hv.
  pose proof (forallb_zrange _ 0 256 v severity_zero_all ltac:(lia)) as H.
  unfold severity_zero_ok in H. cbv zeta in H.
  apply andb_prop in H. apply H.
Qed.

Lemma transform_pixel_zero undef m r g b :
  In m all_matrices ->
  0 <= r <= 255 -> 0 <= g <= 255 -> 0 <= b <= 255 ->
  ColorBlind.transform_pixel undef m (S754_zero false)
    (ColorBlind.normalize r, ColorBlind.normalize g, ColorBlind.normalize b) =
  (r, g, b).
Proof.
  intros Hm Hr Hg Hb.
  pose proof rows_small_all as Hrows. rewrite forallb_forall in Hrows.
  specialize (Hrows m Hm). rewrite forallb_forall in Hrows.
  destruct m as [[m0 m1] m2]. unfold ColorBlind.transform_pixel.
  change (IEEE.ltb (S754_zero false) (IEEE.dec f64 10 1)) with true.
  cbv iota.
  assert (Hfin : forall row, In row [m0; m1; m2] ->
            IEEE.is_finite
              (ColorBlind.dot
                 (ColorBlind.normalize r, ColorBlind.normalize g,
                  ColorBlind.normalize b) row) = true).
  { intros row Hrow. apply dot_finite; try apply normalize_small; auto. }
  rewrite (mix_zero undef _ _ r Hr eq_refl) by (apply Hfin; simpl; auto).
  rewrite (mix_zero undef _ _ g Hg eq_refl) by (apply Hfin; simpl; auto).
  rewrite (mix_zero undef _ _ b Hb eq_refl) by (apply Hfin; simpl; auto).
  reflexivity.
Qed.

Lemma transform_pixels_zero undef m : forall k l,
  In m all_matrices ->
  List.length l = (3 * k)%nat ->
  Forall (fun v => 0 <= v <= 255) l ->
  ColorBlind.transform_pixels undef m (S754_zero false) l = l.
Proof.
  induction k as [|k IH]; intros l Hm Hlen Hl.
  - destruct l; [reflexivity|simpl in Hlen; lia].
  - destruct l as [|r [|g [|b l]]]; try (simpl in Hlen; lia).
    inversion Hl as [|? ? Hr Hl1]; subst.
    inversion Hl1 as [|? ? Hg Hl2]; subst.
    inversion Hl2 as [|? ? Hb Hl3]; subst.
    cbn [ColorBlind.transform_pixels].
    rewrite transform_pixel_zero by assumption.
    rewrite (IH l Hm) by (simpl in Hlen; try lia; assumption).
    reflexivity.
Qed.

Lemma colorblind_severity_zero undef m image h w :
  In m all_matrices ->
  NDArray.shape image = [h; w; 3%nat] ->
  NDArray.wf image -> NDArray.is_uint8 image ->
  ColorBlind.apply_colorblindness_matrix undef image m (S754_zero false) =
  Ok image.
Proof.
  intros Hm Hs Hwf Himg. destruct image as [s d].
  unfold NDArray.wf, NDArray.is_uint8 in *.
  cbn [NDArray.shape NDArray.data] in *. subst s.
  unfold ColorBlind.apply_colorblindness_matrix. cbn [NDArray.shape NDArray.data].
  rewrite (transform_pixels_zero undef m (h * w)%nat d Hm); [reflexivity| |exact Himg].
  rewrite Hwf. simpl. lia.
Qed.

Lemma salt_pepper_zero rng image :
  NPRandom.well_behaved rng ->
  NoiseGradient.apply_salt_pepper_noise rng image (S754_zero false) = image.
Proof.
  intros (_ & Hu & _). unfold NoiseGradient.apply_salt_pepper_noise. cbv zeta.
  change (IEEE.mul f64 (S754_zero false) (NoiseGradient.lit 5 2))
    with (S754_zero false).
  change (IEEE.sub f64 (NoiseGradient.flt 1) (S754_zero false))
    with (IEEE.of_Z f64 1).
  rewrite (mapi_id (fun i v => if IEEE.ltb _ (S754_zero false) then 255 else v)).
  - apply mapi_id. intros i v _.
    rewrite (ltb_antisym _ _ (proj2 (Hu _))). reflexivity.
  - intros i v _. rewrite (ltb_zero_of_leb _ (proj1 (Hu _))). reflexivity.
Qed.

Lemma speckle_zero undef rng image :
  NPRandom.well_behaved rng -> NDArray.is_uint8 image ->
  NoiseGradient.apply_speckle_noise undef rng image (S754_zero false) = image.
Proof.
  intros (Hg & _) Himg. unfold NoiseGradient.apply_speckle_noise.
  apply mapi_id. intros i v Hv. cbv zeta.
  destruct (mul_zero_r false _ (Hg i)) as [s ->].
  assert (Hz : exists s', IEEE.mul f64 (S754_zero s) (NoiseGradient.flt 20) =
                          S754_zero s') by (destruct s; eexists; reflexivity).
  destruct Hz as [s' ->].
  unfold NDArray.is_uint8 in Himg. rewrite Forall_forall in Himg.
  pose proof (forallb_zrange _ 0 256 v speckle_zero_all
                ltac:(specialize (Himg v Hv); lia)) as H.
  unfold speckle_zero_ok in H. rewrite forallb_forall in H.
  assert (Hs : In s' [false; true]) by (destruct s'; simpl; auto).
  specialize (H s' Hs). cbv beta zeta in H.
  destruct (IEEE.to_uint8 _) as [o|] eqn:Eo in H; [|discriminate].
  unfold NoiseGradient.flt.
  rewrite (to_uint8_defined undef _ o Eo). apply Z.eqb_eq. exact H.
Qed.

Lemma resize_same nearest_at image h w rest :
  NDArray.shape image = h :: w :: rest ->
  PIL.resize_NEAREST nearest_at image (w, h) = image.
Proof.
  intros Hs. unfold PIL.resize_NEAREST, PIL.size. rewrite Hs.
  cbn [fst snd]. rewrite !Nat.eqb_refl. reflexivity.
Qed.

Lemma pixelate_one nearest_at image h w rest p :
  NDArray.shape image = h :: w :: rest -> (0 < h)%nat -> (0 < w)%nat ->
  Z.max 1 p = 1 ->
  (let original_size := PIL.size image in
   let pixel_size := Z.max 1 p in
   let small_size :=
     (Z.to_nat (Z.max 1 (Z.of_nat (fst original_size) / pixel_size)),
      Z.to_nat (Z.max 1 (Z.of_nat (snd original_size) / pixel_size))) in
   PIL.resize_NEAREST nearest_at
     (PIL.resize_NEAREST nearest_at image small_size) original_size) = image.
Proof.
  intros Hs Hh Hw Hp. cbv zeta. rewrite Hp. unfold PIL.size at 1 2 3. rewrite Hs.
  cbn [fst snd]. rewrite !Z.div_1_r.
  replace (Z.to_nat (Z.max 1 (Z.of_nat w))) with w by lia.
  replace (Z.to_nat (Z.max 1 (Z.of_nat h))) with h by lia.
  rewrite !(resize_same nearest_at image h w rest Hs). reflexivity.
Qed.

Lemma pixelation_zero nearest_at image h w rest :
  NDArray.shape image = h :: w :: rest -> (0 < h)%nat -> (0 < w)%nat ->
  NoiseGradient.apply_pixelation nearest_at image (S754_zero false) = Ok image.
Proof.
  intros Hs Hh Hw. unfold NoiseGradient.apply_pixelation.
  change (py_int (IEEE.mul f64 (S754_zero false) (NoiseGradient.flt 50)))
    with (Ok 0 : result Z).
  cbn [bind]. f_equal.
  apply (pixelate_one nearest_at image h w rest 0 Hs Hh Hw). reflexivity.
Qed.

Lemma pixel_manipulation_zero nearest_at image h w rest :
  NDArray.shape image = h :: w :: rest -> (0 < h)%nat -> (0 < w)%nat ->
  FastNoise.apply_pixel_manipulation nearest_at image 0 = Ok image.
Proof.
  intros Hs Hh Hw. unfold FastNoise.apply_pixel_manipulation.
  change (py_int (IEEE.mul f64 (FastNoise.intensity 0) (IEEE.of_Z f64 20)))
    with (Ok 0 : result Z).
  cbn [bind]. f_equal.
  apply (pixelate_one nearest_at image h w rest (0 + 1) Hs Hh Hw). reflexivity.
Qed.

Lemma uniform_zero py_random k :
  IEEE.is_finite (py_random k) = true ->
  exists s,
    NoiseGradient.uniform py_random k (SFopp (S754_zero false))
      (S754_zero false) = S754_zero s.
Proof.
  intros Hf. unfold NoiseGradient.uniform.
  change (IEEE.sub f64 (S754_zero false) (SFopp (S754_zero false)))
    with (S754_zero false).
  destruct (mul_zero_l false _ Hf) as [s ->].
  destruct s; eexists; reflexivity.
Qed.

Lemma color_shift_zero undef py_random image h w :
  NDArray.shape image = [h; w; 3%nat] ->
  (forall k, IEEE.is_finite (py_random k) = true) ->
  NDArray.is_uint8 image ->
  NoiseGradient.apply_color_shift undef py_random image (S754_zero false) =
  Ok image.
Proof.
  intros Hs Hf Himg. unfold NoiseGradient.apply_color_shift. cbv zeta.
  rewrite Hs. cbn [Nat.leb].
  change (IEEE.mul f64 (S754_zero false) (NoiseGradient.flt 50))
    with (S754_zero false).
  destruct (uniform_zero py_random 0 (Hf _)) as [s0 ->].
  destruct (uniform_zero py_random 1 (Hf _)) as [s1 ->].
  destruct (uniform_zero py_random 2 (Hf _)) as [s2 ->].
  unfold NDArray.is_uint8 in Himg. rewrite Forall_forall in Himg.
  assert (Hid : forall s v, In v (NDArray.data image) ->
            to_uint8 undef
              (clip_0_255 f64
                 (IEEE.add f64 (NoiseGradient.flt v) (S754_zero s))) = v)
    by (intros s v Hv; apply plus_zero, Himg, Hv).
  rewrite (update_channel_id 3 0 _ image (Hid s0)).
  rewrite (update_channel_id 3 1 _ image (Hid s1)).
  rewrite (update_channel_id 3 2 _ image (Hid s2)).
  reflexivity.
Qed.

(** C1 (amended): level 0 returns the input image for every levelled
    degradation of the visual-degradation generator; intensity 0 returns
    it for Gaussian, salt-and-pepper and speckle noise (zero injected
    noise), pixelation and the additive colour shift of the noise
    generator and for both transforms of the fast generator; severity 0
    returns it for the three colour-vision simulations with either
    matrix set.  The brightness, contrast and saturation variations of
    the noise generator start at the factors 0.3, 0.5 and 0.0, not at
    the identity factor 1. *)
Theorem level_zero_identity :
  forall (undef : spec_float -> Z)
         (gaussian_blur_at : spec_float -> ndarray Z -> nat -> Z)
         (resize_at : VisualDegradation.interpolation -> ndarray Z ->
                      nat * nat -> nat -> Z)
         (bgr2hsv hsv2bgr : Z * Z * Z -> Z * Z * Z)
         (nearest_at : PIL.Image -> nat * nat -> nat -> Z)
         (rng : NPRandom.source) (py_random : nat -> spec_float)
         (image : ndarray Z) (h w : nat),
    NDArray.shape image = [h; w; 3%nat] ->
    (0 < h)%nat -> (0 < w)%nat ->
    NDArray.wf image ->
    NDArray.is_uint8 image ->
    NPRandom.well_behaved rng ->
    (forall k, IEEE.is_finite (py_random k) = true) ->
    (forall t,
       VisualDegradation.degradation_methods undef gaussian_blur_at resize_at
         bgr2hsv hsv2bgr t image 0 = Ok image) /\
    (forall t, In t identity_at_zero ->
       NoiseGradient.transformations undef gaussian_blur_at nearest_at rng
         py_random t image (NoiseGradient.gradient_intensity 0) = Ok image) /\
    FastNoise.apply_noise_gradient undef rng image 0 = Ok image /\
    FastNoise.apply_pixel_manipulation nearest_at image 0 = Ok image /\
    (forall t improved,
       ColorBlind.simulation_functions undef t image (S754_zero false) improved =
       Ok image) /\
    NoiseGradient.brightness_factor (NoiseGradient.gradient_intensity 0) =
      IEEE.dec f64 3 1 /\
    NoiseGradient.contrast_factor (NoiseGradient.gradient_intensity 0) =
      IEEE.dec f64 5 1 /\
    NoiseGradient.saturation_factor (NoiseGradient.gradient_intensity 0) =
      S754_zero false.
Proof.
  intros undef gaussian_blur_at resize_at bgr2hsv hsv2bgr nearest_at rng
    py_random image h w Hs Hh Hw Hwf Himg Hrng Hpy.
  pose proof Hrng as (Hg & _).
  destruct (gaussian_level_zero undef rng image Hg Hwf Himg)
    as (Hfast & Hgauss).
  repeat split.
  - intros t. destruct t; reflexivity.
  - intros t Ht. unfold identity_at_zero in Ht. simpl in Ht.
    destruct Ht as [<-|[<-|[<-|[<-|[<-|[]]]]]];
      cbn [NoiseGradient.transformations].
    + exact Hgauss.
    + change (NoiseGradient.gradient_intensity 0) with (S754_zero false).
      rewrite salt_pepper_zero by assumption. reflexivity.
    + change (NoiseGradient.gradient_intensity 0) with (S754_zero false).
      rewrite speckle_zero by assumption. reflexivity.
    + change (NoiseGradient.gradient_intensity 0) with (S754_zero false).
      apply (pixelation_zero nearest_at image h w [3%nat]); assumption.
    + change (NoiseGradient.gradient_intensity 0) with (S754_zero false).
      apply (color_shift_zero undef py_random image h w); assumption.
  - exact Hfast.
  - apply (pixel_manipulation_zero nearest_at image h w [3%nat]); assumption.
  - intros t improved.
    assert (H : ColorBlind.simulation_functions undef t image (S754_zero false)
                  improved =
                ColorBlind.apply_colorblindness_matrix undef image
                  (ColorBlind.matrix_of t improved) (S754_zero false))
      by (destruct t, improved; reflexivity).
    rewrite H.
    apply (colorblind_severity_zero undef _ image h w); try assumption.
    apply matrix_of_In.
Qed.

Lemma level_zero_identity_witness :
  let rng :=
    NPRandom.mk
      (fun i => if Nat.even i then IEEE.dec f64 13 1 else IEEE.dec f64 (-7) 1)
      (fun i => if Nat.even i then IEEE.dec f64 25 2 else S754_zero false)
      (fun _ _ => 0) in
  let image := NDArray.mk [1%nat; 2%nat; 3%nat] [0; 17; 255; 128; 64; 1] in
  NoiseGradient.transformations (fun _ => 0) (fun _ _ _ => 0) (fun _ _ _ => 0)
    rng (fun _ => IEEE.dec f64 5 1) NoiseGradient.speckle_noise image
    (NoiseGradient.gradient_intensity 0) = Ok image /\
  ColorBlind.simulation_functions (fun _ => 0) ColorBlind.tritanopia image
    (S754_zero false) true = Ok image.
Proof.
  intros rng image.
  pose proof
    (level_zero_identity (fun _ => 0) (fun _ _ _ => 0) (fun _ _ _ _ => 0)
       (fun p => p) (fun p => p) (fun _ _ _ => 0) rng
       (fun _ => IEEE.dec f64 5 1) image 1%nat 2%nat
       ltac:(reflexivity) ltac:(lia) ltac:(lia) ltac:(reflexivity)
       ltac:(unfold NDArray.is_uint8; simpl; repeat constructor; lia)
       ltac:(unfold rng; repeat split; intros; cbn [NPRandom.gauss NPRandom.unif NPRandom.pois];
             try destruct (Nat.even i); try reflexivity; lia)
       ltac:(intros k; reflexivity)) as H.
  split.
  - apply (proj1 (proj2 H)). unfold identity_at_zero. simpl. auto.
  - apply (proj1 (proj2 (proj2 (proj2 (proj2 H))))).
Defined.

(** C1, as stated, fails on the brightness variation of the noise
    generator: at intensity 0 its factor is 0.3 and a pixel
    (200, 100, 50) comes back as (60, 30, 15). *)
Lemma brightness_variation_zero_counterexample :
  let image := NDArray.mk [1%nat; 1%nat; 3%nat] [200; 100; 50] in
  let out :=
    NoiseGradient.apply_brightness_variation (fun _ => 0) image
      (NoiseGradient.gradient_intensity 0) in
  out = NDArray.mk [1%nat; 1%nat; 3%nat] [60; 30; 15] /\ out <> image.
Proof.
  vm_compute. split; [reflexivity|discriminate].
Qed.

(** ** Image dimensions *)

Lemma scale_factor_all : forallb scale_factor_ok (zrange 0 101) = true.
Proof. vm_compute. reflexivity. Qed.

Lemma intensity_all : forallb intensity_ok (zrange 0 100) = true.
Proof. vm_compute. reflexivity. Qed.

Lemma wf_tabulate {A} s (f : nat -> A) : NDArray.wf (NDArray.tabulate s f).
Proof.
  unfold NDArray.wf, NDArray.tabulate. cbn [NDArray.shape NDArray.data].
  rewrite length_map, length_seq. reflexivity.
Qed.

Lemma same_dims_refl image : NDArray.wf image -> same_dims image image.
Proof. intros H. split; [reflexivity|exact H]. Qed.

Lemma same_dims_map (f : Z -> Z) image :
  NDArray.wf image -> same_dims image (NDArray.map f image).
Proof.
  intros H. split; [reflexivity|]. unfold NDArray.wf, NDArray.map in *.
  cbn [NDArray.shape NDArray.data]. rewrite length_map. exact H.
Qed.

Lemma same_dims_mapi (f : nat -> Z -> Z) image :
  NDArray.wf image -> same_dims image (NDArray.mapi f image).
Proof.
  intros H. split; [reflexivity|]. unfold NDArray.wf, NDArray.mapi in *.
  cbn [NDArray.shape NDArray.data]. rewrite length_mapi_from. exact H.
Qed.

Lemma same_dims_trans a b c :
  same_dims a b -> same_dims b c -> same_dims a c.
Proof. intros [H1 H2] [H3 H4]. split; [congruence|exact H4]. Qed.

Lemma same_dims_tabulate image f :
  same_dims image (NDArray.tabulate (NDArray.shape image) f).
Proof. split; [reflexivity|apply wf_tabulate]. Qed.

Lemma length_map_pixels f l :
  List.length (VisualDegradation.map_pixels f l) = List.length l.
Proof.
  assert (H : forall n l, (List.length l <= n)%nat ->
            List.length (VisualDegradation.map_pixels f l) = List.length l).
  { induction n as [|n IH]; intros l0 Hl.
    - destruct l0; [reflexivity|simpl in Hl; lia].
    - destruct l0 as [|a [|b [|c l0]]]; try reflexivity.
      cbn [VisualDegradation.map_pixels].
      destruct (f (a, b, c)) as [[x y] z]. simpl. rewrite IH; [reflexivity|].
      simpl in Hl. lia. }
  apply (H (List.length l)). lia.
Qed.

Lemma cvtColor_dims f image h w :
  NDArray.shape image = [h; w; 3%nat] -> NDArray.wf image ->
  exists out,
    VisualDegradation.cvtColor f image = Ok out /\
    NDArray.shape out = [h; w; 3%nat] /\ NDArray.wf out.
Proof.
  intros Hs Hwf. unfold VisualDegradation.cvtColor. rewrite Hs.
  eexists. split; [reflexivity|]. split; [reflexivity|].
  unfold NDArray.wf in *. cbn [NDArray.shape NDArray.data].
  rewrite length_map_pixels, Hwf, Hs. reflexivity.
Qed.

Lemma sharpness_dims gaussian_blur_at image level h w :
  NDArray.shape image = [h; w; 3%nat] -> NDArray.wf image ->
  keeps_dims image
    (VisualDegradation.degrade_sharpness gaussian_blur_at image level).
Proof.
  intros Hs Hwf. unfold VisualDegradation.degrade_sharpness.
  destruct (level =? 0).
  - exists image. split; [reflexivity|apply same_dims_refl, Hwf].
  - destruct (cvtColor_dims VisualDegradation.swap_rb image h w Hs Hwf)
      as (rgb & -> & Hs1 & Hwf1).
    cbn [bind].
    destruct (cvtColor_dims VisualDegradation.swap_rb
                (VisualDegradation.gaussian_blur gaussian_blur_at
                   (VisualDegradation.blur_radius level) rgb) h w)
      as (out & Hout & Hs2 & Hwf2).
    + unfold VisualDegradation.gaussian_blur. exact Hs1.
    + apply wf_tabulate.
    + exists out. split; [exact Hout|]. split; [congruence|exact Hwf2].
Qed.

Lemma color_distortion_dims undef bgr2hsv hsv2bgr image level h w :
  NDArray.shape image = [h; w; 3%nat] -> NDArray.wf image ->
  keeps_dims image
    (VisualDegradation.degrade_color_distortion undef bgr2hsv hsv2bgr image
       level).
Proof.
  intros Hs Hwf. unfold VisualDegradation.degrade_color_distortion.
  destruct (level =? 0).
  - exists image. split; [reflexivity|apply same_dims_refl, Hwf].
  - destruct (cvtColor_dims bgr2hsv image h w Hs Hwf) as (hsv & -> & Hs1 & Hwf1).
    cbn [bind]. cbv zeta.
    match goal with
    | |- keeps_dims _ (VisualDegradation.cvtColor _ ?a) =>
        destruct (cvtColor_dims hsv2bgr a h w) as (out & Hout & Hs2 & Hwf2)
    end.
    + exact Hs1.
    + unfold NDArray.wf, astype_uint8, NDArray.update_channel, NDArray.mapi,
        NDArray.map in *.
      cbn [NDArray.shape NDArray.data].
      rewrite length_map, !length_mapi_from, length_map. exact Hwf1.
    + exists out. split; [exact Hout|]. split; [congruence|exact Hwf2].
Qed.

Lemma color_shift_dims undef image level h w :
  NDArray.shape image = [h; w; 3%nat] -> NDArray.wf image ->
  keeps_dims image (VisualDegradation.degrade_color_shift undef image level).
Proof.
  intros Hs Hwf. unfold VisualDegradation.degrade_color_shift.
  destruct (level =? 0).
  - exists image. split; [reflexivity|apply same_dims_refl, Hwf].
  - unfold NDArray.channels. rewrite Hs. cbn [Nat.leb]. 
    eexists. split; [reflexivity|].
    rewrite color_shift_float_elt.
    split; [reflexivity|].
    unfold NDArray.wf, astype_uint8, NDArray.mapi, NDArray.map in *.
    cbn [NDArray.shape NDArray.data].
    rewrite !length_map, length_mapi_from, length_map. exact Hwf.
Qed.

Lemma py_int_scaled n level :
  0 <= n < 2 ^ 31 -> 0 <= level <= 100 ->
  exists z,
    py_int (IEEE.mul f64 (VisualDegradation.flt n)
              (VisualDegradation.scale_factor level)) = Ok z.
Proof.
  intros Hn Hl.
  pose proof (forallb_zrange _ 0 101 level scale_factor_all ltac:(lia)) as Hsc.
  unfold scale_factor_ok in Hsc.
  assert (Hflt : IEEE.smallb 32 (VisualDegradation.flt n) = true)
    by (apply (small_normalize 53 1024 ltac:(lia) 31); unfold emin; lia).
  pose proof (mul64_small 32 1 _ _ Hflt Hsc ltac:(lia) ltac:(lia)) as Hm.
  apply small_finite in Hm. unfold py_int.
  destruct (IEEE.mul f64 _ _); try discriminate; eexists; reflexivity.
Qed.

Lemma cv2_resize_dims resize_at a sh sw w h interp :
  NDArray.shape a = [sh; sw; 3%nat] ->
  (0 < sh)%nat -> (0 < sw)%nat -> (0 < w)%nat -> (0 < h)%nat ->
  exists out,
    VisualDegradation.cv2_resize resize_at a (w, h) interp = Ok out /\
    NDArray.shape out = [h; w; 3%nat] /\ NDArray.wf out.
Proof.
  intros Hs Hsh Hsw Hw Hh. unfold VisualDegradation.cv2_resize. rewrite Hs.
  cbn [Nat.eqb].
  destruct (Nat.eqb_spec sh 0); [lia|].
  destruct (Nat.eqb_spec sw 0); [lia|].
  destruct (Nat.eqb_spec w 0); [lia|].
  destruct (Nat.eqb_spec h 0); [lia|].
  cbn [orb]. eexists. split; [reflexivity|].
  split; [reflexivity|apply wf_tabulate].
Qed.

Lemma resolution_dims resize_at image level h w :
  NDArray.shape image = [h; w; 3%nat] -> NDArray.wf image ->
  (0 < h)%nat -> (0 < w)%nat ->
  Z.of_nat h < 2 ^ 31 -> Z.of_nat w < 2 ^ 31 ->
  0 <= level <= 100 ->
  keeps_dims image
    (VisualDegradation.degrade_resolution resize_at image level).
Proof.
  intros Hs Hwf Hh Hw Hh31 Hw31 Hl.
  unfold VisualDegradation.degrade_resolution.
  destruct (level =? 0).
  - exists image. split; [reflexivity|apply same_dims_refl, Hwf].
  - rewrite Hs. cbv zeta.
    destruct (py_int_scaled (Z.of_nat w) level ltac:(lia) Hl) as [zw ->].
    cbn [bind].
    destruct (py_int_scaled (Z.of_nat h) level ltac:(lia) Hl) as [zh ->].
    cbn [bind].
    destruct (cv2_resize_dims resize_at image h w
                (Z.to_nat (Z.max zw 8)) (Z.to_nat (Z.max zh 8))
                VisualDegradation.INTER_AREA Hs Hh Hw
                ltac:(lia) ltac:(lia))
      as (down & -> & Hsd & Hwfd).
    cbn [bind].
    destruct (cv2_resize_dims resize_at down _ _ w h
                VisualDegradation.INTER_LINEAR Hsd
                ltac:(lia) ltac:(lia) Hw Hh)
      as (up & -> & Hsu & Hwfu).
    exists up. split; [reflexivity|]. split; [congruence|exact Hwfu].
Qed.

Lemma degradation_methods_dims undef gaussian_blur_at resize_at bgr2hsv hsv2bgr
    t image level h w :
  NDArray.shape image = [h; w; 3%nat] -> NDArray.wf image ->
  (0 < h)%nat -> (0 < w)%nat ->
  Z.of_nat h < 2 ^ 31 -> Z.of_nat w < 2 ^ 31 ->
  0 <= level <= 100 ->
  keeps_dims image
    (VisualDegradation.degradation_methods undef gaussian_blur_at resize_at
       bgr2hsv hsv2bgr t image level).
Proof.
  intros Hs Hwf Hh Hw Hh31 Hw31 Hl.
  destruct t; cbn [VisualDegradation.degradation_methods].
  - apply (sharpness_dims _ _ _ h w); assumption.
  - eexists. split; [reflexivity|].
    unfold VisualDegradation.degrade_brightness.
    destruct (level =? 0); [apply same_dims_refl, Hwf|].
    unfold astype_uint8. split; [reflexivity|].
    unfold NDArray.wf, NDArray.map in *. cbn [NDArray.shape NDArray.data].
    rewrite !length_map. exact Hwf.
  - eexists. split; [reflexivity|].
    unfold VisualDegradation.degrade_contrast.
    destruct (level =? 0); [apply same_dims_refl, Hwf|].
    unfold astype_uint8. split; [reflexivity|].
    unfold NDArray.wf, NDArray.map in *. cbn [NDArray.shape NDArray.data].
    rewrite !length_map. exact Hwf.
  - apply (color_distortion_dims _ _ _ _ _ h w); assumption.
  - apply (color_shift_dims _ _ _ h w); assumption.
  - apply (resolution_dims _ _ _ h w); assumption.
Qed.

Lemma length_zip_with {A B C} (f : A -> B -> C) l1 : forall l2,
  List.length l2 = List.length l1 ->
  List.length (NDArray.zip_with f l1 l2) = List.length l1.
Proof.
  induction l1 as [|x l1 IH]; intros [|y l2] H; try discriminate;
    [reflexivity|].
  simpl. rewrite IH; [reflexivity|simpl in H; lia].
Qed.

Lemma add_noise_dims undef image g :
  NDArray.wf image ->
  same_dims image
    (NoiseGradient.add_noise undef image
       (NDArray.tabulate (NDArray.shape image) g)).
Proof.
  intros Hwf. split; [reflexivity|].
  unfold NDArray.wf, NoiseGradient.add_noise, NDArray.tabulate in *.
  cbn [NDArray.shape NDArray.data].
  rewrite length_zip_with; [exact Hwf|].
  rewrite length_map, length_seq. symmetry. exact Hwf.
Qed.

Lemma gaussian_dims undef rng image scale :
  NDArray.wf image ->
  IEEE.ltb scale (IEEE.of_Z f64 0) = false ->
  keeps_dims image
    (do noise <- NoiseGradient.gaussian_noise rng scale image;
     Ok (NoiseGradient.add_noise undef image noise)).
Proof.
  intros Hwf Hsc. unfold NoiseGradient.gaussian_noise, NPRandom.normal.
  rewrite Hsc. cbn [bind]. eexists. split; [reflexivity|].
  apply add_noise_dims, Hwf.
Qed.

Lemma round_aux_sign prec emax s m e l :
  match binary_round_aux prec emax s m e l with
  | S754_zero s' | S754_finite s' _ _ | S754_infinity s' => s' = s
  | S754_nan => True
  end.
Proof.
  unfold binary_round_aux.
  destruct (shr_fexp prec emax m e l) as [mrs' e'].
  destruct (shr_fexp prec emax _ e' loc_Exact) as [mrs'' e''].
  destruct (shr_m mrs''); try exact I; try reflexivity.
  destruct (e'' <=? emax - prec); reflexivity.
Qed.

Lemma mul64_nonneg x y :
  nonnegb x = true -> nonnegb y = true ->
  IEEE.is_finite (IEEE.mul f64 x y) = true ->
  nonnegb (IEEE.mul f64 x y) = true.
Proof.
  destruct x as [sx|sx| |sx mx ex], y as [sy|sy| |sy my ey];
    try discriminate; try reflexivity.
  destruct sx, sy; try discriminate. intros _ _.
  unfold IEEE.mul, SFmul. cbn [xorb].
  match goal with
  | |- context [binary_round_aux ?p ?em false ?m ?e ?l] =>
      pose proof (round_aux_sign p em false m e l) as H;
        destruct (binary_round_aux p em false m e l)
  end; simpl in *; subst; try discriminate; reflexivity.
Qed.

Lemma of_Z_uint8_nonneg v :
  0 <= v <= 255 -> nonnegb (IEEE.of_Z f64 v) = true.
Proof.
  intros Hv. pose proof (of_Z_uint8_finite v Hv) as Hf.
  destruct v as [|p|p]; [reflexivity| |lia].
  pose proof (normalize_pos_signed 53 1024 ltac:(lia) p false
                ltac:(unfold emin; lia)) as Hs.
  unfold IEEE.of_Z in *. cbn [IEEE.prec IEEE.emax IEEE.binary64] in *.
  destruct (binary_normalize 53 1024 (Z.pos p) 0 false);
    simpl in *; subst; try discriminate; try contradiction; reflexivity.
Qed.

Lemma poisson_rate_ok v i :
  0 <= v <= 255 -> 0 <= i <= 99 ->
  nonnegb
    (IEEE.mul f64
       (IEEE.mul f64 (NoiseGradient.flt v) (NoiseGradient.gradient_intensity i))
       (NoiseGradient.lit 1 1)) = true.
Proof.
  intros Hv Hi.
  pose proof (forallb_zrange _ 0 100 i intensity_all ltac:(lia)) as H.
  unfold intensity_ok in H. cbv zeta in H.
  repeat (apply andb_prop in H; destruct H as [H ?]).
  assert (Hflt : IEEE.smallb 9 (NoiseGradient.flt v) = true)
    by (apply (small_normalize 53 1024 ltac:(lia) 8); unfold emin; lia).
  pose proof (mul64_small 9 1 _ _ Hflt H ltac:(lia) ltac:(lia)) as Hm1.
  assert (Hlit : IEEE.smallb 1 (NoiseGradient.lit 1 1) = true) by reflexivity.
  pose proof (mul64_small _ 1 _ _ Hm1 Hlit ltac:(lia) ltac:(lia)) as Hm2.
  apply mul64_nonneg.
  - apply mul64_nonneg; [apply of_Z_uint8_nonneg, Hv|assumption|].
    apply (small_finite _ _ Hm1).
  - reflexivity.
  - apply (small_finite _ _ Hm2).
Qed.

Lemma sequence_mapi_ok {A B} (f : nat -> A -> result B) l : forall k,
  (forall i v, In v l -> exists y, f i v = Ok y) ->
  exists ys,
    NoiseGradient.sequence (NDArray.mapi_from k f l) = Ok ys /\
    List.length ys = List.length l.
Proof.
  induction l as [|x l IH]; intros k Hf.
  - exists []. split; reflexivity.
  - cbn [NDArray.mapi_from NoiseGradient.sequence].
    destruct (Hf k x ltac:(left; reflexivity)) as [y ->]. cbn [bind].
    destruct (IH (S k) ltac:(intros i v Hv; apply Hf; right; exact Hv))
      as (ys & -> & Hlen).
    cbn [bind]. exists (y :: ys). split; [reflexivity|]. simpl. lia.
Qed.

Lemma poisson_dims undef rng image i :
  NDArray.wf image -> NDArray.is_uint8 image -> 0 <= i <= 99 ->
  keeps_dims image
    (NoiseGradient.apply_poisson_noise undef rng image
       (NoiseGradient.gradient_intensity i)).
Proof.
  intros Hwf Himg Hi.
  unfold NoiseGradient.apply_poisson_noise, NoiseGradient.poisson_clipped.
  destruct (sequence_mapi_ok
              (NoiseGradient.poisson_clipped1 rng
                 (NoiseGradient.gradient_intensity i))
              (NDArray.data image) 0%nat) as (ys & -> & Hlen).
  - intros k v Hv. unfold NoiseGradient.poisson_clipped1.
    unfold NDArray.is_uint8 in Himg. rewrite Forall_forall in Himg.
    pose proof (poisson_rate_ok v i (Himg v Hv) Hi) as Hr.
    unfold NPRandom.poisson1.
    destruct (IEEE.mul f64 _ (NoiseGradient.lit 1 1)) as [s|s| |[|] m e];
      try discriminate; cbn [bind]; eexists; reflexivity.
  - cbn [bind]. eexists. split; [reflexivity|]. split; [reflexivity|].
    unfold NDArray.wf, astype_uint8, NDArray.map in *.
    cbn [NDArray.shape NDArray.data]. rewrite length_map. congruence.
Qed.

Lemma resize_dims nearest_at image h w sz :
  NDArray.shape image = [h; w; 3%nat] -> NDArray.wf image ->
  NDArray.shape (PIL.resize_NEAREST nearest_at image sz) =
    [snd sz; fst sz; 3%nat] /\
  NDArray.wf (PIL.resize_NEAREST nearest_at image sz).
Proof.
  intros Hs Hwf. unfold PIL.resize_NEAREST, PIL.size. rewrite Hs.
  cbn [fst snd].
  destruct (Nat.eqb_spec (fst sz) w) as [E1|E1];
    destruct (Nat.eqb_spec (snd sz) h) as [E2|E2]; cbn [andb];
    try (split; [reflexivity|apply wf_tabulate]).
  split; [congruence|exact Hwf].
Qed.

Lemma pixelate_dims nearest_at image h w small_size :
  NDArray.shape image = [h; w; 3%nat] -> NDArray.wf image ->
  same_dims image
    (PIL.resize_NEAREST nearest_at
       (PIL.resize_NEAREST nearest_at image small_size) (PIL.size image)).
Proof.
  intros Hs Hwf.
  destruct (resize_dims nearest_at image h w small_size Hs Hwf) as [Hs1 Hwf1].
  destruct (resize_dims nearest_at _ _ _ (PIL.size image) Hs1 Hwf1)
    as [Hs2 Hwf2].
  split; [|exact Hwf2]. rewrite Hs2. unfold PIL.size. rewrite Hs. reflexivity.
Qed.

Lemma py_int_finite x :
  IEEE.is_finite x = true -> exists z, py_int x = Ok z.
Proof.
  unfold py_int. destruct x; try discriminate; intros _; eexists; reflexivity.
Qed.

Lemma length_grey_pixels l :
  List.length (PIL.grey_pixels l) = List.length l.
Proof.
  assert (H : forall n l, (List.length l <= n)%nat ->
            List.length (PIL.grey_pixels l) = List.length l).
  { induction n as [|n IH]; intros l0 Hl.
    - destruct l0; [reflexivity|simpl in Hl; lia].
    - destruct l0 as [|a [|b [|c l0]]]; try reflexivity.
      cbn [PIL.grey_pixels]. simpl. rewrite IH; [reflexivity|].
      simpl in Hl. lia. }
  apply (H (List.length l)). lia.
Qed.

Lemma blend_dims undef degenerate image factor :
  NDArray.wf image -> same_dims image degenerate ->
  same_dims image (PIL.blend undef degenerate image factor).
Proof.
  intros Hwf [Hs Hd]. unfold PIL.blend. cbv zeta.
  destruct (SFeqb _ _); [split; assumption|].
  destruct (SFeqb _ _); [apply same_dims_refl, Hwf|].
  split; [exact Hs|].
  unfold NDArray.wf in *. cbn [NDArray.shape NDArray.data].
  rewrite length_zip_with; [exact Hd|]. congruence.
Qed.

Lemma contrast_degenerate_dims undef image :
  NDArray.wf image ->
  same_dims image (PIL.contrast_degenerate undef image).
Proof.
  intros Hwf. unfold PIL.contrast_degenerate.
  destruct (if PIL.is_rgb image then _ else _) as [s n].
  apply same_dims_map, Hwf.
Qed.

Lemma color_degenerate_dims image :
  NDArray.wf image -> same_dims image (PIL.color_degenerate image).
Proof.
  intros Hwf. unfold PIL.color_degenerate.
  destruct (PIL.is_rgb image); [|apply same_dims_refl, Hwf].
  split; [reflexivity|]. unfold NDArray.wf in *.
  cbn [NDArray.shape NDArray.data]. rewrite length_grey_pixels. exact Hwf.
Qed.

Lemma length_transform_pixels undef m severity : forall k l,
  List.length l = (3 * k)%nat ->
  List.length (ColorBlind.transform_pixels undef m severity l) = List.length l.
Proof.
  induction k as [|k IH]; intros l Hlen.
  - destruct l; [reflexivity|simpl in Hlen; lia].
  - destruct l as [|r [|g [|b l]]]; try (simpl in Hlen; lia).
    cbn [ColorBlind.transform_pixels].
    destruct (ColorBlind.transform_pixel _ _ _ _) as [[x y] z].
    simpl. rewrite (IH l); [reflexivity|simpl in Hlen; lia].
Qed.

Lemma colorblind_dims undef image m severity h w :
  NDArray.shape image = [h; w; 3%nat] -> NDArray.wf image ->
  keeps_dims image
    (ColorBlind.apply_colorblindness_matrix undef image m severity).
Proof.
  intros Hs Hwf.
  rewrite apply_colorblindness_matrix_rgb by (exists h, w; exact Hs).
  eexists. split; [reflexivity|]. split; [reflexivity|].
  unfold NDArray.wf in *. cbn [NDArray.shape NDArray.data].
  rewrite (length_transform_pixels undef m severity (h * w)%nat); [exact Hwf|].
  rewrite Hwf, Hs. simpl. lia.
Qed.

Lemma transformations_dims undef gaussian_blur_at nearest_at rng py_random
    t image i h w :
  NDArray.shape image = [h; w; 3%nat] -> NDArray.wf image ->
  NDArray.is_uint8 image -> 0 <= i <= 99 ->
  keeps_dims image
    (NoiseGradient.transformations undef gaussian_blur_at nearest_at rng
       py_random t image (NoiseGradient.gradient_intensity i)).
Proof.
  intros Hs Hwf Himg Hi.
  pose proof (forallb_zrange _ 0 100 i intensity_all ltac:(lia)) as H.
  unfold intensity_ok in H. cbv zeta in H.
  repeat (apply andb_prop in H; destruct H as [H ?]).
  destruct t; cbn [NoiseGradient.transformations].
  - apply gaussian_dims; [exact Hwf|].
    match goal with K : negb (IEEE.ltb (IEEE.mul f64 _ (IEEE.of_Z f64 50)) _) = true |- _ =>
      apply negb_true_iff in K; exact K end.
  - eexists. split; [reflexivity|].
    unfold NoiseGradient.apply_salt_pepper_noise. cbv zeta.
    eapply same_dims_trans; [apply same_dims_mapi, Hwf|].
    apply same_dims_mapi. apply (same_dims_mapi _ image Hwf).
  - apply poisson_dims; assumption.
  - eexists. split; [reflexivity|]. apply same_dims_mapi, Hwf.
  - eexists. split; [reflexivity|].
    unfold NoiseGradient.apply_blur_effect, PIL.filter_GaussianBlur.
    apply same_dims_tabulate.
  - unfold NoiseGradient.apply_pixelation.
    match goal with K : IEEE.is_finite (IEEE.mul f64 _ (IEEE.of_Z f64 50)) = true |- _ =>
      destruct (py_int_finite _ K) as [z Hz] end.
    unfold NoiseGradient.flt. rewrite Hz. cbn [bind].
    eexists. split; [reflexivity|]. cbv zeta.
    apply (pixelate_dims nearest_at image h w); assumption.
  - unfold NoiseGradient.apply_color_shift. cbv zeta. rewrite Hs.
    cbn [Nat.leb]. eexists. split; [reflexivity|].
    unfold NDArray.update_channel.
    eapply same_dims_trans; [apply same_dims_mapi, Hwf|].
    eapply same_dims_trans; [apply same_dims_mapi; apply (same_dims_mapi _ image Hwf)|].
    apply same_dims_mapi.
    apply (same_dims_mapi _ _ (proj2 (same_dims_mapi _ image Hwf))).
  - eexists. split; [reflexivity|].
    apply blend_dims; [exact Hwf|apply contrast_degenerate_dims, Hwf].
  - eexists. split; [reflexivity|].
    apply blend_dims; [exact Hwf|apply same_dims_map, Hwf].
  - eexists. split; [reflexivity|].
    apply blend_dims; [exact Hwf|apply color_degenerate_dims, Hwf].
Qed.

Lemma fast_noise_dims undef nearest_at rng image level h w :
  NDArray.shape image = [h; w; 3%nat] -> NDArray.wf image ->
  0 <= level <= 99 ->
  keeps_dims image (FastNoise.apply_noise_gradient undef rng image level) /\
  keeps_dims image (FastNoise.apply_pixel_manipulation nearest_at image level).
Proof.
  intros Hs Hwf Hl.
  pose proof (forallb_zrange _ 0 100 level intensity_all ltac:(lia)) as H.
  unfold intensity_ok in H. cbv zeta in H.
  repeat (apply andb_prop in H; destruct H as [H ?]).
  split.
  - unfold FastNoise.apply_noise_gradient. cbv zeta.
    apply gaussian_dims; [exact Hwf|].
    match goal with K : negb (IEEE.ltb (IEEE.mul f64 _ (IEEE.of_Z f64 25)) _) = true |- _ =>
      apply negb_true_iff in K; exact K end.
  - unfold FastNoise.apply_pixel_manipulation. cbv zeta.
    match goal with K : IEEE.is_finite (IEEE.mul f64 _ (IEEE.of_Z f64 20)) = true |- _ =>
      destruct (py_int_finite _ K) as [z Hz] end.
    change (FastNoise.intensity level)
      with (NoiseGradient.gradient_intensity level).
    rewrite Hz. cbn [bind]. eexists. split; [reflexivity|].
    apply (pixelate_dims nearest_at image h w); assumption.
Qed.

(** C10: every degradation transform returns an image with the width,
    height and channel count of its input, at every level of the valid
    range: the six levelled degradations (resolution loss resizes its
    downsampled intermediate back to the original size), the ten
    transforms of the noise generator at each of its hundred intensities
    (pixelation included), the two transforms of the fast generator and
    the colour-vision simulations at any severity. *)
Theorem transforms_keep_dimensions :
  forall (undef : spec_float -> Z)
         (gaussian_blur_at : spec_float -> ndarray Z -> nat -> Z)
         (resize_at : VisualDegradation.interpolation -> ndarray Z ->
                      nat * nat -> nat -> Z)
         (bgr2hsv hsv2bgr : Z * Z * Z -> Z * Z * Z)
         (nearest_at : PIL.Image -> nat * nat -> nat -> Z)
         (rng : NPRandom.source) (py_random : nat -> spec_float)
         (image : ndarray Z) (h w : nat),
    NDArray.shape image = [h; w; 3%nat] ->
    (0 < h)%nat -> (0 < w)%nat ->
    Z.of_nat h < 2 ^ 31 -> Z.of_nat w < 2 ^ 31 ->
    NDArray.wf image ->
    NDArray.is_uint8 image ->
    (forall t level, 0 <= level <= 100 ->
       keeps_dims image
         (VisualDegradation.degradation_methods undef gaussian_blur_at
            resize_at bgr2hsv hsv2bgr t image level)) /\
    (forall t i, 0 <= i <= 99 ->
       keeps_dims image
         (NoiseGradient.transformations undef gaussian_blur_at nearest_at rng
            py_random t image (NoiseGradient.gradient_intensity i))) /\
    (forall level, 0 <= level <= 99 ->
       keeps_dims image (FastNoise.apply_noise_gradient undef rng image level) /\
       keeps_dims image
         (FastNoise.apply_pixel_manipulation nearest_at image level)) /\
    (forall t severity improved,
       keeps_dims image
         (ColorBlind.simulation_functions undef t image severity improved)).
Proof.
  intros undef gaussian_blur_at resize_at bgr2hsv hsv2bgr nearest_at rng
    py_random image h w Hs Hh Hw Hh31 Hw31 Hwf Himg.
  split; [|split; [|split]].
  - intros t level Hl. apply (degradation_methods_dims _ _ _ _ _ _ _ _ h w);
      assumption.
  - intros t i Hi. apply (transformations_dims _ _ _ _ _ _ _ _ h w);
      assumption.
  - intros level Hl. apply (fast_noise_dims _ _ _ _ _ h w); assumption.
  - intros t severity improved.
    assert (H : ColorBlind.simulation_functions undef t image severity improved =
                ColorBlind.apply_colorblindness_matrix undef image
                  (ColorBlind.matrix_of t improved) severity)
      by (destruct t, improved; reflexivity).
    rewrite H. apply (colorblind_dims _ _ _ _ h w); assumption.
Qed.

Lemma transforms_keep_dimensions_witness :
  let image :=
    NDArray.mk [1%nat; 2%nat; 3%nat] [200; 100; 50; 10; 20; 30] in
  keeps_dims image
    (VisualDegradation.degradation_methods (fun _ => 0) (fun _ _ _ => 0)
       (fun _ _ _ _ => 0) (fun p => p) (fun p => p)
       VisualDegradation.resolution image 100) /\
  keeps_dims image
    (NoiseGradient.transformations (fun _ => 0) (fun _ _ _ => 0)
       (fun _ _ _ => 0)
       (NPRandom.mk (fun _ => S754_zero false) (fun _ => S754_zero false)
          (fun _ _ => 0))
       (fun _ => S754_zero false) NoiseGradient.pixelation image
       (NoiseGradient.gradient_intensity 99)).
Proof.
  intros image.
  pose proof
    (transforms_keep_dimensions (fun _ => 0) (fun _ _ _ => 0)
       (fun _ _ _ _ => 0) (fun p => p) (fun p => p) (fun _ _ _ => 0)
       (NPRandom.mk (fun _ => S754_zero false) (fun _ => S754_zero false)
          (fun _ _ => 0))
       (fun _ => S754_zero false) image 1%nat 2%nat
       ltac:(reflexivity) ltac:(lia) ltac:(lia) ltac:(lia) ltac:(lia)
       ltac:(reflexivity)
       ltac:(unfold NDArray.is_uint8; simpl; repeat constructor; lia)) as H.
  split.
  - apply (proj1 H). lia.
  - apply (proj1 (proj2 H)). lia.
Defined.

(** ** Recovery thresholds and failed calls *)

Lemma recovery_scan_true l : forall s,
  ColorEval.recovery_scan true l = Some s <->
  exists l2 q l3,
    l = l2 ++ q :: l3 /\ Forall (fun x => ~ succeeded x) l2 /\
    succeeded q /\ s = ColorEval.severity q.
Proof.
  unfold succeeded.
  induction l as [|x l IH]; intros s; simpl.
  - split; [discriminate|]. intros (l2 & q & l3 & H & _). destruct l2; discriminate.
  - split.
    + destruct (ColorEval.success x) as [[|]|] eqn:Ex.
      * intros [= <-]. exists [], x, l. repeat split; auto.
      * intros H. apply IH in H. destruct H as (l2 & q & l3 & -> & Hl2 & Hq & ->).
        exists (x :: l2), q, l3. repeat split; auto.
        constructor; [rewrite Ex; discriminate|exact Hl2].
      * intros H. apply IH in H. destruct H as (l2 & q & l3 & -> & Hl2 & Hq & ->).
        exists (x :: l2), q, l3. repeat split; auto.
        constructor; [rewrite Ex; discriminate|exact Hl2].
    + intros (l2 & q & l3 & H & Hl2 & Hq & ->).
      destruct l2 as [|y l2]; simpl in H; injection H as -> ->.
      * rewrite Hq. reflexivity.
      * inversion Hl2 as [|? ? Hy Hl2']; subst.
        assert (Hr : ColorEval.recovery_scan true (l2 ++ q :: l3) =
                     Some (ColorEval.severity q))
          by (apply IH; exists l2, q, l3; auto).
        destruct (ColorEval.success y) as [[|]|]; auto. contradiction Hy. reflexivity.
Qed.

Lemma recovery_scan_false l : forall s,
  ColorEval.recovery_scan false l = Some s <->
  exists l1 p l2 q l3,
    l = l1 ++ p :: l2 ++ q :: l3 /\
    Forall (fun x => ~ failed x) l1 /\ failed p /\
    Forall (fun x => ~ succeeded x) l2 /\ succeeded q /\
    s = ColorEval.severity q.
Proof.
  unfold failed.
  induction l as [|x l IH]; intros s; simpl.
  - split; [discriminate|]. intros (l1 & p & l2 & q & l3 & H & _).
    destruct l1; discriminate.
  - split.
    + destruct (ColorEval.success x) as [[|]|] eqn:Ex.
      * intros H. apply IH in H.
        destruct H as (l1 & p & l2 & q & l3 & -> & Hl1 & Hp & Hl2 & Hq & ->).
        exists (x :: l1), p, l2, q, l3. repeat split; auto.
        constructor; [rewrite Ex; discriminate|exact Hl1].
      * intros H. apply recovery_scan_true in H.
        destruct H as (l2 & q & l3 & -> & Hl2 & Hq & ->).
        exists [], x, l2, q, l3. repeat split; auto.
      * intros H. apply IH in H.
        destruct H as (l1 & p & l2 & q & l3 & -> & Hl1 & Hp & Hl2 & Hq & ->).
        exists (x :: l1), p, l2, q, l3. repeat split; auto.
        constructor; [rewrite Ex; discriminate|exact Hl1].
    + intros (l1 & p & l2 & q & l3 & H & Hl1 & Hp & Hl2 & Hq & ->).
      destruct l1 as [|y l1]; simpl in H; injection H as -> ->.
      * rewrite Hp. apply recovery_scan_true. exists l2, q, l3. repeat split; auto.
      * inversion Hl1 as [|? ? Hy Hl1']; subst.
        assert (Hr : ColorEval.recovery_scan false (l1 ++ p :: l2 ++ q :: l3) =
                     Some (ColorEval.severity q))
          by (apply IH; exists l1, p, l2, q, l3; repeat split; auto).
        destruct (ColorEval.success y) as [[|]|]; auto. contradiction Hy. reflexivity.
Qed.

(** X1: the colour-blindness evaluator reports a recovery threshold
    exactly when some answered prediction failed and a later one
    succeeded; the threshold is then the severity of the first success
    after the first failure, and the failure threshold of the same
    sequence is the severity of that first failure. *)
Theorem recovery_threshold_after_first_failure :
  forall (predictions : list ColorEval.pred) (s : spec_float),
    ColorEval.find_recovery_threshold predictions = Some s <->
    exists l1 p l2 q l3,
      predictions = l1 ++ p :: l2 ++ q :: l3 /\
      Forall (fun x => ~ failed x) l1 /\ failed p /\
      Forall (fun x => ~ succeeded x) l2 /\ succeeded q /\
      s = ColorEval.severity q /\
      ColorEval.find_failure_threshold predictions = ColorEval.severity p.
Proof.
  intros l s. unfold ColorEval.find_recovery_threshold.
  rewrite recovery_scan_false. split.
  - intros (l1 & p & l2 & q & l3 & -> & Hl1 & Hp & Hl2 & Hq & ->).
    exists l1, p, l2, q, l3. repeat split; auto.
    apply find_failure_threshold_first; assumption.
  - intros (l1 & p & l2 & q & l3 & -> & Hl1 & Hp & Hl2 & Hq & -> & _).
    exists l1, p, l2, q, l3. repeat split; auto.
Qed.

Lemma recovery_scan_answered l : forall b,
  ColorEval.recovery_scan b (filter answered l) = ColorEval.recovery_scan b l.
Proof.
  induction l as [|x l IH]; intros b; [reflexivity|].
  simpl. unfold answered at 1.
  destruct (ColorEval.success x) as [[|]|] eqn:Ex; simpl; rewrite ?Ex, ?IH; reflexivity.
Qed.

(** X2: predictions whose model call raised (entries without a
    [success] key) change neither threshold: both are the thresholds
    of the answered predictions alone. *)
Theorem thresholds_ignore_failed_calls :
  forall predictions : list ColorEval.pred,
    ColorEval.find_failure_threshold (filter answered predictions) =
    ColorEval.find_failure_threshold predictions /\
    ColorEval.find_recovery_threshold (filter answered predictions) =
    ColorEval.find_recovery_threshold predictions.
Proof.
  intros l. split; [|apply recovery_scan_answered].
  unfold ColorEval.find_failure_threshold.
  induction l as [|x l IH]; [reflexivity|].
  simpl. unfold answered at 1.
  destruct (ColorEval.success x) as [[|]|] eqn:Ex; simpl; rewrite ?Ex; simpl; auto.
Qed.

(** ** Gradient sequences of the colour-blindness evaluator *)

Lemma div_core_self m e :
  SFdiv_core_binary 53 1024 (Z.pos m) e (Z.pos m) e = (2 ^ 53, -53, loc_Exact).
Proof.
  unfold SFdiv_core_binary.
  replace (Zdigits2 (Z.pos m) + e - (Zdigits2 (Z.pos m) + e)) with 0 by lia.
  rewrite Z.sub_diag.
  change (Z.min (fexp 53 1024 0) 0) with (-53).
  change (0 - -53) with 53. cbv beta iota zeta.
  rewrite Z.shiftl_mul_pow2 by lia.
  pose proof (Z.div_eucl_eq (Z.pos m * 2 ^ 53) (Z.pos m) ltac:(lia)) as H.
  pose proof (Z.mod_pos_bound (Z.pos m * 2 ^ 53) (Z.pos m) ltac:(lia)) as Hb.
  unfold Z.modulo in Hb.
  destruct (Z.div_eucl (Z.pos m * 2 ^ 53) (Z.pos m)) as [q r].
  assert (Hq : q = 2 ^ 53) by nia.
  assert (Hr : r = 0) by nia.
  subst q r. unfold new_location.
  destruct (Z.even (Z.pos m)); reflexivity.
Qed.

(** A finite non-zero binary64 float divided by itself is exactly 1. *)
Lemma div_self s m e :
  IEEE.div f64 (S754_finite s m e) (S754_finite s m e) = IEEE.of_Z f64 1.
Proof.
  unfold IEEE.div. cbn [IEEE.prec IEEE.emax IEEE.binary64 SFdiv].
  rewrite div_core_self. rewrite xorb_nilpotent. vm_compute. reflexivity.
Qed.

(** A positive integer below [2^53] divided by itself, in binary64. *)
Lemma div_self_of_Z n :
  0 < n < 2 ^ 53 ->
  IEEE.div f64 (IEEE.of_Z f64 n) (IEEE.of_Z f64 n) = IEEE.of_Z f64 1.
Proof.
  intros Hn. destruct n as [|p|p]; try lia.
  pose proof (normalize_pos_signed 53 1024 ltac:(lia) p false
                ltac:(unfold emin; lia)) as Hs.
  pose proof (small_normalize 53 1024 ltac:(lia) 53 (Z.pos p) false
                ltac:(lia) ltac:(lia) ltac:(unfold emin; lia) ltac:(lia)) as Hb.
  apply small_finite in Hb. unfold IEEE.of_Z at 1 2.
  cbn [IEEE.prec IEEE.emax IEEE.binary64].
  destruct (binary_normalize 53 1024 (Z.pos p) 0 false) as [z|z| |z m e];
    simpl in Hs, Hb; try contradiction; try discriminate.
  apply div_self.
Qed.

Section SequenceFacts.
Variable is_prediction_correct : string -> string -> bool.
Variable model_predict_func : string -> ColorEval.call.
Variable expected_answer : string.
Variable confidence_threshold : spec_float.

Let steps :=
  ColorEval.evaluate_steps is_prediction_correct model_predict_func.
Let sequence :=
  ColorEval.evaluate_colorblind_sequence is_prediction_correct
    model_predict_func.

Lemma evaluate_steps_defined n files : forall step,
  (n - 1 <> 0)%nat ->
  exists ps,
    steps n expected_answer confidence_threshold step files = Ok ps /\
    List.map ColorEval.step ps = seq step (List.length files) /\
    List.map ColorEval.severity ps =
    List.map (step_severity n) (seq step (List.length files)) /\
    List.map answered ps = List.map (returned model_predict_func) files.
Proof.
  intros step Hn. revert step.
  induction files as [|f files IH]; intros step.
  - exists []. repeat split; reflexivity.
  - destruct (IH (S step)) as (ps & Hps & H1 & H2 & H3).
    unfold steps in *. cbn [ColorEval.evaluate_steps].
    unfold ColorEval.evaluate_step.
    destruct (Nat.eqb (n - 1) 0) eqn:E; [apply Nat.eqb_eq in E; contradiction|].
    destruct (model_predict_func f) as [|prediction confidence] eqn:Ef;
      cbn [bind]; rewrite Hps; cbn [bind]; eexists; (split; [reflexivity|]);
      cbn [List.map List.length seq ColorEval.step ColorEval.severity];
      unfold returned at 1; rewrite Ef, H1, H2, H3; repeat split; reflexivity.
Qed.
End SequenceFacts.

(** X3: the evaluation of a gradient sequence of exactly one file
    raises ZeroDivisionError, whatever the model does (the severity
    [0 / 0] is computed outside the try block); on every other
    sequence it returns one prediction per file, numbered from 0 in
    file order, and a prediction lacks its [success] key exactly when
    the model call raised. *)
Theorem sequence_one_prediction_per_file :
  forall (is_prediction_correct : string -> string -> bool)
         (model_predict_func : string -> ColorEval.call)
         (gradient_files : list string) (expected_answer : string)
         (confidence_threshold : spec_float),
    (List.length gradient_files = 1%nat ->
     ColorEval.evaluate_colorblind_sequence is_prediction_correct
       model_predict_func gradient_files expected_answer
       confidence_threshold = Raise ZeroDivisionError) /\
    (List.length gradient_files <> 1%nat ->
     exists r,
       ColorEval.evaluate_colorblind_sequence is_prediction_correct
         model_predict_func gradient_files expected_answer
         confidence_threshold = Ok r /\
       ColorEval.total_steps r = List.length gradient_files /\
       List.map ColorEval.step (ColorEval.predictions r) =
       seq 0 (List.length gradient_files) /\
       List.map answered (ColorEval.predictions r) =
       List.map (returned model_predict_func) gradient_files).
Proof.
  intros ipc mpf files expected thr. split.
  - intros Hn. destruct files as [|f [|g files]]; try discriminate. reflexivity.
  - intros Hn. unfold ColorEval.evaluate_colorblind_sequence.
    destruct files as [|f files].
    + eexists. cbn. repeat split; reflexivity.
    + destruct (evaluate_steps_defined ipc mpf expected thr
                  (List.length (f :: files)) (f :: files) 0%nat)
        as (ps & Hps & H1 & _ & H3).
      { simpl in *. lia. }
      rewrite Hps. cbn [bind]. eexists. split; [reflexivity|].
      cbn [ColorEval.total_steps ColorEval.predictions]. auto.
Qed.

(** X4: over at least two gradient files the prediction of step [k]
    carries the severity [k / (n - 1)] in binary64; it is exactly 0.0 on
    the first file and exactly 1.0 on the last. *)
Theorem sequence_severity_endpoints :
  forall (is_prediction_correct : string -> string -> bool)
         (model_predict_func : string -> ColorEval.call)
         (gradient_files : list string) (expected_answer : string)
         (confidence_threshold : spec_float),
    (2 <= List.length gradient_files)%nat ->
    Z.of_nat (List.length gradient_files) < 2 ^ 53 ->
    exists r first middle last,
      ColorEval.evaluate_colorblind_sequence is_prediction_correct
        model_predict_func gradient_files expected_answer
        confidence_threshold = Ok r /\
      List.map ColorEval.severity (ColorEval.predictions r) =
      List.map (step_severity (List.length gradient_files))
        (seq 0 (List.length gradient_files)) /\
      ColorEval.predictions r = first :: middle ++ [last] /\
      ColorEval.severity first = IEEE.of_Z f64 0 /\
      ColorEval.severity last = IEEE.of_Z f64 1.
Proof.
  intros ipc mpf files expected thr Hn Hb.
  unfold ColorEval.evaluate_colorblind_sequence.
  destruct (evaluate_steps_defined ipc mpf expected thr
              (List.length files) files 0%nat ltac:(lia))
    as (ps & Hps & H1 & H2 & _).
  rewrite Hps. cbn [bind ColorEval.predictions].
  assert (Hlen : List.length ps = List.length files).
  { rewrite <- (length_map ColorEval.step), H1, length_seq. reflexivity. }
  destruct ps as [|first ps]; [simpl in Hlen; lia|].
  destruct (exists_last (l := ps)) as (middle & last & ->).
  { intros ->. simpl in Hlen. lia. }
  eexists _, first, middle, last. split; [reflexivity|].
  cbn [ColorEval.predictions]. split; [exact H2|]. split; [reflexivity|].
  remember (List.length files) as n eqn:En.
  destruct n as [|n]; [lia|]. destruct n as [|n]; [lia|].
  change (seq 0 (S (S n))) with (0%nat :: seq 1 (S n)) in H2.
  rewrite seq_S in H2. cbn [List.map] in H2. rewrite !map_app in H2.
  cbn [List.map] in H2. injection H2 as Hf Hrest.
  apply app_inj_tail in Hrest. destruct Hrest as [_ Hl].
  split.
  - rewrite Hf. unfold step_severity.
    apply (div_zero_by_positive (Z.of_nat (S (S n) - 1))). lia.
  - rewrite Hl. unfold step_severity.
    replace (S (S n) - 1)%nat with (1 + n)%nat by lia.
    apply div_self_of_Z. lia.
Qed.

Lemma sequence_severity_endpoints_witness :
  exists r first middle last,
    ColorEval.evaluate_colorblind_sequence String.eqb
      (fun _ => ColorEval.Returned "7" (IEEE.dec f64 9 1))
      ["s000.png"; "s050.png"; "s100.png"]%string "7" (IEEE.dec f64 5 1) = Ok r /\
    List.map ColorEval.severity (ColorEval.predictions r) =
    List.map (step_severity 3) (seq 0 3) /\
    ColorEval.predictions r = first :: middle ++ [last] /\
    ColorEval.severity first = IEEE.of_Z f64 0 /\
    ColorEval.severity last = IEEE.of_Z f64 1.
Proof.
  apply (sequence_severity_endpoints String.eqb
           (fun _ => ColorEval.Returned "7" (IEEE.dec f64 9 1))
           ["s000.png"; "s050.png"; "s100.png"]%string "7" (IEEE.dec f64 5 1)).
  - simpl. lia.
  - simpl. lia.
Defined.

(** ** The visual-boundary threshold *)

Lemma first_failure_run_skip r l :
  BoundaryEval.success r = true ->
  first_failure_run (r :: l) = first_failure_run l.
Proof.
  intros Hr. cbn [first_failure_run]. rewrite Hr. cbn [negb andb].
  destruct l as [|r2 [|r3 l]]; reflexivity.
Qed.

Lemma first_failure_run_skip2 f r l :
  BoundaryEval.success r = true ->
  first_failure_run (f :: r :: l) = first_failure_run l.
Proof.
  intros Hr. rewrite <- (first_failure_run_skip r l Hr).
  cbn [first_failure_run]. rewrite Hr. cbn [negb andb]. rewrite andb_false_r.
  destruct l as [|r3 l]; [reflexivity|]. cbn [andb]. reflexivity.
Qed.

Lemma first_failure_run_skip3 f f' r l :
  BoundaryEval.success r = true ->
  first_failure_run (f :: f' :: r :: l) = first_failure_run l.
Proof.
  intros Hr. rewrite <- (first_failure_run_skip2 f' r l Hr).
  change (first_failure_run (f :: f' :: r :: l))
    with (if (negb (BoundaryEval.success f) && negb (BoundaryEval.success f')
              && negb (BoundaryEval.success r))%bool
          then Some r else first_failure_run (f' :: r :: l)).
  rewrite Hr. cbn [negb]. rewrite andb_false_r. reflexivity.
Qed.

Lemma scan_first_failure_run l :
  BoundaryEval.scan 0 l =
  option_map (fun r => BoundaryEval.level r - 2) (first_failure_run l) /\
  (forall f, BoundaryEval.success f = false ->
     BoundaryEval.scan 1 l =
     option_map (fun r => BoundaryEval.level r - 2) (first_failure_run (f :: l))) /\
  (forall f f', BoundaryEval.success f = false ->
     BoundaryEval.success f' = false ->
     BoundaryEval.scan 2 l =
     option_map (fun r => BoundaryEval.level r - 2)
       (first_failure_run (f :: f' :: l))).
Proof.
  induction l as [|r l (IH0 & IH1 & IH2)].
  - repeat split; reflexivity.
  - split; [|split].
    + cbn [BoundaryEval.scan]. destruct (BoundaryEval.success r) eqn:Er.
      * rewrite first_failure_run_skip by exact Er. exact IH0.
      * change (3 <=? 0 + 1) with false. cbv iota. apply IH1, Er.
    + intros f Hf. cbn [BoundaryEval.scan].
      destruct (BoundaryEval.success r) eqn:Er.
      * rewrite first_failure_run_skip2 by exact Er. exact IH0.
      * change (3 <=? 1 + 1) with false. cbv iota. apply IH2; assumption.
    + intros f f' Hf Hf'. cbn [BoundaryEval.scan].
      destruct (BoundaryEval.success r) eqn:Er.
      * rewrite first_failure_run_skip3 by exact Er. exact IH0.
      * change (3 <=? 2 + 1) with true. cbv iota.
        cbn [first_failure_run]. rewrite Er, Hf, Hf'. reflexivity.
Qed.

Lemma insert_by_level_perm r l :
  Permutation (r :: l) (BoundaryEval.insert_by_level r l).
Proof.
  induction l as [|x l IH]; simpl; [reflexivity|].
  destruct (BoundaryEval.level x <=? BoundaryEval.level r); [|reflexivity].
  rewrite perm_swap. constructor. exact IH.
Qed.

Lemma insert_by_level_sorted r l :
  StronglySorted (fun a b => BoundaryEval.level a <= BoundaryEval.level b) l ->
  StronglySorted (fun a b => BoundaryEval.level a <= BoundaryEval.level b)
    (BoundaryEval.insert_by_level r l).
Proof.
  intros Hs. induction Hs as [|x l Hs IH Hx]; simpl.
  - repeat constructor.
  - destruct (BoundaryEval.level x <=? BoundaryEval.level r) eqn:E.
    + constructor; [exact IH|].
      apply Z.leb_le in E.
      eapply Permutation_Forall; [apply insert_by_level_perm|].
      constructor; assumption.
    + apply Z.leb_gt in E. constructor.
      * constructor; assumption.
      * constructor; [lia|].
        eapply Forall_impl; [|exact Hx]. intros a Ha. simpl in Ha. lia.
Qed.

Lemma sorted_by_level_spec l :
  Permutation l (BoundaryEval.sorted_by_level l) /\
  StronglySorted (fun a b => BoundaryEval.level a <= BoundaryEval.level b)
    (BoundaryEval.sorted_by_level l).
Proof.
  unfold BoundaryEval.sorted_by_level.
  assert (H : forall acc,
            StronglySorted
              (fun a b => BoundaryEval.level a <= BoundaryEval.level b) acc ->
            Permutation (acc ++ l)
              (fold_left (fun acc r => BoundaryEval.insert_by_level r acc) l acc) /\
            StronglySorted
              (fun a b => BoundaryEval.level a <= BoundaryEval.level b)
              (fold_left (fun acc r => BoundaryEval.insert_by_level r acc) l acc)).
  { induction l as [|x l IH]; intros acc Hacc; simpl.
    - rewrite app_nil_r. split; [reflexivity|exact Hacc].
    - destruct (IH (BoundaryEval.insert_by_level x acc)
                  (insert_by_level_sorted x acc Hacc)) as [Hp Hs].
      split; [|exact Hs].
      rewrite <- Hp. rewrite <- insert_by_level_perm.
      symmetry. apply Permutation_middle. }
  apply (H []). constructor.
Qed.

(** X5: the visual-boundary evaluator examines the results in
    ascending level order (a reordering of the input) and reports a
    threshold exactly when three consecutive results of that order
    failed: the threshold is the level of the third result of the
    first such window, minus 2, and there is none when no window of
    three consecutive failures exists. *)
Theorem boundary_threshold_is_first_failure_run :
  forall results : list BoundaryEval.TestResult,
    Permutation results (BoundaryEval.sorted_by_level results) /\
    StronglySorted (fun a b => BoundaryEval.level a <= BoundaryEval.level b)
      (BoundaryEval.sorted_by_level results) /\
    BoundaryEval.failure_threshold
      (BoundaryEval.find_failure_threshold results) =
    option_map (fun r => BoundaryEval.level r - 2)
      (first_failure_run (BoundaryEval.sorted_by_level results)).
Proof.
  intros results.
  destruct (sorted_by_level_spec results) as [Hp Hs].
  split; [exact Hp|]. split; [exact Hs|].
  unfold BoundaryEval.find_failure_threshold.
  cbn [BoundaryEval.failure_threshold].
  apply scan_first_failure_run.
Qed.

(** ** complete_50_illusions_final.py: interpolation weights *)

Section WeightFacts.
Variable np_exp np_log np_sin : spec_float -> spec_float.
Variable beta_draws : nat -> spec_float.
Variable gradient_count : Z.

Let curve := Illusions.curve np_exp np_log np_sin beta_draws gradient_count.
Let param_value :=
  Illusions.param_value np_exp np_log np_sin beta_draws gradient_count.
Let gen_params :=
  Illusions.gen_params np_exp np_log np_sin beta_draws gradient_count.

Lemma param_value_inner i lo hi drawn :
  i <> 0 -> i <> gradient_count - 1 ->
  param_value i lo hi drawn =
  (interpolate lo hi (clamped (fst (curve i drawn))), snd (curve i drawn)).
Proof.
  intros H0 H1. unfold param_value, Illusions.param_value.
  destruct (i =? 0) eqn:E0; [apply Z.eqb_eq in E0; contradiction|].
  destruct (i =? gradient_count - 1) eqn:E1; [apply Z.eqb_eq in E1; contradiction|].
  fold curve. destruct (curve i drawn) as [t d]. reflexivity.
Qed.

Lemma curve_shared i drawn :
  i < 80 -> curve i drawn = (fst (curve i 0%nat), drawn).
Proof.
  intros Hi. unfold curve, Illusions.curve.
  destruct (i <? 20); [reflexivity|].
  destruct (i <? 40); [reflexivity|].
  destruct (i <? 60); [reflexivity|].
  destruct (i <? 80) eqn:E; [reflexivity|]. apply Z.ltb_ge in E. lia.
Qed.

Lemma curve_drawn i drawn :
  80 <= i -> curve i drawn = (beta_draws drawn, S drawn).
Proof.
  intros Hi. unfold curve, Illusions.curve.
  destruct (i <? 20) eqn:E1; [apply Z.ltb_lt in E1; lia|].
  destruct (i <? 40) eqn:E2; [apply Z.ltb_lt in E2; lia|].
  destruct (i <? 60) eqn:E3; [apply Z.ltb_lt in E3; lia|].
  destruct (i <? 80) eqn:E4; [apply Z.ltb_lt in E4; lia|]. reflexivity.
Qed.

Lemma gen_params_shared i ranges : forall drawn,
  i <> 0 -> i <> gradient_count - 1 -> i < 80 ->
  gen_params i ranges drawn =
  (List.map
     (fun '(name, (lo, hi)) =>
        (name, interpolate lo hi (clamped (fst (curve i 0%nat))))) ranges,
   drawn).
Proof.
  intros drawn H0 H1 Hi. revert drawn.
  induction ranges as [|[name [lo hi]] rest IH]; intros drawn; [reflexivity|].
  unfold gen_params in *. cbn [Illusions.gen_params].
  fold param_value. rewrite param_value_inner by assumption.
  rewrite curve_shared by assumption. cbn [fst snd]. rewrite IH. reflexivity.
Qed.

Lemma gen_params_drawn i ranges : forall drawn,
  i <> 0 -> i <> gradient_count - 1 -> 80 <= i ->
  gen_params i ranges drawn =
  (NDArray.mapi_from drawn
     (fun j '(name, (lo, hi)) =>
        (name, interpolate lo hi (clamped (beta_draws j)))) ranges,
   (drawn + List.length ranges)%nat).
Proof.
  intros drawn H0 H1 Hi. revert drawn.
  induction ranges as [|[name [lo hi]] rest IH]; intros drawn.
  - cbn. rewrite Nat.add_0_r. reflexivity.
  - unfold gen_params in *. cbn [Illusions.gen_params].
    fold param_value. rewrite param_value_inner by assumption.
    rewrite curve_drawn by assumption. cbn [fst snd]. rewrite IH.
    cbn [NDArray.mapi_from List.length]. f_equal. lia.
Qed.
End WeightFacts.

Lemma clamped_cases t :
  (clamped t = PyInt 0 /\ IEEE.ltb (IEEE.of_Z f64 0) t = false /\
   IEEE.ltb t (IEEE.of_Z f64 1) = true) \/
  (clamped t = PyInt 1 /\ IEEE.ltb t (IEEE.of_Z f64 1) = false) \/
  (clamped t = PyFloat t /\ IEEE.ltb (IEEE.of_Z f64 0) t = true /\
   IEEE.ltb t (IEEE.of_Z f64 1) = true).
Proof.
  unfold clamped, Py.max, Py.min.
  cbn [Py.lt Py.to_float].
  destruct (IEEE.ltb t (IEEE.of_Z f64 1)) eqn:E1.
  - cbn [Py.lt Py.to_float].
    destruct (IEEE.ltb (IEEE.of_Z f64 0) t) eqn:E0; auto.
  - cbn [Py.lt]. change (0 <? 1) with true. cbv iota. auto.
Qed.

(** X6: at an inner index the gradient sequencer interpolates every
    parameter with a weight clamped into [0, 1], whatever the library
    functions and the random draws return: the weight is the integer 0,
    the integer 1 (also for NaN and every value not below 1), or the
    curve's own float strictly between 0 and 1; with integer bounds an
    integer weight gives exactly the lower or the upper bound. *)
Theorem interpolation_weight_clamped :
  forall (np_exp np_log np_sin : spec_float -> spec_float)
         (beta_draws : nat -> spec_float) (gradient_count i : Z)
         (min_val max_val : pynum) (drawn : nat),
    i <> 0 -> i <> gradient_count - 1 ->
    let t :=
      fst (Illusions.curve np_exp np_log np_sin beta_draws gradient_count
             i drawn) in
    fst (Illusions.param_value np_exp np_log np_sin beta_draws gradient_count
           i min_val max_val drawn) = interpolate min_val max_val (clamped t) /\
    (clamped t = PyInt 0 \/ clamped t = PyInt 1 \/
     (clamped t = PyFloat t /\ IEEE.ltb (IEEE.of_Z f64 0) t = true /\
      IEEE.ltb t (IEEE.of_Z f64 1) = true)) /\
    (IEEE.is_nan t = true -> clamped t = PyInt 1) /\
    (forall lo hi, interpolate (PyInt lo) (PyInt hi) (PyInt 0) = PyInt lo /\
                   interpolate (PyInt lo) (PyInt hi) (PyInt 1) = PyInt hi).
Proof.
  intros np_exp np_log np_sin beta_draws gradient_count i lo hi drawn H0 H1 t.
  split; [|split; [|split]].
  - rewrite (param_value_inner np_exp np_log np_sin beta_draws gradient_count
               i lo hi drawn H0 H1). reflexivity.
  - destruct (clamped_cases t) as [(H & _)|[(H & _)|H]]; auto.
  - intros Hn. destruct t; try discriminate. reflexivity.
  - intros a b. unfold interpolate, Py.add, Py.mul, Py.sub, Py.arith.
    split; f_equal; lia.
Qed.

Lemma interpolation_weight_clamped_witness :
  let t :=
    fst (Illusions.curve (fun x => x) (fun x => x) (fun x => x)
           (fun _ => S754_nan) 100 85 0) in
  fst (Illusions.param_value (fun x => x) (fun x => x) (fun x => x)
         (fun _ => S754_nan) 100 85 (PyInt 10) (PyInt 250) 0) =
  interpolate (PyInt 10) (PyInt 250) (clamped t) /\
  (clamped t = PyInt 0 \/ clamped t = PyInt 1 \/
   (clamped t = PyFloat t /\ IEEE.ltb (IEEE.of_Z f64 0) t = true /\
    IEEE.ltb t (IEEE.of_Z f64 1) = true)) /\
  (IEEE.is_nan t = true -> clamped t = PyInt 1) /\
  (forall lo hi, interpolate (PyInt lo) (PyInt hi) (PyInt 0) = PyInt lo /\
                 interpolate (PyInt lo) (PyInt hi) (PyInt 1) = PyInt hi).
Proof.
  apply (interpolation_weight_clamped (fun x => x) (fun x => x) (fun x => x)
           (fun _ => S754_nan) 100 85 (PyInt 10) (PyInt 250) 0); lia.
Defined.

(** X7: at an inner index below 80 all parameters of a variation share
    one interpolation weight and no random number is drawn; from index
    80 on every parameter takes a fresh beta draw of its own, in the
    order of the parameter dictionary, and the variation keeps the
    parameter names in that order. *)
Theorem variation_weights_shared_or_drawn :
  forall (np_exp np_log np_sin : spec_float -> spec_float)
         (beta_draws : nat -> spec_float) (gradient_count i : Z)
         (ranges : Illusions.param_ranges) (drawn : nat),
    i <> 0 -> i <> gradient_count - 1 ->
    let variation :=
      Illusions.gen_params np_exp np_log np_sin beta_draws gradient_count
        i ranges drawn in
    List.map fst (fst variation) = List.map fst ranges /\
    (i < 80 ->
     variation =
     (List.map
        (fun '(name, (lo, hi)) =>
           (name,
            interpolate lo hi
              (clamped
                 (fst (Illusions.curve np_exp np_log np_sin beta_draws
                         gradient_count i 0%nat))))) ranges,
      drawn)) /\
    (80 <= i ->
     variation =
     (NDArray.mapi_from drawn
        (fun j '(name, (lo, hi)) =>
           (name, interpolate lo hi (clamped (beta_draws j)))) ranges,
      (drawn + List.length ranges)%nat)).
Proof.
  intros np_exp np_log np_sin beta_draws gradient_count i ranges drawn H0 H1
    variation.
  assert (Hs : i < 80 -> variation = _) by
    (intros Hi;
     apply (gen_params_shared np_exp np_log np_sin beta_draws gradient_count
              i ranges drawn H0 H1 Hi)).
  assert (Hd : 80 <= i -> variation = _) by
    (intros Hi;
     apply (gen_params_drawn np_exp np_log np_sin beta_draws gradient_count
              i ranges drawn H0 H1 Hi)).
  split; [|split; assumption].
  destruct (Z_lt_le_dec i 80) as [Hi|Hi].
  - rewrite (Hs Hi). cbn [fst]. rewrite map_map. apply map_ext.
    intros [name [lo hi]]. reflexivity.
  - rewrite (Hd Hi). cbn [fst]. clear. generalize drawn.
    induction ranges as [|[name [lo hi]] rest IH]; intros d; [reflexivity|].
    cbn [NDArray.mapi_from List.map fst]. rewrite IH. reflexivity.
Qed.

Lemma variation_weights_shared_or_drawn_witness :
  let ranges := [("hue", (PyInt 0, PyInt 360));
                 ("saturation", (PyFloat (IEEE.dec f64 3 1),
                                 PyFloat (IEEE.dec f64 10 1)))]%string in
  let beta_draws := fun j => if Nat.even j then IEEE.dec f64 25 2
                             else IEEE.dec f64 75 2 in
  let variation :=
    Illusions.gen_params (fun x => x) (fun x => x) (fun x => x) beta_draws
      100 85 ranges 4 in
  List.map fst (fst variation) = List.map fst ranges /\
  (85 < 80 ->
   variation =
   (List.map
      (fun '(name, (lo, hi)) =>
         (name,
          interpolate lo hi
            (clamped
               (fst (Illusions.curve (fun x => x) (fun x => x) (fun x => x)
                       beta_draws 100 85 0%nat))))) ranges,
    4%nat)) /\
  (80 <= 85 ->
   variation =
   (NDArray.mapi_from 4
      (fun j '(name, (lo, hi)) =>
         (name, interpolate lo hi (clamped (beta_draws j)))) ranges,
    (4 + List.length ranges)%nat)).
Proof.
  intros ranges beta_draws.
  apply (variation_weights_shared_or_drawn (fun x => x) (fun x => x)
           (fun x => x) beta_draws 100 85 ranges 4); lia.
Defined.

(** ** visual_degradation.py: the parameters along the levels *)

Lemma ordered_zrange R (f : Z -> spec_float) n : forall a,
  ordered R (List.map f (zrange a n)) = true ->
  forall x y, Z.of_nat a <= x -> x < y -> y < Z.of_nat a + Z.of_nat n ->
              R (f x) (f y) = true.
Proof.
  induction n as [|n IH]; intros a H x y Hx Hxy Hy; [lia|].
  change (zrange a (S n)) with (Z.of_nat a :: zrange (S a) n) in H.
  cbn [List.map ordered] in H. apply andb_prop in H. destruct H as [H1 H2].
  destruct (Z.eq_dec x (Z.of_nat a)) as [->|Hne].
  - rewrite forallb_forall in H1. apply H1. apply in_map.
    apply zrange_In. lia.
  - apply (IH (S a) H2); lia.
Qed.

Lemma blur_radius_increasing :
  ordered IEEE.ltb (List.map VisualDegradation.blur_radius (zrange 1 100)) = true.
Proof. vm_compute. reflexivity. Qed.

Lemma contrast_factor_decreasing :
  ordered gtb (List.map VisualDegradation.contrast_factor (zrange 1 100)) = true.
Proof. vm_compute. reflexivity. Qed.

Lemma hue_shift_increasing :
  ordered IEEE.ltb (List.map VisualDegradation.hue_shift (zrange 1 100)) = true.
Proof. vm_compute. reflexivity. Qed.

Lemma saturation_factor_increasing :
  ordered IEEE.ltb (List.map VisualDegradation.saturation_factor (zrange 1 100)) = true.
Proof. vm_compute. reflexivity. Qed.

Lemma shift_intensity_increasing :
  ordered IEEE.ltb (List.map VisualDegradation.shift_intensity (zrange 1 100)) = true.
Proof. vm_compute. reflexivity. Qed.

Lemma scale_factor_decreasing :
  ordered gtb (List.map VisualDegradation.scale_factor (zrange 1 100)) = true.
Proof. vm_compute. reflexivity. Qed.

Lemma parameter_ranges_all : forallb parameter_ranges_ok (zrange 1 100) = true.
Proof. vm_compute. reflexivity. Qed.

(** X8: over the levels 1 to 100 the blur radius, the hue shift, the
    saturation factor and the colour-shift intensity strictly increase
    with the level and the contrast factor and the resolution scale
    strictly decrease; they stay in the ranges (0.1, 20], [0.01, 1),
    (-180, 180], (0.1, 3], (0, 1] and [0.05, 1). *)
Theorem degradation_parameters_monotone :
  forall level level' : Z,
    1 <= level -> level < level' -> level' <= 100 ->
    (IEEE.ltb (VisualDegradation.blur_radius level)
       (VisualDegradation.blur_radius level') = true /\
     IEEE.ltb (VisualDegradation.contrast_factor level')
       (VisualDegradation.contrast_factor level) = true /\
     IEEE.ltb (VisualDegradation.hue_shift level)
       (VisualDegradation.hue_shift level') = true /\
     IEEE.ltb (VisualDegradation.saturation_factor level)
       (VisualDegradation.saturation_factor level') = true /\
     IEEE.ltb (VisualDegradation.shift_intensity level)
       (VisualDegradation.shift_intensity level') = true /\
     IEEE.ltb (VisualDegradation.scale_factor level')
       (VisualDegradation.scale_factor level) = true) /\
    (IEEE.ltb (VisualDegradation.lit 1 1) (VisualDegradation.blur_radius level) = true /\
     IEEE.leb (VisualDegradation.blur_radius level') (VisualDegradation.lit 200 1) = true /\
     IEEE.leb (VisualDegradation.lit 1 2) (VisualDegradation.contrast_factor level') = true /\
     IEEE.ltb (VisualDegradation.contrast_factor level) (VisualDegradation.lit 10 1) = true /\
     IEEE.ltb (VisualDegradation.lit (-1800) 1) (VisualDegradation.hue_shift level) = true /\
     IEEE.leb (VisualDegradation.hue_shift level') (VisualDegradation.lit 1800 1) = true /\
     IEEE.ltb (VisualDegradation.lit 1 1) (VisualDegradation.saturation_factor level) = true /\
     IEEE.leb (VisualDegradation.saturation_factor level') (VisualDegradation.lit 30 1) = true /\
     IEEE.ltb (VisualDegradation.lit 0 1) (VisualDegradation.shift_intensity level) = true /\
     IEEE.leb (VisualDegradation.shift_intensity level') (VisualDegradation.lit 10 1) = true /\
     IEEE.leb (VisualDegradation.lit 5 2) (VisualDegradation.scale_factor level') = true /\
     IEEE.ltb (VisualDegradation.scale_factor level) (VisualDegradation.lit 10 1) = true).
Proof.
  intros level level' H1 H2 H3.
  pose proof (forallb_zrange _ 1 100 level parameter_ranges_all ltac:(lia)) as Ha.
  pose proof (forallb_zrange _ 1 100 level' parameter_ranges_all ltac:(lia)) as Hb.
  unfold parameter_ranges_ok in Ha, Hb.
  do 11 (apply andb_prop in Ha; let H' := fresh "Ha" in destruct Ha as [Ha H']).
  do 11 (apply andb_prop in Hb; let H' := fresh "Hb" in destruct Hb as [Hb H']).
  split; [|repeat split; assumption].
  repeat split.
  - exact (ordered_zrange IEEE.ltb VisualDegradation.blur_radius 100 1 blur_radius_increasing level level'
             ltac:(lia) ltac:(lia) ltac:(lia)).
  - exact (ordered_zrange gtb VisualDegradation.contrast_factor 100 1 contrast_factor_decreasing level level'
             ltac:(lia) ltac:(lia) ltac:(lia)).
  - exact (ordered_zrange IEEE.ltb VisualDegradation.hue_shift 100 1 hue_shift_increasing level level'
             ltac:(lia) ltac:(lia) ltac:(lia)).
  - exact (ordered_zrange IEEE.ltb VisualDegradation.saturation_factor 100 1 saturation_factor_increasing level level'
             ltac:(lia) ltac:(lia) ltac:(lia)).
  - exact (ordered_zrange IEEE.ltb VisualDegradation.shift_intensity 100 1 shift_intensity_increasing level level'
             ltac:(lia) ltac:(lia) ltac:(lia)).
  - exact (ordered_zrange gtb VisualDegradation.scale_factor 100 1 scale_factor_decreasing level level'
             ltac:(lia) ltac:(lia) ltac:(lia)).
Qed.

Lemma degradation_parameters_monotone_witness :
  IEEE.ltb (VisualDegradation.blur_radius 10)
    (VisualDegradation.blur_radius 90) = true /\
  IEEE.ltb (VisualDegradation.scale_factor 90)
    (VisualDegradation.scale_factor 10) = true.
Proof.
  pose proof (degradation_parameters_monotone 10 90 ltac:(lia) ltac:(lia)
                ltac:(lia)) as H.
  cbv zeta in H. split; [apply H|apply H].
Defined.

(** ** visual_degradation.py: the brightness curve *)

Lemma walk_zrange f ok n : forall a prev,
  walk f ok prev (zrange a n) = true ->
  (forall v, Z.of_nat a <= v < Z.of_nat a + Z.of_nat n ->
             ok v (f v) = true /\ prev <= f v) /\
  (forall v1 v2, Z.of_nat a <= v1 -> v1 <= v2 ->
                 v2 < Z.of_nat a + Z.of_nat n -> f v1 <= f v2).
Proof.
  induction n as [|n IH]; intros a prev H; [split; intros; lia|].
  change (zrange a (S n)) with (Z.of_nat a :: zrange (S a) n) in H.
  cbn [walk] in H. cbv zeta in H.
  apply andb_prop in H. destruct H as [H H3].
  apply andb_prop in H. destruct H as [H1 H2]. apply Z.leb_le in H1.
  destruct (IH (S a) (f (Z.of_nat a)) H3) as [IHa IHb].
  split.
  - intros v Hv. destruct (Z.eq_dec v (Z.of_nat a)) as [->|Hne].
    + split; assumption.
    + destruct (IHa v ltac:(lia)) as [Hok Hle]. split; [exact Hok|lia].
  - intros v1 v2 Hv1 Hv12 Hv2.
    destruct (Z.eq_dec v1 (Z.of_nat a)) as [->|Hne1].
    + destruct (Z.eq_dec v2 (Z.of_nat a)) as [->|Hne2]; [lia|].
      apply (IHa v2). lia.
    + apply IHb; lia.
Qed.

Lemma brightness_curves_ok : forallb brightness_curve_ok (zrange 1 100) = true.
Proof. vm_compute. reflexivity. Qed.

Lemma defined_uint8_nonneg undef x :
  0 <= defined_uint8 x -> to_uint8 undef x = defined_uint8 x.
Proof.
  unfold defined_uint8, to_uint8.
  destruct (IEEE.to_uint8 x); [reflexivity|lia].
Qed.

Lemma brightness_curve_facts undef level :
  1 <= level <= 100 ->
  (forall v, 0 <= v <= 255 ->
     0 <= brightness_curve undef level v <= 255 /\
     (level <= 50 -> brightness_curve undef level v <= v) /\
     (50 < level -> v <= brightness_curve undef level v)) /\
  (forall v1 v2, 0 <= v1 -> v1 <= v2 -> v2 <= 255 ->
     brightness_curve undef level v1 <= brightness_curve undef level v2).
Proof.
  intros Hl.
  pose proof (forallb_zrange _ 1 100 level brightness_curves_ok ltac:(lia)) as H.
  unfold brightness_curve_ok in H. cbv zeta in H.
  apply walk_zrange in H. destruct H as [Ha Hb].
  assert (Hc : forall v, 0 <= v <= 255 ->
            brightness_curve undef level v =
            defined_uint8
              (clip_0_255 f32
                 (IEEE.mul f32 (IEEE.of_Z f32 v)
                    (IEEE.round f32 (VisualDegradation.brightness_factor level))))).
  { intros v Hv. destruct (Ha v ltac:(lia)) as [_ Hp].
    unfold brightness_curve. apply defined_uint8_nonneg. exact Hp. }
  split.
  - intros v Hv. rewrite (Hc v Hv).
    destruct (Ha v ltac:(lia)) as [Hok _].
    apply andb_prop in Hok. destruct Hok as [Hok Hd].
    apply andb_prop in Hok. destruct Hok as [H0 H255].
    apply Z.leb_le in H0, H255. split; [lia|].
    destruct (level <=? 50) eqn:E.
    + apply Z.leb_le in E, Hd. split; intros; lia.
    + apply Z.leb_gt in E. apply Z.leb_le in Hd. split; intros; lia.
  - intros v1 v2 H1 H12 H2. rewrite (Hc v1), (Hc v2) by lia.
    apply Hb; lia.
Qed.

(** X9: at every level from 1 to 100 the brightness degradation applies
    one tone curve to all channel values of the image; the curve keeps
    the order of the values (it never decreases), never raises a value
    at levels up to 50 and never lowers one at levels above 50. *)
Theorem degrade_brightness_tone_curve :
  forall (undef : spec_float -> Z) (image : ndarray Z) (level : Z),
    1 <= level <= 100 ->
    VisualDegradation.degrade_brightness undef image level =
    NDArray.map (brightness_curve undef level) image /\
    (forall v, 0 <= v <= 255 ->
       0 <= brightness_curve undef level v <= 255 /\
       (level <= 50 -> brightness_curve undef level v <= v) /\
       (50 < level -> v <= brightness_curve undef level v)) /\
    (forall v1 v2, 0 <= v1 -> v1 <= v2 -> v2 <= 255 ->
       brightness_curve undef level v1 <= brightness_curve undef level v2).
Proof.
  intros undef image level Hl. split; [|apply brightness_curve_facts, Hl].
  unfold VisualDegradation.degrade_brightness.
  destruct (level =? 0) eqn:E; [apply Z.eqb_eq in E; lia|].
  cbv zeta. unfold astype_uint8, NDArray.map.
  cbn [NDArray.shape NDArray.data]. rewrite !map_map. reflexivity.
Qed.

Lemma degrade_brightness_tone_curve_witness :
  let undef := fun _ : spec_float => 0 in
  let image := NDArray.mk [1%nat; 2%nat; 3%nat] [0; 10; 20; 200; 100; 255] in
  VisualDegradation.degrade_brightness undef image 75 =
  NDArray.map (brightness_curve undef 75) image /\
  (forall v, 0 <= v <= 255 ->
     0 <= brightness_curve undef 75 v <= 255 /\
     (75 <= 50 -> brightness_curve undef 75 v <= v) /\
     (50 < 75 -> v <= brightness_curve undef 75 v)) /\
  (forall v1 v2, 0 <= v1 -> v1 <= v2 -> v2 <= 255 ->
     brightness_curve undef 75 v1 <= brightness_curve undef 75 v2).
Proof.
  intros undef image.
  apply (degrade_brightness_tone_curve undef image 75). lia.
Defined.

(** ** visual_degradation.py: what the colour transforms leave alone *)

Lemma untouched_keeps level c x :
  (c < 3)%nat -> untouched level c = true -> color_shift_elt level c x = x.
Proof.
  intros Hc. unfold untouched, color_shift_elt. cbv zeta.
  destruct c as [|[|[|c]]]; [| | |lia];
    repeat match goal with
           | |- context [if ?b =? ?k then _ else _] => destruct (b =? k)
           end;
    cbn [Nat.eqb negb]; intros H; try discriminate H; reflexivity.
Qed.

Lemma keep_all : forallb keep_ok (zrange 0 256) = true.
Proof. vm_compute. reflexivity. Qed.

Lemma zero_all : forallb zero_ok (zrange 1 100) = true.
Proof. vm_compute. reflexivity. Qed.

(** X10: at every level from 1 to 100 the colour shift returns the
    channels its branch does not assign exactly as they were (blue for
    the red and green casts, red for the blue cast, the two other
    channels for the yellow, cyan and magenta casts), and a channel
    value of 0 stays 0 on every channel. *)
Theorem color_shift_keeps_other_channels :
  forall (undef : spec_float -> Z) (image : ndarray Z) (level : Z) (h w : nat),
    1 <= level <= 100 ->
    NDArray.shape image = [h; w; 3%nat] ->
    NDArray.is_uint8 image ->
    exists out,
      VisualDegradation.degrade_color_shift undef image level = Ok out /\
      forall i v,
        nth_error (NDArray.data image) i = Some v ->
        untouched level (i mod 3) = true \/ v = 0 ->
        nth_error (NDArray.data out) i = Some v.
Proof.
  intros undef image level h w Hl Hshape Himg.
  unfold VisualDegradation.degrade_color_shift.
  destruct (level =? 0) eqn:E; [apply Z.eqb_eq in E; lia|].
  unfold NDArray.channels. rewrite Hshape. simpl Nat.leb. cbv iota.
  eexists. split; [reflexivity|].
  rewrite color_shift_float_elt.
  unfold astype_uint8, NDArray.map, NDArray.mapi.
  cbn [NDArray.shape NDArray.data].
  intros i v Hv Hcase.
  rewrite !nth_error_map, nth_error_mapi_from, nth_error_map, Hv.
  cbn [option_map]. rewrite Nat.add_0_l. f_equal.
  pose proof (Nat.mod_upper_bound i 3 ltac:(lia)) as Hm.
  unfold NDArray.is_uint8 in Himg. rewrite Forall_forall in Himg.
  specialize (Himg v (nth_error_In _ _ Hv)).
  destruct Hcase as [Hu| ->].
  - rewrite (untouched_keeps level (i mod 3) _ Hm Hu).
    pose proof (forallb_zrange _ 0 256 v keep_all ltac:(lia)) as Hk.
    unfold keep_ok in Hk.
    destruct (IEEE.to_uint8 _) as [o|] eqn:Eo in Hk; [|discriminate].
    apply Z.eqb_eq in Hk. subst o. apply to_uint8_defined, Eo.
  - pose proof (forallb_zrange _ 1 100 level zero_all ltac:(lia)) as Hz.
    unfold zero_ok in Hz. rewrite forallb_forall in Hz.
    assert (Hc : In (i mod 3)%nat [0%nat; 1%nat; 2%nat]).
    { destruct (i mod 3)%nat as [|[|[|c]]]; simpl; auto; lia. }
    specialize (Hz _ Hc). cbv beta in Hz.
    destruct (IEEE.to_uint8 _) as [o|] eqn:Eo in Hz; [|discriminate].
    apply Z.eqb_eq in Hz. subst o. apply to_uint8_defined, Eo.
Qed.

Lemma color_shift_keeps_other_channels_witness :
  exists out,
    VisualDegradation.degrade_color_shift (fun _ => 0)
      (NDArray.mk [1%nat; 2%nat; 3%nat] [10; 20; 30; 0; 100; 200]) 40 = Ok out /\
    forall i v,
      nth_error [10; 20; 30; 0; 100; 200] i = Some v ->
      untouched 40 (i mod 3) = true \/ v = 0 ->
      nth_error (NDArray.data out) i = Some v.
Proof.
  apply (color_shift_keeps_other_channels (fun _ => 0)
           (NDArray.mk [1%nat; 2%nat; 3%nat] [10; 20; 30; 0; 100; 200]) 40
           1%nat 2%nat).
  - lia.
  - reflexivity.
  - unfold NDArray.is_uint8. simpl. repeat constructor; lia.
Defined.

Lemma distortion_levels_ok : forallb distortion_level_ok (zrange 1 100) = true.
Proof. vm_compute. reflexivity. Qed.

Lemma hue_fixed_50 : hue_fixed_ok 50 = true.
Proof. vm_compute. reflexivity. Qed.

Lemma hue_fixed_100 : hue_fixed_ok 100 = true.
Proof. vm_compute. reflexivity. Qed.

Lemma map_mapi_from_map {A B C D} (g : C -> D) (f : nat -> B -> C)
    (h : A -> B) l : forall k,
  List.map g (NDArray.mapi_from k f (List.map h l)) =
  NDArray.mapi_from k (fun i v => g (f i (h v))) l.
Proof.
  induction l as [|v l IH]; intros k; [reflexivity|].
  cbn [List.map NDArray.mapi_from]. rewrite IH. reflexivity.
Qed.

Lemma mapi_from_ext_in {A B} (f g : nat -> A -> B) l : forall k,
  (forall i x, In x l -> f i x = g i x) ->
  NDArray.mapi_from k f l = NDArray.mapi_from k g l.
Proof.
  induction l as [|x l IH]; intros k H; simpl; [reflexivity|].
  rewrite (H k x) by (left; reflexivity).
  rewrite (IH (S k)) by (intros i y Hy; apply H; right; exact Hy).
  reflexivity.
Qed.

Lemma distorted_hsv undef (hsv8 : ndarray Z) level :
  astype_uint8 undef
    (NDArray.update_channel 3 1
       (fun x =>
          clip_0_255 f32
            (IEEE.mul f32 x
               (IEEE.round f32 (VisualDegradation.saturation_factor level))))
       (NDArray.update_channel 3 0
          (fun x =>
             VisualDegradation.np_remainder f32
               (IEEE.add f32 x
                  (IEEE.round f32 (VisualDegradation.hue_shift level)))
               (IEEE.of_Z f32 180))
          (NDArray.map (IEEE.of_Z f32) hsv8))) =
  NDArray.mapi
    (fun i v => to_uint8 undef (distort_elt level (i mod 3) (IEEE.of_Z f32 v)))
    hsv8.
Proof.
  unfold astype_uint8, NDArray.update_channel, NDArray.mapi, NDArray.map.
  cbn [NDArray.shape NDArray.data]. f_equal.
  rewrite mapi_from_compose, map_mapi_from_map.
  apply mapi_from_ext. intros k v. unfold distort_elt.
  destruct (k mod 3)%nat as [|[|[|c]]]; cbn [Nat.eqb]; reflexivity.
Qed.

(** X11: at every level from 1 to 100 the colour distortion hands the
    conversion back to BGR an 8-bit HSV array: every hue lies in
    [0, 180), every saturation in [0, 255], the value channel is the
    input's; no conversion to 8 bits is out of range, so the platform's
    treatment of undefined conversions never shows.  At the levels 50
    and 100 the hue shift is a whole turn or none: hues below 180 come
    back unchanged. *)
Theorem color_distortion_valid_hsv :
  forall (bgr2hsv hsv2bgr : Z * Z * Z -> Z * Z * Z)
         (image hsv8 : ndarray Z) (level : Z),
    1 <= level <= 100 ->
    VisualDegradation.cvtColor bgr2hsv image = Ok hsv8 ->
    NDArray.is_uint8 hsv8 ->
    exists hsv,
      (forall undef : spec_float -> Z,
         VisualDegradation.degrade_color_distortion undef bgr2hsv hsv2bgr
           image level = VisualDegradation.cvtColor hsv2bgr hsv) /\
      NDArray.shape hsv = NDArray.shape hsv8 /\
      (forall i x,
         nth_error (NDArray.data hsv) i = Some x ->
         0 <= x <= 255 /\ ((i mod 3)%nat = 0%nat -> x < 180)) /\
      (forall i v,
         nth_error (NDArray.data hsv8) i = Some v ->
         (i mod 3)%nat = 2%nat \/
         ((i mod 3)%nat = 0%nat /\ v < 180 /\ (level = 50 \/ level = 100)) ->
         nth_error (NDArray.data hsv) i = Some v).
Proof.
  intros bgr2hsv hsv2bgr image hsv8 level Hl Hcvt Himg.
  pose proof (forallb_zrange _ 1 100 level distortion_levels_ok ltac:(lia)) as Hok.
  unfold distortion_level_ok in Hok. cbv zeta in Hok.
  unfold NDArray.is_uint8 in Himg. rewrite Forall_forall in Himg.
  assert (Helt : forall undef i v, In v (NDArray.data hsv8) ->
            let o := to_uint8 undef
                       (distort_elt level (i mod 3) (IEEE.of_Z f32 v)) in
            IEEE.to_uint8 (distort_elt level (i mod 3) (IEEE.of_Z f32 v)) = Some o /\
            0 <= o <= 255 /\ ((i mod 3)%nat = 0%nat -> o < 180) /\
            ((i mod 3)%nat = 2%nat -> o = v)).
  { intros undef i v Hin o. specialize (Himg v Hin).
    pose proof (forallb_zrange _ 0 256 v Hok ltac:(lia)) as Hv. cbv beta zeta in Hv.
    destruct (IEEE.to_uint8 (VisualDegradation.np_remainder f32 _ _))
      as [hue|] eqn:Eh in Hv; [|discriminate].
    destruct (IEEE.to_uint8 (clip_0_255 f32 _)) as [sat|] eqn:Es in Hv;
      [|discriminate].
    destruct (IEEE.to_uint8 (IEEE.of_Z f32 v)) as [val|] eqn:Ev in Hv;
      [|discriminate].
    do 4 (apply andb_prop in Hv; let H' := fresh "Hv" in destruct Hv as [Hv H']).
    apply Z.leb_le in Hv, Hv1, Hv2. apply Z.ltb_lt in Hv3. apply Z.eqb_eq in Hv0.
    subst o. unfold distort_elt.
    pose proof (Nat.mod_upper_bound i 3 ltac:(lia)) as Hm.
    destruct (i mod 3)%nat as [|[|[|c]]]; cbn [Nat.eqb]; [| | |lia].
    - rewrite (to_uint8_defined undef _ hue Eh).
      repeat split; try lia; try exact Eh; intros; discriminate.
    - rewrite (to_uint8_defined undef _ sat Es).
      repeat split; try lia; try exact Es; intros; discriminate.
    - rewrite (to_uint8_defined undef _ val Ev).
      repeat split; try lia; try exact Ev; intros; discriminate. }
  exists (NDArray.mapi
            (fun i v => to_uint8 (fun _ => 0)
                          (distort_elt level (i mod 3) (IEEE.of_Z f32 v))) hsv8).
  split; [|split; [reflexivity|split]].
  - intros undef. unfold VisualDegradation.degrade_color_distortion.
    destruct (level =? 0) eqn:E; [apply Z.eqb_eq in E; lia|].
    rewrite Hcvt. cbn [bind]. cbv zeta. rewrite distorted_hsv. f_equal.
    unfold NDArray.mapi. f_equal.
    apply mapi_from_ext_in. intros k v Hv.
    destruct (Helt undef k v Hv) as (H1 & _).
    destruct (Helt (fun _ => 0) k v Hv) as (H2 & _).
    cbv zeta in H1, H2. rewrite H1 in H2. injection H2 as H2. exact H2.
  - intros i x Hx. unfold NDArray.mapi in Hx. cbn [NDArray.data] in Hx.
    rewrite nth_error_mapi_from in Hx.
    destruct (nth_error (NDArray.data hsv8) i) as [v|] eqn:Ev; [|discriminate].
    cbn [option_map] in Hx. injection Hx as <-. change (0 + i)%nat with i.
    destruct (Helt (fun _ => 0) i v (nth_error_In _ _ Ev)) as (_ & H1 & H2 & _).
    split; assumption.
  - intros i v Hv Hcase. unfold NDArray.mapi. cbn [NDArray.data].
    rewrite nth_error_mapi_from, Hv. cbn [option_map]. rewrite Nat.add_0_l.
    f_equal.
    destruct Hcase as [Hc|(Hc & Hv180 & Hlev)].
    + destruct (Helt (fun _ => 0) i v (nth_error_In _ _ Hv)) as (_ & _ & _ & H3).
      apply H3, Hc.
    + rewrite Hc. unfold distort_elt. cbn [Nat.eqb].
      specialize (Himg v (nth_error_In _ _ Hv)).
      assert (Hf : hue_fixed_ok level = true)
        by (destruct Hlev as [-> | ->]; [apply hue_fixed_50|apply hue_fixed_100]).
      unfold hue_fixed_ok in Hf. cbv zeta in Hf.
      pose proof (forallb_zrange _ 0 180 v Hf ltac:(lia)) as Hh. cbv beta in Hh.
      destruct (IEEE.to_uint8 _) as [hue|] eqn:Eh in Hh; [|discriminate].
      apply Z.eqb_eq in Hh. subst hue. apply to_uint8_defined, Eh.
Qed.

Lemma color_distortion_valid_hsv_witness :
  let image := NDArray.mk [1%nat; 2%nat; 3%nat] [10; 200; 30; 179; 0; 255] in
  exists hsv,
    (forall undef : spec_float -> Z,
       VisualDegradation.degrade_color_distortion undef (fun p => p) (fun p => p)
         image 100 = VisualDegradation.cvtColor (fun p => p) hsv) /\
    NDArray.shape hsv = NDArray.shape image /\
    (forall i x,
       nth_error (NDArray.data hsv) i = Some x ->
       0 <= x <= 255 /\ ((i mod 3)%nat = 0%nat -> x < 180)) /\
    (forall i v,
       nth_error (NDArray.data image) i = Some v ->
       (i mod 3)%nat = 2%nat \/
       ((i mod 3)%nat = 0%nat /\ v < 180 /\ (100 = 50 \/ 100 = 100)) ->
       nth_error (NDArray.data hsv) i = Some v).
Proof.
  intros image.
  apply (color_distortion_valid_hsv (fun p => p) (fun p => p) image image 100).
  - lia.
  - reflexivity.
  - unfold NDArray.is_uint8. simpl. repeat constructor; lia.
Defined.

(** ** noise_gradient_generator.py and fast_noise_generator.py: the
       gradient steps *)

Lemma gradient_intensity_increasing :
  ordered IEEE.ltb
    (List.map NoiseGradient.gradient_intensity (zrange 0 100)) = true.
Proof. vm_compute. reflexivity. Qed.

Lemma noise_factors_all : forallb noise_factors_ok (zrange 0 100) = true.
Proof. vm_compute. reflexivity. Qed.

(** X12: the hundred gradient steps of the noise generators use the
    intensities [i / 99.0]: exactly 0.0 at the first step, exactly 1.0
    at the last, strictly increasing in between, the same in both
    generators.  Along them the brightness factor stays within
    [0.3, 1.7], the contrast factor within [0.5, 2.0] and the
    saturation factor within [0, 2.0], and the brightness and
    saturation factors never take the neutral value 1.0. *)
Theorem gradient_intensity_grid :
  forall i j : Z,
    0 <= i <= 99 -> 0 <= j <= 99 ->
    let t := NoiseGradient.gradient_intensity i in
    (i < j -> IEEE.ltb t (NoiseGradient.gradient_intensity j) = true) /\
    NoiseGradient.gradient_intensity 0 = IEEE.of_Z f64 0 /\
    NoiseGradient.gradient_intensity 99 = IEEE.of_Z f64 1 /\
    FastNoise.intensity i = t /\
    IEEE.leb (NoiseGradient.flt 0) t = true /\
    IEEE.leb t (NoiseGradient.flt 1) = true /\
    IEEE.leb (NoiseGradient.lit 3 1) (NoiseGradient.brightness_factor t) = true /\
    IEEE.leb (NoiseGradient.brightness_factor t) (NoiseGradient.lit 17 1) = true /\
    IEEE.leb (NoiseGradient.lit 5 1) (NoiseGradient.contrast_factor t) = true /\
    IEEE.leb (NoiseGradient.contrast_factor t) (NoiseGradient.lit 20 1) = true /\
    IEEE.leb (NoiseGradient.flt 0) (NoiseGradient.saturation_factor t) = true /\
    IEEE.leb (NoiseGradient.saturation_factor t) (NoiseGradient.lit 20 1) = true /\
    SFeqb (NoiseGradient.brightness_factor t) (NoiseGradient.flt 1) = false /\
    SFeqb (NoiseGradient.saturation_factor t) (NoiseGradient.flt 1) = false.
Proof.
  intros i j Hi Hj t.
  split.
  { intros Hij.
    exact (ordered_zrange IEEE.ltb NoiseGradient.gradient_intensity 100 0
             gradient_intensity_increasing i j ltac:(lia) ltac:(lia) ltac:(lia)). }
  split; [vm_compute; reflexivity|].
  split; [vm_compute; reflexivity|].
  split; [reflexivity|].
  pose proof (forallb_zrange _ 0 100 i noise_factors_all ltac:(lia)) as H.
  unfold noise_factors_ok in H. cbv zeta in H. fold t in H.
  do 9 (apply andb_prop in H; let H' := fresh "H" in destruct H as [H H']).
  apply negb_true_iff in H0, H1.
  repeat split; assumption.
Qed.

Lemma gradient_intensity_grid_witness :
  let t := NoiseGradient.gradient_intensity 10 in
  (10 < 90 -> IEEE.ltb t (NoiseGradient.gradient_intensity 90) = true) /\
  NoiseGradient.gradient_intensity 0 = IEEE.of_Z f64 0 /\
  NoiseGradient.gradient_intensity 99 = IEEE.of_Z f64 1 /\
  FastNoise.intensity 10 = t /\
  IEEE.leb (NoiseGradient.flt 0) t = true /\
  IEEE.leb t (NoiseGradient.flt 1) = true /\
  IEEE.leb (NoiseGradient.lit 3 1) (NoiseGradient.brightness_factor t) = true /\
  IEEE.leb (NoiseGradient.brightness_factor t) (NoiseGradient.lit 17 1) = true /\
  IEEE.leb (NoiseGradient.lit 5 1) (NoiseGradient.contrast_factor t) = true /\
  IEEE.leb (NoiseGradient.contrast_factor t) (NoiseGradient.lit 20 1) = true /\
  IEEE.leb (NoiseGradient.flt 0) (NoiseGradient.saturation_factor t) = true /\
  IEEE.leb (NoiseGradient.saturation_factor t) (NoiseGradient.lit 20 1) = true /\
  SFeqb (NoiseGradient.brightness_factor t) (NoiseGradient.flt 1) = false /\
  SFeqb (NoiseGradient.saturation_factor t) (NoiseGradient.flt 1) = false.
Proof.
  apply (gradient_intensity_grid 10 90); lia.
Defined.

Lemma pixel_size_noise i :
  0 <= i <= 3 ->
  exists p,
    py_int (IEEE.mul f64 (NoiseGradient.gradient_intensity i)
              (NoiseGradient.flt 50)) = Ok p /\ Z.max 1 p = 1.
Proof.
  intros Hi.
  assert (H : i = 0 \/ i = 1 \/ i = 2 \/ i = 3) by lia.
  destruct H as [-> | [-> | [-> | ->]]];
    eexists; (split; [vm_compute; reflexivity|reflexivity]).
Qed.

Lemma pixel_size_fast level :
  0 <= level <= 4 ->
  exists p,
    py_int (IEEE.mul f64 (FastNoise.intensity level) (IEEE.of_Z f64 20)) = Ok p /\
    Z.max 1 (p + 1) = 1.
Proof.
  intros Hi.
  assert (H : level = 0 \/ level = 1 \/ level = 2 \/ level = 3 \/ level = 4) by lia.
  destruct H as [-> | [-> | [-> | [-> | ->]]]];
    eexists; (split; [vm_compute; reflexivity|reflexivity]).
Qed.

Lemma contrast_factor_neutral :
  IEEE.round f32
    (NoiseGradient.contrast_factor (NoiseGradient.gradient_intensity 33)) =
  IEEE.of_Z f32 1.
Proof. vm_compute. reflexivity. Qed.

(** X13: besides step 0 further gradient steps return the input image
    unchanged: the pixelation of the noise generator at the steps 0 to
    3 and the pixel manipulation of the fast generator at the levels 0
    to 4 (the block size is still 1 there), and the contrast variation
    at step 33, whose factor is exactly 1.0. *)
Theorem identity_gradient_steps :
  forall (undef : spec_float -> Z)
         (nearest_at : PIL.Image -> nat * nat -> nat -> Z)
         (image : PIL.Image) (h w : nat) (rest : list nat),
    NDArray.shape image = h :: w :: rest -> (0 < h)%nat -> (0 < w)%nat ->
    (forall i, 0 <= i <= 3 ->
       NoiseGradient.apply_pixelation nearest_at image
         (NoiseGradient.gradient_intensity i) = Ok image) /\
    (forall level, 0 <= level <= 4 ->
       FastNoise.apply_pixel_manipulation nearest_at image level = Ok image) /\
    NoiseGradient.apply_contrast_variation undef image
      (NoiseGradient.gradient_intensity 33) = image.
Proof.
  intros undef nearest_at image h w rest Hs Hh Hw. split; [|split].
  - intros i Hi. destruct (pixel_size_noise i Hi) as (p & Hp & Hmax).
    unfold NoiseGradient.apply_pixelation. rewrite Hp. cbn [bind]. f_equal.
    apply (pixelate_one nearest_at image h w rest p Hs Hh Hw Hmax).
  - intros level Hl. destruct (pixel_size_fast level Hl) as (p & Hp & Hmax).
    unfold FastNoise.apply_pixel_manipulation. cbv zeta. rewrite Hp.
    cbn [bind]. f_equal.
    apply (pixelate_one nearest_at image h w rest (p + 1) Hs Hh Hw Hmax).
  - unfold NoiseGradient.apply_contrast_variation, PIL.enhance, PIL.blend.
    cbv zeta. rewrite contrast_factor_neutral. reflexivity.
Qed.

Lemma identity_gradient_steps_witness :
  let image := NDArray.mk [2%nat; 1%nat; 3%nat] [10; 20; 30; 40; 50; 60] in
  let nearest_at := fun (_ : PIL.Image) (_ : nat * nat) (_ : nat) => 0 in
  (forall i, 0 <= i <= 3 ->
     NoiseGradient.apply_pixelation nearest_at image
       (NoiseGradient.gradient_intensity i) = Ok image) /\
  (forall level, 0 <= level <= 4 ->
     FastNoise.apply_pixel_manipulation nearest_at image level = Ok image) /\
  NoiseGradient.apply_contrast_variation (fun _ => 0) image
    (NoiseGradient.gradient_intensity 33) = image.
Proof.
  intros image nearest_at.
  apply (identity_gradient_steps (fun _ => 0) nearest_at image 2%nat 1%nat
           [3%nat]); [reflexivity|lia|lia].
Defined.

(** ** colorblind_simulation.py: the visibility threshold *)

Lemma sub_self prec emax x :
  IEEE.is_finite x = true -> SFsub prec emax x x = S754_zero false.
Proof.
  destruct x as [s|s| |s m e]; try discriminate; intros _.
  - destruct s; reflexivity.
  - cbn [SFsub]. cbv zeta. rewrite Z.sub_diag. reflexivity.
Qed.

Lemma of_Z_f32_finite v :
  0 <= v <= 255 -> IEEE.is_finite (IEEE.of_Z f32 v) = true.
Proof.
  intros Hv. apply (small_finite 9).
  apply (small_normalize 24 128 ltac:(lia) 8 v false); unfold emin; lia.
Qed.

Lemma sum_by_zeros fmt p a :
  IEEE.add fmt (S754_zero false) (S754_zero false) = S754_zero false ->
  Forall (eq (S754_zero false)) a ->
  NumPy.sum_by fmt p a = S754_zero false.
Proof.
  intros Hadd Ha. induction p as [i|l IHl r IHr]; cbn [NumPy.sum_by].
  - destruct (nth_in_or_default i a (S754_zero false)) as [Hin|Hd]; [|exact Hd].
    rewrite Forall_forall in Ha. symmetry. apply Ha, Hin.
  - rewrite IHl, IHr. exact Hadd.
Qed.

Lemma div_zero_by_count prec emax n :
  0 < prec -> emin prec emax <= 0 -> (0 < n)%nat ->
  SFdiv prec emax (S754_zero false)
    (binary_normalize prec emax (Z.of_nat n) 0 false) = S754_zero false.
Proof.
  intros Hp He Hn.
  destruct (Z.of_nat n) as [|p|p] eqn:E; try lia.
  pose proof (normalize_pos_signed prec emax Hp p false He) as H.
  destruct (binary_normalize prec emax (Z.pos p) 0 false) as [s|s| |s m e];
    simpl in H; try contradiction; subst; reflexivity.
Qed.

Lemma mean32_zeros order a :
  a <> [] -> Forall (eq (S754_zero false)) a ->
  NumPy.mean32 order a = S754_zero false.
Proof.
  intros Hne Ha. unfold NumPy.mean32.
  assert (Ht : match a with
               | [] => S754_zero false
               | _ => NumPy.sum_by f32 (order (List.length a)) a
               end = S754_zero false).
  { destruct a; [reflexivity|]. apply sum_by_zeros; [reflexivity|exact Ha]. }
  rewrite Ht. unfold IEEE.div, IEEE.of_Z.
  apply div_zero_by_count; [simpl; lia|unfold emin; simpl; lia|].
  destruct a; [contradiction|simpl; lia].
Qed.

Lemma broadcast_rev_same s : NumPy.broadcast_rev s s = Some s.
Proof.
  induction s as [|a s IH]; [reflexivity|].
  cbn [NumPy.broadcast_rev]. rewrite IH, Nat.eqb_refl. reflexivity.
Qed.

(** The difference of a float array with itself: zeros, in the shape
    of the array. *)
Lemma subtract_self (a : ndarray spec_float) :
  Forall (fun x => IEEE.is_finite x = true) (NDArray.data a) ->
  exists r,
    NumPy.broadcast2 (S754_zero false) (IEEE.sub f32) a a = Ok r /\
    NDArray.shape r = NDArray.shape a /\
    List.length (NDArray.data r) = NDArray.size (NDArray.shape a) /\
    Forall (eq (S754_zero false)) (List.map SFabs (NDArray.data r)).
Proof.
  intros Hfin. unfold NumPy.broadcast2. cbv zeta.
  rewrite broadcast_rev_same. eexists. split; [reflexivity|].
  unfold NDArray.tabulate. cbn [NDArray.shape NDArray.data].
  rewrite rev_involutive. split; [reflexivity|].
  split; [rewrite length_map, length_seq; reflexivity|].
  rewrite Forall_forall. intros x Hx.
  apply in_map_iff in Hx. destruct Hx as (y & <- & Hy).
  apply in_map_iff in Hy. destruct Hy as (i & <- & _).
  unfold IEEE.sub. rewrite sub_self; [reflexivity|].
  destruct (nth_in_or_default (NumPy.source_index_rev (rev (NDArray.shape a))
                                 (rev (NDArray.shape a)) i 1)
              (NDArray.data a) (S754_zero false)) as [Hin|Hd].
  - rewrite Forall_forall in Hfin. apply Hfin, Hin.
  - rewrite Hd. reflexivity.
Qed.

Lemma broadcast2_same_shape {A B} (d : A) (f : A -> A -> B) (a b : ndarray A) :
  NDArray.shape a = NDArray.shape b ->
  exists r,
    NumPy.broadcast2 d f a b = Ok r /\
    List.length (NDArray.data r) = NDArray.size (NDArray.shape a).
Proof.
  intros Hs. unfold NumPy.broadcast2. cbv zeta. rewrite <- Hs.
  rewrite broadcast_rev_same. eexists. split; [reflexivity|].
  unfold NDArray.tabulate. cbn [NDArray.data].
  rewrite length_map, length_seq, rev_involutive. reflexivity.
Qed.

(** A slice of an array of at least two dimensions: its shape depends
    on the shape alone, and its elements are elements of the array (or
    the filler). *)
Lemma slice2_spec {A} (d : A) (a : ndarray A) h w rest y1 y2 x1 x2 :
  NDArray.shape a = h :: w :: rest ->
  exists r,
    NumPy.slice2 d a y1 y2 x1 x2 = Ok r /\
    NDArray.shape r =
      (NumPy.slice_bound h y2 - NumPy.slice_bound h y1)%nat ::
      (NumPy.slice_bound w x2 - NumPy.slice_bound w x1)%nat :: rest /\
    List.length (NDArray.data r) = NDArray.size (NDArray.shape r) /\
    Forall (fun x => In x (NDArray.data a) \/ x = d) (NDArray.data r).
Proof.
  intros Hs. unfold NumPy.slice2. rewrite Hs. cbv zeta.
  eexists. split; [reflexivity|]. unfold NDArray.tabulate.
  cbn [NDArray.shape NDArray.data]. split; [reflexivity|].
  split; [rewrite length_map, length_seq; reflexivity|].
  rewrite Forall_forall. intros x Hx. apply in_map_iff in Hx.
  destruct Hx as (j & <- & _).
  match goal with
  | |- In (nth ?i ?l ?d) _ \/ _ =>
      destruct (nth_in_or_default i l d) as [Hin|Hd]; [left; exact Hin|right; exact Hd]
  end.
Qed.

Lemma scalar_score_zero nep50 :
  IEEE.div (ColorBlindMetrics.scalar nep50)
    (IEEE.round (ColorBlindMetrics.scalar nep50) (S754_zero false))
    (IEEE.round (ColorBlindMetrics.scalar nep50) (IEEE.dec f64 2550 1)) =
  S754_zero false /\
  IEEE.ltb (S754_zero false)
    (IEEE.round (ColorBlindMetrics.scalar nep50) (IEEE.dec f64 1 1)) = true.
Proof. destruct nep50; split; vm_compute; reflexivity. Qed.

Lemma scalar_score_nan nep50 :
  IEEE.div (ColorBlindMetrics.scalar nep50)
    (IEEE.round (ColorBlindMetrics.scalar nep50) S754_nan)
    (IEEE.round (ColorBlindMetrics.scalar nep50) (IEEE.dec f64 2550 1)) =
  S754_nan /\
  IEEE.ltb S754_nan
    (IEEE.round (ColorBlindMetrics.scalar nep50) (IEEE.dec f64 1 1)) = false.
Proof. destruct nep50; split; vm_compute; reflexivity. Qed.

Lemma mean32_empty order : NumPy.mean32 order [] = S754_nan.
Proof. reflexivity. Qed.

Lemma float_image_finite (image : ndarray Z) :
  NDArray.is_uint8 image ->
  Forall (fun x => IEEE.is_finite x = true)
    (NDArray.data (NDArray.map (IEEE.of_Z f32) image)).
Proof.
  unfold NDArray.is_uint8, NDArray.map. cbn [NDArray.data]. intros H.
  rewrite Forall_forall in *. intros x Hx. apply in_map_iff in Hx.
  destruct Hx as (v & <- & Hv). apply of_Z_f32_finite, H, Hv.
Qed.

(** The mean absolute difference of an array with itself. *)
Lemma mean_abs_self order (a : ndarray spec_float) :
  Forall (fun x => IEEE.is_finite x = true) (NDArray.data a) ->
  exists r,
    NumPy.broadcast2 (S754_zero false) (IEEE.sub f32) a a = Ok r /\
    NumPy.mean32 order (List.map SFabs (NDArray.data r)) =
    match NDArray.size (NDArray.shape a) with
    | O => S754_nan
    | S _ => S754_zero false
    end.
Proof.
  intros Hfin. destruct (subtract_self a Hfin) as (r & Hr & _ & Hlen & Hz).
  exists r. split; [exact Hr|].
  destruct (NDArray.size (NDArray.shape a)) as [|n].
  - destruct (NDArray.data r); [reflexivity|discriminate].
  - apply mean32_zeros; [|exact Hz].
    destruct (NDArray.data r); [discriminate|]. simpl. discriminate.
Qed.

Lemma selected_spec (image : ndarray Z) h w rest region :
  NDArray.shape image = h :: w :: rest -> NDArray.wf image ->
  exists r,
    selected image region = Ok r /\
    List.length (NDArray.data r) = NDArray.size (NDArray.shape r) /\
    NDArray.shape r =
    match region with
    | None => NDArray.shape image
    | Some (x1, y1, x2, y2) =>
        (NumPy.slice_bound h y2 - NumPy.slice_bound h y1)%nat ::
        (NumPy.slice_bound w x2 - NumPy.slice_bound w x1)%nat :: rest
    end.
Proof.
  intros Hs Hwf. destruct region as [[[[x1 y1] x2] y2]|].
  - cbn [selected].
    destruct (slice2_spec 0 image h w rest y1 y2 x1 x2 Hs) as (r & Hr & Hsh & Hl & _).
    exists r. auto.
  - exists image. repeat split; auto.
Qed.

Section MetricsFacts.
Variable undef : spec_float -> Z.
Variable nep50 : bool.
Variable order : nat -> NumPy.plan.

Let visibility := ColorBlindMetrics.calculate_target_visibility nep50 order.

(** The score of two images of one shape over a region: 0 for an image
    against itself, NaN for any pair when the region is empty. *)
Lemma target_visibility_region (original simulated : PIL.Image) h w rest region :
  NDArray.shape original = h :: w :: rest ->
  NDArray.shape simulated = h :: w :: rest ->
  NDArray.wf original ->
  exists r,
    selected original region = Ok r /\
    (NDArray.data r = [] ->
     visibility original simulated region = Ok S754_nan) /\
    (NDArray.data r <> [] -> NDArray.is_uint8 original ->
     visibility original original region = Ok (S754_zero false)).
Proof.
  intros Hs Hs' Hwf.
  destruct (selected_spec original h w rest region Hs Hwf) as (r & Hr & Hlen & Hsh).
  exists r. split; [exact Hr|].
  unfold visibility, ColorBlindMetrics.calculate_target_visibility. cbv zeta.
  destruct (scalar_score_nan nep50) as [Hnan _].
  destruct (scalar_score_zero nep50) as [Hzero _].
  destruct region as [[[[x1 y1] x2] y2]|].
  - destruct (slice2_spec (S754_zero false) (NDArray.map (IEEE.of_Z f32) original)
                h w rest y1 y2 x1 x2 Hs) as (ro & Hro & Hsho & Hlo & Hino).
    destruct (slice2_spec (S754_zero false) (NDArray.map (IEEE.of_Z f32) simulated)
                h w rest y1 y2 x1 x2 Hs') as (rs & Hrs & Hshs & Hls & _).
    split.
    + intros He. rewrite Hro, Hrs. cbn [bind].
      destruct (broadcast2_same_shape (S754_zero false) (IEEE.sub f32) ro rs
                  ltac:(congruence)) as (df & Hdf & Hldf).
      rewrite Hdf. cbn [bind].
      assert (Hz : NDArray.data df = []).
      { rewrite Hsho, <- Hsh, <- Hlen, He in Hldf.
        destruct (NDArray.data df); [reflexivity|discriminate]. }
      rewrite Hz. cbn [List.map]. rewrite mean32_empty, Hnan. reflexivity.
    + intros Hne Himg. rewrite Hro. cbn [bind].
      assert (Hfin : Forall (fun x => IEEE.is_finite x = true) (NDArray.data ro)).
      { pose proof (float_image_finite original Himg) as Hf.
        rewrite Forall_forall in *. intros x Hx.
        destruct (Hino x Hx) as [Hin| ->]; [apply Hf, Hin|reflexivity]. }
      destruct (mean_abs_self order ro Hfin) as (df & Hdf & Hmean).
      rewrite Hdf. cbn [bind]. rewrite Hmean.
      rewrite Hsho, <- Hsh, <- Hlen.
      destruct (NDArray.data r); [contradiction|]. cbn [List.length].
      rewrite Hzero. reflexivity.
  - cbn [selected] in Hr. injection Hr as <-. split.
    + intros He.
      destruct (broadcast2_same_shape (S754_zero false) (IEEE.sub f32)
                  (NDArray.map (IEEE.of_Z f32) original)
                  (NDArray.map (IEEE.of_Z f32) simulated)
                  ltac:(cbn [NDArray.map NDArray.shape]; congruence))
        as (df & Hdf & Hldf).
      rewrite Hdf. cbn [bind].
      assert (Hz : NDArray.data df = []).
      { cbn [NDArray.map NDArray.shape] in Hldf.
        rewrite <- Hlen, He in Hldf.
        destruct (NDArray.data df); [reflexivity|discriminate]. }
      rewrite Hz. cbn [List.map]. rewrite mean32_empty, Hnan. reflexivity.
    + intros Hne Himg.
      destruct (mean_abs_self order (NDArray.map (IEEE.of_Z f32) original)
                  (float_image_finite original Himg)) as (df & Hdf & Hmean).
      rewrite Hdf. cbn [bind]. rewrite Hmean.
      cbn [NDArray.map NDArray.shape]. rewrite <- Hlen.
      destruct (NDArray.data original); [contradiction|]. cbn [List.length].
      rewrite Hzero. reflexivity.
Qed.
End MetricsFacts.

Lemma severity_zero64_all : forallb severity_zero64_ok (zrange 0 256) = true.
Proof. vm_compute. reflexivity. Qed.

Lemma improved_matrix_In t : In (improved_matrix t) all_matrices.
Proof. destruct t; simpl; auto 10. Qed.

Section SimulationFacts.
Variable undef : spec_float -> Z.
Variable nep50 : bool.

Lemma mix64_zero p t v :
  0 <= v <= 255 -> p = ColorBlind.normalize v ->
  IEEE.is_finite t = true ->
  ColorBlind.quantize undef (ColorBlindMetrics.mix64 (S754_zero false) p t) = v.
Proof.
  intros Hv -> Ht. unfold ColorBlindMetrics.mix64, ColorBlind.quantize.
  destruct (mul_zero_l false t Ht) as [s ->].
  pose proof (forallb_zrange _ 0 256 v severity_zero64_all ltac:(lia)) as H.
  unfold severity_zero64_ok in H. cbv zeta in H. rewrite forallb_forall in H.
  assert (Hs : In s [false; true]) by (destruct s; simpl; auto).
  specialize (H s Hs). cbv beta in H.
  destruct (IEEE.to_uint8 _) as [o|] eqn:Eo in H; [|discriminate].
  rewrite (to_uint8_defined undef _ o Eo). apply Z.eqb_eq. exact H.
Qed.

Lemma transform_pixel64_zero m r g b :
  In m all_matrices ->
  0 <= r <= 255 -> 0 <= g <= 255 -> 0 <= b <= 255 ->
  ColorBlindMetrics.transform_pixel64 undef m (S754_zero false)
    (ColorBlind.normalize r, ColorBlind.normalize g, ColorBlind.normalize b) =
  (r, g, b).
Proof.
  intros Hm Hr Hg Hb.
  pose proof rows_small_all as Hrows. rewrite forallb_forall in Hrows.
  specialize (Hrows m Hm). rewrite forallb_forall in Hrows.
  destruct m as [[m0 m1] m2]. unfold ColorBlindMetrics.transform_pixel64.
  change (IEEE.ltb (S754_zero false) (IEEE.dec f64 10 1)) with true.
  cbv iota.
  assert (Hfin : forall row, In row [m0; m1; m2] ->
            IEEE.is_finite
              (ColorBlind.dot
                 (ColorBlind.normalize r, ColorBlind.normalize g,
                  ColorBlind.normalize b) row) = true).
  { intros row Hrow. apply dot_finite; try apply normalize_small; auto. }
  rewrite (mix64_zero _ _ r Hr eq_refl) by (apply Hfin; simpl; auto).
  rewrite (mix64_zero _ _ g Hg eq_refl) by (apply Hfin; simpl; auto).
  rewrite (mix64_zero _ _ b Hb eq_refl) by (apply Hfin; simpl; auto).
  reflexivity.
Qed.

Lemma transform_pixels64_zero m : forall k l,
  In m all_matrices ->
  List.length l = (3 * k)%nat ->
  Forall (fun v => 0 <= v <= 255) l ->
  ColorBlindMetrics.transform_pixels64 undef m (S754_zero false) l = l.
Proof.
  induction k as [|k IH]; intros l Hm Hlen Hl.
  - destruct l; [reflexivity|simpl in Hlen; lia].
  - destruct l as [|r [|g [|b l]]]; try (simpl in Hlen; lia).
    inversion Hl as [|? ? Hr Hl1]; subst.
    inversion Hl1 as [|? ? Hg Hl2]; subst.
    inversion Hl2 as [|? ? Hb Hl3]; subst.
    cbn [ColorBlindMetrics.transform_pixels64].
    rewrite transform_pixel64_zero by assumption.
    rewrite (IH l Hm) by (simpl in Hlen; try lia; assumption).
    reflexivity.
Qed.

Lemma simulate_as_matrix t image severity :
  ColorBlindMetrics.simulate undef nep50 t image severity =
  ColorBlindMetrics.apply_colorblindness_matrix undef nep50 image
    (improved_matrix t) severity.
Proof. destruct t; reflexivity. Qed.

Lemma simulate_zero t image h w :
  NDArray.shape image = [h; w; 3%nat] ->
  NDArray.wf image -> NDArray.is_uint8 image ->
  ColorBlindMetrics.simulate undef nep50 t image (S754_zero false) = Ok image.
Proof.
  intros Hs Hwf Himg. rewrite simulate_as_matrix.
  unfold ColorBlindMetrics.apply_colorblindness_matrix.
  destruct nep50.
  - destruct image as [s d]. unfold NDArray.wf, NDArray.is_uint8 in *.
    cbn [NDArray.shape NDArray.data] in *. subst s.
    rewrite (transform_pixels64_zero (improved_matrix t) (h * w)%nat d
               (improved_matrix_In t)); [reflexivity| |exact Himg].
    rewrite Hwf. simpl. lia.
  - apply (colorblind_severity_zero undef _ image h w);
      auto using improved_matrix_In.
Qed.

Lemma simulate_shape t image severity h w :
  NDArray.shape image = [h; w; 3%nat] ->
  exists out,
    ColorBlindMetrics.simulate undef nep50 t image severity = Ok out /\
    NDArray.shape out = [h; w; 3%nat].
Proof.
  intros Hs. rewrite simulate_as_matrix.
  unfold ColorBlindMetrics.apply_colorblindness_matrix,
    ColorBlind.apply_colorblindness_matrix.
  rewrite Hs. destruct nep50; eexists; split; reflexivity.
Qed.

Lemma simulate_non_rgb t image severity :
  ~ three_channel (NDArray.shape image) ->
  ColorBlindMetrics.simulate undef nep50 t image severity =
  Raise (ValueError "图像必须是RGB格式").
Proof.
  intros Hn. rewrite simulate_as_matrix.
  unfold ColorBlindMetrics.apply_colorblindness_matrix.
  destruct nep50; [|apply apply_colorblindness_matrix_non_rgb, Hn].
  destruct image as [s d]. cbn [NDArray.shape NDArray.data] in *.
  destruct s as [|h [|w [|c [|x s]]]]; try reflexivity;
    destruct c as [|[|[|[|c]]]]; try reflexivity.
  exfalso. apply Hn. exists h, w. reflexivity.
Qed.
End SimulationFacts.

Lemma linspace_unit_head :
  exists rest,
    NumPy.linspace (IEEE.of_Z f64 0) (IEEE.of_Z f64 1) 101 =
    S754_zero false :: rest.
Proof. eexists. vm_compute. reflexivity. Qed.

(** X14: the visibility score of an image against itself is exactly 0
    when the target region (the whole image when none is given) holds
    at least one element, and the score of any pair of images of one
    size is NaN when the region is empty: the mean of no element. *)
Theorem target_visibility_of_identical_images :
  forall (nep50 : bool) (order : nat -> NumPy.plan)
         (original simulated : PIL.Image) (h w : nat) (rest : list nat)
         (target_region : option (Z * Z * Z * Z)),
    NDArray.shape original = h :: w :: rest ->
    NDArray.shape simulated = h :: w :: rest ->
    NDArray.wf original -> NDArray.is_uint8 original ->
    exists region,
      selected original target_region = Ok region /\
      (NDArray.data region = [] ->
       ColorBlindMetrics.calculate_target_visibility nep50 order
         original simulated target_region = Ok S754_nan) /\
      (NDArray.data region <> [] ->
       ColorBlindMetrics.calculate_target_visibility nep50 order
         original original target_region = Ok (S754_zero false)).
Proof.
  intros nep50 order original simulated h w rest region Hs Hs' Hwf Himg.
  destruct (target_visibility_region nep50 order original simulated h w rest
              region Hs Hs' Hwf) as (r & Hr & He & Hne).
  exists r. split; [exact Hr|]. split; [exact He|].
  intros H. apply Hne; assumption.
Qed.

Lemma target_visibility_of_identical_images_witness :
  let image := NDArray.mk [1%nat; 2%nat; 3%nat] [10; 20; 30; 40; 50; 60] in
  let order := fun _ : nat =>
    NumPy.Node (NumPy.Node (NumPy.Leaf 0) (NumPy.Leaf 1))
      (NumPy.Node (NumPy.Node (NumPy.Leaf 2) (NumPy.Leaf 3))
         (NumPy.Node (NumPy.Leaf 4) (NumPy.Leaf 5))) in
  exists region,
    selected image (Some (0, 0, 1, 1)) = Ok region /\
    (NDArray.data region = [] ->
     ColorBlindMetrics.calculate_target_visibility true order
       image image (Some (0, 0, 1, 1)) = Ok S754_nan) /\
    (NDArray.data region <> [] ->
     ColorBlindMetrics.calculate_target_visibility true order
       image image (Some (0, 0, 1, 1)) = Ok (S754_zero false)).
Proof.
  intros image order.
  apply (target_visibility_of_identical_images true order image image
           1%nat 2%nat [3%nat] (Some (0, 0, 1, 1))).
  - reflexivity.
  - reflexivity.
  - reflexivity.
  - unfold NDArray.is_uint8. simpl. repeat constructor; lia.
Defined.

Section ThresholdFacts.
Variable undef : spec_float -> Z.
Variable nep50 : bool.
Variable order : nat -> NumPy.plan.

Lemma first_invisible_empty image t region h w r severities :
  NDArray.shape image = [h; w; 3%nat] -> NDArray.wf image ->
  selected image region = Ok r -> NDArray.data r = [] ->
  ColorBlindMetrics.first_invisible undef nep50 order image t region
    severities = Ok (IEEE.dec f64 10 1).
Proof.
  intros Hs Hwf Hr He.
  destruct (scalar_score_nan nep50) as [_ Hlt].
  induction severities as [|severity rest IH]; [reflexivity|].
  cbn [ColorBlindMetrics.first_invisible].
  destruct (simulate_shape undef nep50 t image severity h w Hs)
    as (out & -> & Hout).
  cbn [bind].
  destruct (target_visibility_region nep50 order image out h w [3%nat] region
              Hs Hout Hwf) as (r' & Hr' & Hempty & _).
  rewrite Hr in Hr'. injection Hr' as <-.
  rewrite (Hempty He). cbn [bind]. rewrite Hlt. exact IH.
Qed.
End ThresholdFacts.

Lemma visibility_threshold_cases :
  forall (undef : spec_float -> Z) (nep50 : bool) (order : nat -> NumPy.plan)
         (image : PIL.Image) (colorblind_type : ColorBlindMetrics.simulation)
         (target_region : option (Z * Z * Z * Z)),
    NDArray.wf image -> NDArray.is_uint8 image ->
    (three_channel (NDArray.shape image) ->
     exists region,
       selected image target_region = Ok region /\
       ColorBlindMetrics.calculate_visibility_threshold undef nep50 order
         image colorblind_type target_region =
       Ok (match NDArray.data region with
           | [] => IEEE.dec f64 10 1
           | _ => IEEE.of_Z f64 0
           end)) /\
    (~ three_channel (NDArray.shape image) ->
     ColorBlindMetrics.calculate_visibility_threshold undef nep50 order
       image colorblind_type target_region =
     Raise (ValueError "图像必须是RGB格式")).
Proof.
  intros undef nep50 order image t region Hwf Himg. split.
  - intros (h & w & Hs).
    destruct (target_visibility_region nep50 order image image h w [3%nat]
                region Hs Hs Hwf) as (r & Hr & _ & Hne).
    exists r. split; [exact Hr|].
    unfold ColorBlindMetrics.calculate_visibility_threshold.
    destruct (NDArray.data r) as [|x d] eqn:Ed.
    + apply (first_invisible_empty undef nep50 order image t region h w r);
        assumption.
    + destruct linspace_unit_head as [rest ->].
      cbn [ColorBlindMetrics.first_invisible].
      rewrite (simulate_zero undef nep50 t image h w Hs Hwf Himg). cbn [bind].
      rewrite Hne by (exact Himg || discriminate). cbn [bind].
      destruct (scalar_score_zero nep50) as [_ ->]. reflexivity.
  - intros Hn. unfold ColorBlindMetrics.calculate_visibility_threshold.
    destruct linspace_unit_head as [rest ->].
    cbn [ColorBlindMetrics.first_invisible].
    rewrite simulate_non_rgb by exact Hn. reflexivity.
Qed.

(** X15: for every RGB image, every simulation method and every target
    region that holds at least one element (the whole image when none
    is given), the visibility threshold is 0.0: the first severity
    tried is 0, the simulation at severity 0 returns the image itself,
    and a difference of 0 counts as invisible.  With an empty region
    every score is NaN and the threshold is 1.0.  An image that is not
    RGB raises the simulator's ValueError. *)
Theorem visibility_threshold_is_zero :
  forall (undef : spec_float -> Z) (nep50 : bool) (order : nat -> NumPy.plan)
         (image : PIL.Image) (colorblind_type : ColorBlindMetrics.simulation)
         (target_region : option (Z * Z * Z * Z)),
    NDArray.wf image -> NDArray.is_uint8 image ->
    (three_channel (NDArray.shape image) ->
     exists region,
       selected image target_region = Ok region /\
       ColorBlindMetrics.calculate_visibility_threshold undef nep50 order
         image colorblind_type target_region =
       Ok (match NDArray.data region with
           | [] => IEEE.dec f64 10 1
           | _ => IEEE.of_Z f64 0
           end)) /\
    (~ three_channel (NDArray.shape image) ->
     ColorBlindMetrics.calculate_visibility_threshold undef nep50 order
       image colorblind_type target_region =
     Raise (ValueError "图像必须是RGB格式")).
Proof.
  intros undef nep50 order image colorblind_type target_region Hwf Himg.
  split.
  - intros Hrgb.
    apply (visibility_threshold_cases undef nep50 order image colorblind_type
             target_region Hwf Himg); exact Hrgb.
  - intros Hn.
    apply (visibility_threshold_cases undef nep50 order image colorblind_type
             target_region Hwf Himg); exact Hn.
Qed.

Lemma visibility_threshold_is_zero_witness :
  let image := NDArray.mk [1%nat; 2%nat; 3%nat] [10; 20; 30; 40; 50; 60] in
  let order := fun _ : nat =>
    NumPy.Node (NumPy.Node (NumPy.Leaf 0) (NumPy.Leaf 1))
      (NumPy.Node (NumPy.Node (NumPy.Leaf 2) (NumPy.Leaf 3))
         (NumPy.Node (NumPy.Leaf 4) (NumPy.Leaf 5))) in
  (three_channel (NDArray.shape image) ->
   exists region,
     selected image None = Ok region /\
     ColorBlindMetrics.calculate_visibility_threshold (fun _ => 0) true order
       image ColorBlindMetrics.deuteranopia None =
     Ok (match NDArray.data region with
         | [] => IEEE.dec f64 10 1
         | _ => IEEE.of_Z f64 0
         end)) /\
  (~ three_channel (NDArray.shape image) ->
   ColorBlindMetrics.calculate_visibility_threshold (fun _ => 0) true order
     image ColorBlindMetrics.deuteranopia None =
   Raise (ValueError "图像必须是RGB格式")).
Proof.
  intros image order.
  apply (visibility_threshold_is_zero (fun _ => 0) true order image
           ColorBlindMetrics.deuteranopia None).
  - reflexivity.
  - unfold NDArray.is_uint8. simpl. repeat constructor; lia.
Defined.

(** X16: the dataset generator grades every test question of a
    non-empty RGB image as "very_hard": the threshold it stores for
    the image is 0.0, and no severity that is not negative lies below
    0.0, half of it or one and a half times it.  Without a stored
    threshold the grade is "unknown". *)
Theorem difficulty_is_always_very_hard :
  forall (undef : spec_float -> Z) (nep50 : bool) (order : nat -> NumPy.plan)
         (image : PIL.Image) (colorblind_type : ColorBlindMetrics.simulation)
         (h w : nat) (severity : spec_float),
    NDArray.shape image = [h; w; 3%nat] -> (0 < h)%nat -> (0 < w)%nat ->
    NDArray.wf image -> NDArray.is_uint8 image ->
    IEEE.ltb severity (IEEE.of_Z f64 0) = false ->
    let visibility_threshold :=
      DatasetGenerator.stored_threshold
        (ColorBlindMetrics.calculate_visibility_threshold undef nep50 order
           image colorblind_type None) in
    visibility_threshold = Some (IEEE.of_Z f64 0) /\
    DatasetGenerator.assess_difficulty_level severity visibility_threshold =
    "very_hard"%string /\
    DatasetGenerator.assess_difficulty_level severity None = "unknown"%string.
Proof.
  intros undef nep50 order image t h w severity Hs Hh Hw Hwf Himg Hsev thr.
  destruct (visibility_threshold_cases undef nep50 order image t None Hwf Himg)
    as [Hrgb _].
  destruct (Hrgb ltac:(exists h, w; exact Hs)) as (r & Hr & Hthr).
  cbn [selected] in Hr. injection Hr as <-.
  assert (Hne : NDArray.data image <> []).
  { unfold NDArray.wf in Hwf. rewrite Hs in Hwf. simpl in Hwf.
    destruct (NDArray.data image); [simpl in Hwf; nia|discriminate]. }
  assert (Ht : thr = Some (IEEE.of_Z f64 0)).
  { unfold thr. rewrite Hthr.
    destruct (NDArray.data image); [contradiction|reflexivity]. }
  split; [exact Ht|]. split; [|reflexivity].
  rewrite Ht. unfold DatasetGenerator.assess_difficulty_level.
  change (IEEE.mul f64 (IEEE.of_Z f64 0) (IEEE.dec f64 5 1)) with (IEEE.of_Z f64 0).
  change (IEEE.mul f64 (IEEE.of_Z f64 0) (IEEE.dec f64 15 1)) with (IEEE.of_Z f64 0).
  rewrite Hsev. reflexivity.
Qed.

Lemma difficulty_is_always_very_hard_witness :
  let image := NDArray.mk [1%nat; 2%nat; 3%nat] [10; 20; 30; 40; 50; 60] in
  let order := fun _ : nat => NumPy.Leaf 0 in
  let visibility_threshold :=
    DatasetGenerator.stored_threshold
      (ColorBlindMetrics.calculate_visibility_threshold (fun _ => 0) false order
         image ColorBlindMetrics.protanopia None) in
  visibility_threshold = Some (IEEE.of_Z f64 0) /\
  DatasetGenerator.assess_difficulty_level (IEEE.dec f64 25 2)
    visibility_threshold = "very_hard"%string /\
  DatasetGenerator.assess_difficulty_level (IEEE.dec f64 25 2) None =
  "unknown"%string.
Proof.
  intros image order.
  apply (difficulty_is_always_very_hard (fun _ => 0) false order image
           ColorBlindMetrics.protanopia 1%nat 2%nat (IEEE.dec f64 25 2)).
  - reflexivity.
  - lia.
  - lia.
  - reflexivity.
  - unfold NDArray.is_uint8. simpl. repeat constructor; lia.
  - vm_compute. reflexivity.
Defined.

(** ** colorblind_simulation.py: gradient sequences *)

Lemma length_append (a b : string) :
  String.length (a ++ b) = (String.length a + String.length b)%nat.
Proof. induction a as [|c a IH]; simpl; [reflexivity|]. rewrite IH. reflexivity. Qed.

Lemma append_inv_head (p a b : string) :
  (p ++ a)%string = (p ++ b)%string -> a = b.
Proof.
  induction p as [|c p IH]; simpl; intros H; [exact H|].
  injection H as H. apply IH, H.
Qed.

Lemma append_inv_tail (t : string) : forall a b : string,
  (a ++ t)%string = (b ++ t)%string -> a = b.
Proof.
  induction a as [|c a IH]; intros b H.
  - destruct b as [|c' b]; [reflexivity|].
    apply (f_equal String.length) in H. simpl in H.
    rewrite length_append in H. lia.
  - destruct b as [|c' b].
    + apply (f_equal String.length) in H. simpl in H.
      rewrite length_append in H. lia.
    + simpl in H. injection H as -> H. f_equal. apply IH, H.
Qed.

Lemma decode_format_03d n : decode_03d (PyFormat.format_03d n) = Some n.
Proof.
  unfold decode_03d, PyFormat.format_03d, PyFormat.digits. cbv zeta.
  pose proof (DecimalString.NilEmpty.usu (Nat.to_uint n)) as H.
  pose proof (DecimalNat.Unsigned.of_to n) as Hn.
  destruct (String.length
              (DecimalString.NilEmpty.string_of_uint (Nat.to_uint n)))
    as [|[|[|k]]]; cbn [append DecimalString.NilEmpty.uint_of_string]; rewrite H;
    (etransitivity; [|exact (f_equal Some Hn)]); reflexivity.
Qed.

Lemma format_03d_injective (prefix suffix : string) i j :
  (prefix ++ PyFormat.format_03d i ++ suffix)%string =
  (prefix ++ PyFormat.format_03d j ++ suffix)%string -> i = j.
Proof.
  intros H. apply append_inv_head in H. apply append_inv_tail in H.
  apply (f_equal decode_03d) in H. rewrite !decode_format_03d in H.
  injection H as H. exact H.
Qed.

Lemma filename_injective t i j :
  ColorBlindGradients.filename t i = ColorBlindGradients.filename t j -> i = j.
Proof.
  unfold ColorBlindGradients.filename. intros H.
  apply append_inv_head in H.
  apply (format_03d_injective "_severity_" ".png"), H.
Qed.

(** X17: the zero-padded step number [{step:03d}] of a generated file
    name can be read back for every step (from 1000 on the field
    simply grows), so two steps never share a file name, whatever
    stands before and after the number: no gradient image of a
    sequence overwrites another. *)
Theorem gradient_file_names_distinct :
  forall (colorblind_type prefix suffix : string) (n : nat),
    (forall step, decode_03d (PyFormat.format_03d step) = Some step) /\
    (forall i j,
       (prefix ++ PyFormat.format_03d i ++ suffix)%string =
       (prefix ++ PyFormat.format_03d j ++ suffix)%string -> i = j) /\
    NoDup (List.map (ColorBlindGradients.filename colorblind_type) (seq 0 n)).
Proof.
  intros t prefix suffix n. split; [exact decode_format_03d|].
  split; [exact (format_03d_injective prefix suffix)|].
  apply Finite.Injective_map_NoDup; [|apply seq_NoDup].
  intros i j. apply filename_injective.
Qed.

Section GradientFacts.
Variable undef : spec_float -> Z.
Variable path_join : string -> string -> string.

Let generate := ColorBlindGradients.generate_gradients undef path_join.

Lemma simulation_functions_supported t :
  supported t ->
  exists m,
    In m all_matrices /\
    ColorBlindGradients.simulation_functions undef t =
    Some (fun image severity =>
            ColorBlind.apply_colorblindness_matrix undef image m severity).
Proof.
  intros [E|[E|E]]; subst t; eexists; (split; [|reflexivity]);
    unfold all_matrices; simpl; auto 10.
Qed.

Lemma simulation_functions_unsupported t :
  ~ supported t -> ColorBlindGradients.simulation_functions undef t = None.
Proof.
  intros Hn. unfold ColorBlindGradients.simulation_functions.
  destruct (String.eqb_spec t "protanopia") as [E|_];
    [exfalso; apply Hn; left; exact E|].
  destruct (String.eqb_spec t "deuteranopia") as [E|_];
    [exfalso; apply Hn; right; left; exact E|].
  destruct (String.eqb_spec t "tritanopia") as [E|_];
    [exfalso; apply Hn; right; right; exact E|].
  reflexivity.
Qed.

Lemma gradient_steps_rgb m image t dir num_steps steps :
  three_channel (NDArray.shape image) -> num_steps <> 0 ->
  exists files,
    ColorBlindGradients.gradient_steps path_join
      (fun image severity =>
         ColorBlind.apply_colorblindness_matrix undef image m severity)
      image t dir num_steps steps = (files, Ok (List.map fst files)) /\
    List.map fst files =
    List.map (fun step => path_join dir (ColorBlindGradients.filename t step))
      steps /\
    Forall2 (fun step file =>
               ColorBlind.apply_colorblindness_matrix undef image m
                 (IEEE.div f64 (IEEE.of_Z f64 (Z.of_nat step))
                    (IEEE.of_Z f64 num_steps)) = Ok (snd file))
      steps files.
Proof.
  intros Hrgb Hn. induction steps as [|step rest IH].
  - exists []. repeat split; constructor.
  - destruct IH as (files & Hf & Hp & Hi).
    cbn [ColorBlindGradients.gradient_steps].
    unfold ColorBlindGradients.severity.
    destruct (Z.eqb_spec num_steps 0) as [E|_]; [contradiction|].
    cbn [bind].
    rewrite (apply_colorblindness_matrix_rgb undef image m _ Hrgb).
    rewrite Hf. cbn [bind].
    match goal with |- exists _, (?a, _) = _ /\ _ => exists a end.
    split; [reflexivity|]. cbn [List.map fst].
    split; [rewrite Hp; reflexivity|].
    constructor; [|exact Hi]. cbn [snd].
    apply apply_colorblindness_matrix_rgb, Hrgb.
Qed.

Lemma gradient_steps_non_rgb m image t dir num_steps step rest :
  ~ three_channel (NDArray.shape image) -> num_steps <> 0 ->
  ColorBlindGradients.gradient_steps path_join
    (fun image severity =>
       ColorBlind.apply_colorblindness_matrix undef image m severity)
    image t dir num_steps (step :: rest) =
  ([], Raise (ValueError "图像必须是RGB格式")).
Proof.
  intros Hn H0. cbn [ColorBlindGradients.gradient_steps].
  unfold ColorBlindGradients.severity.
  destruct (Z.eqb_spec num_steps 0) as [E|_]; [contradiction|].
  cbn [bind].
  rewrite (apply_colorblindness_matrix_non_rgb undef image m _ Hn).
  reflexivity.
Qed.

Lemma steps_positive num_steps :
  0 < num_steps ->
  seq 0 (Z.to_nat (num_steps + 1)) =
  0%nat :: seq 1 (Z.to_nat num_steps - 1) ++ [Z.to_nat num_steps].
Proof.
  intros H. replace (Z.to_nat (num_steps + 1)) with (S (Z.to_nat num_steps)) by lia.
  rewrite seq_S. cbn [Nat.add].
  replace (Z.to_nat num_steps) with (S (Z.to_nat num_steps - 1)) at 1 by lia.
  reflexivity.
Qed.
End GradientFacts.

(** X18: for a supported type, an RGB image and a positive number of
    steps, [generate_gradients] writes [num_steps + 1] images, returns
    their paths in the order written, step 0 first, and every image
    has the size of the input.  The first image written is the input
    itself (severity 0) and the last one is the simulation at severity
    exactly 1.0. *)
Theorem gradient_sequence_of_rgb_image :
  forall (undef : spec_float -> Z) (path_join : string -> string -> string)
         (image : PIL.Image) (colorblind_type output_dir : string)
         (num_steps : Z) (h w : nat),
    supported colorblind_type ->
    NDArray.shape image = [h; w; 3%nat] ->
    NDArray.wf image -> NDArray.is_uint8 image ->
    0 < num_steps < 2 ^ 53 ->
    exists files sim_func middle full,
      ColorBlindGradients.generate_gradients undef path_join image
        colorblind_type num_steps output_dir =
      (files, Ok (List.map fst files)) /\
      List.map fst files =
      List.map (fun step =>
                  path_join output_dir
                    (ColorBlindGradients.filename colorblind_type step))
        (seq 0 (Z.to_nat (num_steps + 1))) /\
      Z.of_nat (List.length files) = num_steps + 1 /\
      Forall (fun file => NDArray.shape (snd file) = [h; w; 3%nat]) files /\
      ColorBlindGradients.simulation_functions undef colorblind_type =
      Some sim_func /\
      sim_func image (IEEE.of_Z f64 1) = Ok full /\
      List.map snd files = image :: middle ++ [full].
Proof.
  intros undef path_join image t dir num_steps h w Ht Hs Hwf Himg Hn.
  assert (Hrgb : three_channel (NDArray.shape image))
    by (exists h, w; exact Hs).
  destruct (simulation_functions_supported undef t Ht) as (m & Hm & Hsim).
  destruct (gradient_steps_rgb undef path_join m image t dir num_steps
              (seq 0 (Z.to_nat (num_steps + 1))) Hrgb ltac:(lia))
    as (files & Hf & Hp & Hi).
  unfold ColorBlindGradients.generate_gradients. rewrite Hsim, Hf.
  assert (Hlen : List.length files = Z.to_nat (num_steps + 1)).
  { rewrite <- (length_map fst), Hp, length_map, length_seq. reflexivity. }
  assert (Hshape : Forall (fun file => NDArray.shape (snd file) = [h; w; 3%nat])
                     files).
  { clear - Hi Hrgb Hs. induction Hi as [|step file steps files H _ IH];
      constructor; [|exact IH].
    rewrite (apply_colorblindness_matrix_rgb undef image m _ Hrgb) in H.
    injection H as H. apply (f_equal NDArray.shape) in H.
    cbn [NDArray.shape] in H. exact (eq_trans (eq_sym H) Hs). }
  rewrite steps_positive in Hi by lia.
  inversion Hi as [|step0 file0 steps0 files0 H0 Hrest]; subst.
  apply Forall2_app_inv_l in Hrest.
  destruct Hrest as (mid & lst & Hmid & Hlast & ->).
  inversion Hlast as [|stepn filen stepsn filesn Hfull Hnil]; subst.
  inversion Hnil; subst.
  change (Z.of_nat 0) with 0 in H0.
  rewrite (div_zero_by_positive num_steps ltac:(lia)) in H0.
  rewrite (colorblind_severity_zero undef m image h w Hm Hs Hwf Himg) in H0.
  injection H0 as H0.
  rewrite Z2Nat.id in Hfull by lia.
  rewrite (div_self_of_Z num_steps Hn) in Hfull.
  eexists (file0 :: mid ++ [filen]), _, (List.map snd mid), (snd filen).
  split; [reflexivity|]. split; [exact Hp|].
  split; [rewrite Hlen; lia|]. split; [exact Hshape|].
  split; [reflexivity|]. split; [exact Hfull|].
  cbn [List.map]. rewrite map_app. cbn [List.map]. rewrite <- H0. reflexivity.
Qed.

Lemma gradient_sequence_of_rgb_image_witness :
  let image := NDArray.mk [1%nat; 2%nat; 3%nat] [10; 20; 30; 40; 50; 60] in
  exists files sim_func middle full,
    ColorBlindGradients.generate_gradients (fun _ => 0) String.append image
      "tritanopia" 2 "out/" =
    (files, Ok (List.map fst files)) /\
    List.map fst files =
    List.map (fun step =>
                String.append "out/"
                  (ColorBlindGradients.filename "tritanopia" step))
      (seq 0 (Z.to_nat (2 + 1))) /\
    Z.of_nat (List.length files) = 2 + 1 /\
    Forall (fun file => NDArray.shape (snd file) = [1%nat; 2%nat; 3%nat])
      files /\
    ColorBlindGradients.simulation_functions (fun _ => 0) "tritanopia" =
    Some sim_func /\
    sim_func image (IEEE.of_Z f64 1) = Ok full /\
    List.map snd files = image :: middle ++ [full].
Proof.
  intros image.
  apply (gradient_sequence_of_rgb_image (fun _ => 0) String.append image
           "tritanopia" "out/" 2 1%nat 2%nat).
  - right. right. reflexivity.
  - reflexivity.
  - reflexivity.
  - unfold NDArray.is_uint8. simpl. repeat constructor; lia.
  - lia.
Defined.

(** X19: [generate_gradients] fails before it writes any image: an
    unsupported type raises the ValueError that names it; with a
    supported type, zero steps raise ZeroDivisionError (the severity
    [0 / 0]), and an image that is not RGB raises the simulator's
    ValueError at step 0.  A negative number of steps is no error: the
    result is the empty list and nothing is written. *)
Theorem generate_gradients_failures :
  forall (undef : spec_float -> Z) (path_join : string -> string -> string)
         (image : PIL.Image) (colorblind_type output_dir : string)
         (num_steps : Z),
    (~ supported colorblind_type ->
     ColorBlindGradients.generate_gradients undef path_join image
       colorblind_type num_steps output_dir =
     ([], Raise (ValueError ("不支持的色盲类型: " ++ colorblind_type)))) /\
    (supported colorblind_type -> num_steps = 0 ->
     ColorBlindGradients.generate_gradients undef path_join image
       colorblind_type num_steps output_dir =
     ([], Raise ZeroDivisionError)) /\
    (supported colorblind_type -> num_steps < 0 ->
     ColorBlindGradients.generate_gradients undef path_join image
       colorblind_type num_steps output_dir = ([], Ok [])) /\
    (supported colorblind_type -> 0 < num_steps ->
     ~ three_channel (NDArray.shape image) ->
     ColorBlindGradients.generate_gradients undef path_join image
       colorblind_type num_steps output_dir =
     ([], Raise (ValueError "图像必须是RGB格式"))).
Proof.
  intros undef path_join image t dir num_steps.
  unfold ColorBlindGradients.generate_gradients.
  split; [|split; [|split]].
  - intros Hn. rewrite (simulation_functions_unsupported undef t Hn).
    reflexivity.
  - intros Ht ->.
    destruct (simulation_functions_supported undef t Ht) as (m & _ & ->).
    reflexivity.
  - intros Ht Hneg.
    destruct (simulation_functions_supported undef t Ht) as (m & _ & ->).
    replace (Z.to_nat (num_steps + 1)) with 0%nat by lia. reflexivity.
  - intros Ht Hpos Hn.
    destruct (simulation_functions_supported undef t Ht) as (m & _ & ->).
    replace (Z.to_nat (num_steps + 1)) with (S (Z.to_nat num_steps)) by lia.
    cbn [seq].
    apply gradient_steps_non_rgb; [exact Hn|lia].
Qed.

(** X20: the evaluator gives every file of a generated sequence the
    severity it was generated with: on the list that
    [generate_gradients] returns for a supported type, an RGB image and
    a positive number of steps, [evaluate_colorblind_sequence] returns
    one prediction per step whose severity is the generator's
    [step / num_steps]. *)
Theorem generated_sequence_keeps_severities :
  forall (undef : spec_float -> Z) (path_join : string -> string -> string)
         (is_prediction_correct : string -> string -> bool)
         (model_predict_func : string -> ColorEval.call)
         (image : PIL.Image) (colorblind_type output_dir : string)
         (num_steps : Z) (expected_answer : string)
         (confidence_threshold : spec_float),
    supported colorblind_type ->
    three_channel (NDArray.shape image) ->
    0 < num_steps ->
    exists files generated_files r,
      ColorBlindGradients.generate_gradients undef path_join image
        colorblind_type num_steps output_dir = (files, Ok generated_files) /\
      ColorEval.evaluate_colorblind_sequence is_prediction_correct
        model_predict_func generated_files expected_answer
        confidence_threshold = Ok r /\
      Z.of_nat (ColorEval.total_steps r) = num_steps + 1 /\
      List.map ColorEval.step (ColorEval.predictions r) =
      seq 0 (Z.to_nat (num_steps + 1)) /\
      List.map (fun p => Ok (ColorEval.severity p)) (ColorEval.predictions r) =
      List.map (ColorBlindGradients.severity num_steps)
        (seq 0 (Z.to_nat (num_steps + 1))).
Proof.
  intros undef path_join ipc mpf image t dir num_steps expected thr
    Ht Hrgb Hn.
  destruct (simulation_functions_supported undef t Ht) as (m & Hm & Hsim).
  destruct (gradient_steps_rgb undef path_join m image t dir num_steps
              (seq 0 (Z.to_nat (num_steps + 1))) Hrgb ltac:(lia))
    as (files & Hf & Hp & _).
  unfold ColorBlindGradients.generate_gradients. rewrite Hsim, Hf.
  assert (Hlen : List.length (List.map fst files) = Z.to_nat (num_steps + 1)).
  { rewrite Hp, length_map, length_seq. reflexivity. }
  destruct (evaluate_steps_defined ipc mpf expected thr
              (List.length (List.map fst files)) (List.map fst files) 0%nat
              ltac:(lia))
    as (ps & Hps & H1 & H2 & _).
  exists files, (List.map fst files).
  unfold ColorEval.evaluate_colorblind_sequence.
  rewrite Hps. cbn [bind].
  eexists. split; [reflexivity|]. split; [reflexivity|].
  cbn [ColorEval.total_steps ColorEval.predictions].
  split; [lia|]. rewrite Hlen in H1, H2. split; [exact H1|].
  rewrite <- (map_map ColorEval.severity (fun s => Ok s)), H2, map_map.
  apply map_ext. intros step.
  unfold ColorBlindGradients.severity, step_severity.
  destruct (Z.eqb_spec num_steps 0) as [E|_]; [lia|].
  do 3 f_equal. lia.
Qed.

Lemma generated_sequence_keeps_severities_witness :
  let image := NDArray.mk [1%nat; 2%nat; 3%nat] [10; 20; 30; 40; 50; 60] in
  exists files generated_files r,
    ColorBlindGradients.generate_gradients (fun _ => 0) String.append image
      "protanopia" 4 "out/" = (files, Ok generated_files) /\
    ColorEval.evaluate_colorblind_sequence String.eqb
      (fun _ => ColorEval.Returned "7" (IEEE.dec f64 9 1))
      generated_files "7" (IEEE.dec f64 5 1) = Ok r /\
    Z.of_nat (ColorEval.total_steps r) = 4 + 1 /\
    List.map ColorEval.step (ColorEval.predictions r) =
    seq 0 (Z.to_nat (4 + 1)) /\
    List.map (fun p => Ok (ColorEval.severity p)) (ColorEval.predictions r) =
    List.map (ColorBlindGradients.severity 4) (seq 0 (Z.to_nat (4 + 1))).
Proof.
  intros image.
  apply (generated_sequence_keeps_severities (fun _ => 0) String.append
           String.eqb (fun _ => ColorEval.Returned "7" (IEEE.dec f64 9 1))
           image "protanopia" "out/" 4 "7" (IEEE.dec f64 5 1)).
  - left. reflexivity.
  - exists 1%nat, 2%nat. reflexivity.
  - lia.
Defined.

(** ** Every transform returns a valid image *)

Lemma to_uint8_range undef x : 0 <= to_uint8 undef x <= 255.
Proof.
  unfold to_uint8, IEEE.to_uint8.
  pose proof (Z.mod_pos_bound (undef x) 256 ltac:(lia)) as Hm.
  destruct (IEEE.trunc x) as [z|]; [|lia].
  destruct (Z.leb_spec 0 z), (Z.leb_spec z 255); cbn [andb]; lia.
Qed.

Lemma uint8_map {A} (f : A -> Z) (a : ndarray A) :
  (forall v, 0 <= f v <= 255) -> NDArray.is_uint8 (NDArray.map f a).
Proof.
  intros Hf. unfold NDArray.is_uint8, NDArray.map. cbn [NDArray.data].
  apply Forall_forall. intros v Hv. apply in_map_iff in Hv.
  destruct Hv as (x & <- & _). apply Hf.
Qed.

Lemma uint8_astype undef a : NDArray.is_uint8 (astype_uint8 undef a).
Proof. apply uint8_map, to_uint8_range. Qed.

Lemma Forall_mapi_from {A} (P : A -> Prop) (f : nat -> A -> A) l :
  (forall i v, P v -> P (f i v)) ->
  Forall P l -> forall k, Forall P (NDArray.mapi_from k f l).
Proof.
  intros Hf Hl. induction Hl as [|x l Hx _ IH]; intros k;
    cbn [NDArray.mapi_from]; constructor; auto.
Qed.

Lemma uint8_mapi (f : nat -> Z -> Z) a :
  (forall i v, 0 <= v <= 255 -> 0 <= f i v <= 255) ->
  NDArray.is_uint8 a -> NDArray.is_uint8 (NDArray.mapi f a).
Proof.
  intros Hf Ha. unfold NDArray.is_uint8, NDArray.mapi in *.
  cbn [NDArray.data]. apply Forall_mapi_from; assumption.
Qed.

Lemma Forall_zip_with {A B C} (P : C -> Prop) (f : A -> B -> C) l1 :
  (forall x y, P (f x y)) -> forall l2, Forall P (NDArray.zip_with f l1 l2).
Proof.
  intros Hf. induction l1 as [|x l1 IH]; intros [|y l2];
    cbn [NDArray.zip_with]; constructor; auto.
Qed.

Lemma uint8_tabulate s (f : nat -> Z) :
  (forall i, 0 <= f i <= 255) -> NDArray.is_uint8 (NDArray.tabulate s f).
Proof.
  intros Hf. unfold NDArray.is_uint8, NDArray.tabulate. cbn [NDArray.data].
  apply Forall_forall. intros v Hv. apply in_map_iff in Hv.
  destruct Hv as (x & <- & _). apply Hf.
Qed.

Lemma Forall_map_pixels f l :
  (forall p, pixel8 p -> pixel8 (f p)) ->
  Forall (fun v => 0 <= v <= 255) l ->
  Forall (fun v => 0 <= v <= 255) (VisualDegradation.map_pixels f l).
Proof.
  intros Hf.
  assert (H : forall n l, (List.length l <= n)%nat ->
            Forall (fun v => 0 <= v <= 255) l ->
            Forall (fun v => 0 <= v <= 255)
              (VisualDegradation.map_pixels f l)).
  { induction n as [|n IH]; intros l0 Hn Hl.
    - destruct l0; [constructor|simpl in Hn; lia].
    - destruct l0 as [|a [|b [|c l0]]]; try exact Hl.
      cbn [VisualDegradation.map_pixels].
      inversion Hl as [|? ? Ha Hl1]; subst.
      inversion Hl1 as [|? ? Hb Hl2]; subst.
      inversion Hl2 as [|? ? Hc Hl3]; subst.
      pose proof (Hf (a, b, c) (conj Ha (conj Hb Hc))) as Hp.
      destruct (f (a, b, c)) as [[x y] z]. destruct Hp as (Hx & Hy & Hz).
      constructor; [exact Hx|]. constructor; [exact Hy|].
      constructor; [exact Hz|].
      apply IH; [simpl in Hn; lia|exact Hl3]. }
  apply (H (List.length l)). lia.
Qed.

Lemma Forall_map_pixels4 f l :
  (forall p, pixel8 p -> pixel8 (f p)) ->
  Forall (fun v => 0 <= v <= 255) l ->
  Forall (fun v => 0 <= v <= 255) (VisualDegradation.map_pixels4 f l).
Proof.
  intros Hf.
  assert (H : forall n l, (List.length l <= n)%nat ->
            Forall (fun v => 0 <= v <= 255) l ->
            Forall (fun v => 0 <= v <= 255)
              (VisualDegradation.map_pixels4 f l)).
  { induction n as [|n IH]; intros l0 Hn Hl.
    - destruct l0; [constructor|simpl in Hn; lia].
    - destruct l0 as [|a [|b [|c [|d l0]]]]; try constructor.
      cbn [VisualDegradation.map_pixels4].
      inversion Hl as [|? ? Ha Hl1]; subst.
      inversion Hl1 as [|? ? Hb Hl2]; subst.
      inversion Hl2 as [|? ? Hc Hl3]; subst.
      inversion Hl3 as [|? ? Hd Hl4]; subst.
      pose proof (Hf (a, b, c) (conj Ha (conj Hb Hc))) as Hp.
      destruct (f (a, b, c)) as [[x y] z]. destruct Hp as (Hx & Hy & Hz).
      constructor; [exact Hx|]. constructor; [exact Hy|].
      constructor; [exact Hz|].
      apply IH; [simpl in Hn; lia|exact Hl4]. }
  apply (H (List.length l)). lia.
Qed.

Lemma cvtColor_uint8 f a out :
  (forall p, pixel8 p -> pixel8 (f p)) -> NDArray.is_uint8 a ->
  VisualDegradation.cvtColor f a = Ok out -> NDArray.is_uint8 out.
Proof.
  intros Hf Ha. unfold VisualDegradation.cvtColor.
  destruct (NDArray.shape a) as [|h [|w [|c [|x s]]]]; try discriminate;
    do 5 (try (destruct c as [|c]; try (simpl; discriminate)));
    try (simpl; discriminate);
    intros H; injection H as <-; unfold NDArray.is_uint8;
    cbn [NDArray.data];
    first [apply Forall_map_pixels | apply Forall_map_pixels4]; assumption.
Qed.

Lemma swap_rb_pixel8 p : pixel8 p -> pixel8 (VisualDegradation.swap_rb p).
Proof. destruct p as [[b g] r]. simpl. tauto. Qed.

Lemma cv2_resize_uint8 resize_at a dsize interp out :
  (forall m a sz i, NDArray.is_uint8 a -> 0 <= resize_at m a sz i <= 255) ->
  NDArray.is_uint8 a ->
  VisualDegradation.cv2_resize resize_at a dsize interp = Ok out ->
  NDArray.is_uint8 out.
Proof.
  intros Hr Ha. unfold VisualDegradation.cv2_resize.
  destruct dsize as [w h].
  destruct (NDArray.shape a) as [|sh [|sw [|c [|x s]]]]; try discriminate;
    destruct (_ || _ || _ || _)%bool; try discriminate; intros H;
    injection H as <-; apply uint8_tabulate; intros i; apply Hr, Ha.
Qed.

Lemma luma_range r g b :
  0 <= r <= 255 -> 0 <= g <= 255 -> 0 <= b <= 255 ->
  0 <= PIL.luma r g b <= 255.
Proof.
  intros Hr Hg Hb. unfold PIL.luma. rewrite Z.shiftr_div_pow2 by lia.
  change (2 ^ 16) with 65536. split.
  - apply Z.div_pos; lia.
  - apply Z.lt_succ_r. apply Z.div_lt_upper_bound; lia.
Qed.

Lemma Forall_grey_pixels l :
  Forall (fun v => 0 <= v <= 255) l ->
  Forall (fun v => 0 <= v <= 255) (PIL.grey_pixels l).
Proof.
  assert (H : forall n l, (List.length l <= n)%nat ->
            Forall (fun v => 0 <= v <= 255) l ->
            Forall (fun v => 0 <= v <= 255) (PIL.grey_pixels l)).
  { induction n as [|n IH]; intros l0 Hn Hl.
    - destruct l0; [constructor|simpl in Hn; lia].
    - destruct l0 as [|r [|g [|b l0]]]; try exact Hl.
      cbn [PIL.grey_pixels].
      inversion Hl as [|? ? Hr Hl1]; subst.
      inversion Hl1 as [|? ? Hg Hl2]; subst.
      inversion Hl2 as [|? ? Hb Hl3]; subst.
      pose proof (luma_range r g b Hr Hg Hb) as Hy. cbv zeta.
      do 3 (constructor; [exact Hy|]).
      apply IH; [simpl in Hn; lia|exact Hl3]. }
  apply (H (List.length l)). lia.
Qed.

Lemma Forall_transform_pixels undef m severity l :
  Forall (fun v => 0 <= v <= 255)
    (ColorBlind.transform_pixels undef m severity l).
Proof.
  assert (H : forall n l, (List.length l <= n)%nat ->
            Forall (fun v => 0 <= v <= 255)
              (ColorBlind.transform_pixels undef m severity l)).
  { induction n as [|n IH]; intros l0 Hn.
    - destruct l0; [constructor|simpl in Hn; lia].
    - destruct l0 as [|r [|g [|b l0]]]; try constructor.
      cbn [ColorBlind.transform_pixels].
      unfold ColorBlind.transform_pixel.
      destruct m as [[m0 m1] m2].
      destruct (IEEE.ltb severity (IEEE.dec f64 10 1));
        (do 3 (constructor; [apply to_uint8_range|]);
         apply IH; simpl in Hn; lia). }
  apply (H (List.length l)). lia.
Qed.

Lemma blend_pixel_range undef alpha in1 in2 :
  0 <= PIL.blend_pixel undef alpha in1 in2 <= 255.
Proof.
  unfold PIL.blend_pixel. cbv zeta.
  destruct (_ && _)%bool; [apply to_uint8_range|].
  destruct (IEEE.leb _ (IEEE.of_Z f32 0)); [lia|].
  destruct (IEEE.leb (IEEE.of_Z f32 255) _); [lia|apply to_uint8_range].
Qed.

Lemma blend_uint8 undef im1 im2 alpha :
  NDArray.is_uint8 im1 -> NDArray.is_uint8 im2 ->
  NDArray.is_uint8 (PIL.blend undef im1 im2 alpha).
Proof.
  intros H1 H2. unfold PIL.blend. cbv zeta.
  destruct (SFeqb _ _); [exact H1|].
  destruct (SFeqb _ _); [exact H2|].
  unfold NDArray.is_uint8. cbn [NDArray.data].
  apply Forall_zip_with. intros x y. apply blend_pixel_range.
Qed.

Lemma contrast_degenerate_uint8 undef im :
  NDArray.is_uint8 (PIL.contrast_degenerate undef im).
Proof.
  unfold PIL.contrast_degenerate.
  destruct (if PIL.is_rgb im then _ else _) as [s n].
  apply uint8_map. intros v. apply to_uint8_range.
Qed.

Lemma color_degenerate_uint8 im :
  NDArray.is_uint8 im -> NDArray.is_uint8 (PIL.color_degenerate im).
Proof.
  intros H. unfold PIL.color_degenerate.
  destruct (PIL.is_rgb im); [|exact H].
  unfold NDArray.is_uint8. cbn [NDArray.data].
  apply Forall_grey_pixels, H.
Qed.

Lemma resize_NEAREST_uint8 nearest_at im sz :
  (forall a sz i, NDArray.is_uint8 a -> 0 <= nearest_at a sz i <= 255) ->
  NDArray.is_uint8 im ->
  NDArray.is_uint8 (PIL.resize_NEAREST nearest_at im sz).
Proof.
  intros Hn H. unfold PIL.resize_NEAREST.
  destruct (_ && _)%bool; [exact H|].
  destruct (NDArray.shape im) as [|h [|w rest]];
    apply uint8_tabulate; intros i; apply Hn, H.
Qed.

Lemma add_noise_uint8 undef image noise :
  NDArray.is_uint8 (NoiseGradient.add_noise undef image noise).
Proof.
  unfold NDArray.is_uint8, NoiseGradient.add_noise. cbn [NDArray.data].
  apply Forall_zip_with. intros x y. apply to_uint8_range.
Qed.

Lemma degradation_methods_uint8 undef gaussian_blur_at resize_at bgr2hsv
    hsv2bgr nearest_at t image level out :
  kernels_8bit gaussian_blur_at resize_at hsv2bgr nearest_at ->
  NDArray.is_uint8 image ->
  VisualDegradation.degradation_methods undef gaussian_blur_at resize_at
    bgr2hsv hsv2bgr t image level = Ok out ->
  NDArray.is_uint8 out.
Proof.
  intros (Hblur & Hres & Hhsv & _) Himg.
  destruct t; cbn [VisualDegradation.degradation_methods].
  - unfold VisualDegradation.degrade_sharpness.
    destruct (level =? 0); [intros H; injection H as <-; exact Himg|].
    destruct (VisualDegradation.cvtColor VisualDegradation.swap_rb image)
      as [rgb|e] eqn:E; [|discriminate].
    cbn [bind]. apply cvtColor_uint8; [exact swap_rb_pixel8|].
    apply uint8_tabulate. intros i. apply Hblur.
    apply (cvtColor_uint8 _ _ _ swap_rb_pixel8 Himg E).
  - intros H. injection H as <-. unfold VisualDegradation.degrade_brightness.
    destruct (level =? 0); [exact Himg|apply uint8_astype].
  - intros H. injection H as <-. unfold VisualDegradation.degrade_contrast.
    destruct (level =? 0); [exact Himg|apply uint8_astype].
  - unfold VisualDegradation.degrade_color_distortion.
    destruct (level =? 0); [intros H; injection H as <-; exact Himg|].
    destruct (VisualDegradation.cvtColor bgr2hsv image) as [hsv|e];
      [|discriminate].
    cbn [bind]. apply cvtColor_uint8; [exact Hhsv|apply uint8_astype].
  - unfold VisualDegradation.degrade_color_shift.
    destruct (level =? 0); [intros H; injection H as <-; exact Himg|].
    destruct (NDArray.channels image) as [n|]; [|discriminate].
    destruct (3 <=? n)%nat; [|discriminate].
    intros H. injection H as <-. apply uint8_astype.
  - unfold VisualDegradation.degrade_resolution.
    destruct (level =? 0); [intros H; injection H as <-; exact Himg|].
    destruct (NDArray.shape image) as [|h [|w rest]]; try discriminate.
    cbv zeta.
    destruct (py_int _) as [sw|e]; [|discriminate]. cbn [bind].
    destruct (py_int _) as [sh|e]; [|discriminate]. cbn [bind].
    destruct (VisualDegradation.cv2_resize resize_at image _
                VisualDegradation.INTER_AREA) as [down|e] eqn:E;
      [|discriminate].
    cbn [bind]. apply (cv2_resize_uint8 _ _ _ _ _ Hres).
    apply (cv2_resize_uint8 _ _ _ _ _ Hres Himg E).
Qed.

Lemma transformations_uint8 undef gaussian_blur_at resize_at hsv2bgr
    nearest_at rng py_random t image intensity out :
  kernels_8bit gaussian_blur_at resize_at hsv2bgr nearest_at ->
  NDArray.is_uint8 image ->
  NoiseGradient.transformations undef gaussian_blur_at nearest_at rng
    py_random t image intensity = Ok out ->
  NDArray.is_uint8 out.
Proof.
  intros (Hblur & _ & _ & Hnear) Himg.
  destruct t; cbn [NoiseGradient.transformations].
  - unfold NoiseGradient.apply_gaussian_noise. cbv zeta.
    destruct (NoiseGradient.gaussian_noise _ _ _) as [noise|e];
      [|discriminate].
    cbn [bind]. intros H. injection H as <-. apply add_noise_uint8.
  - intros H. injection H as <-.
    unfold NoiseGradient.apply_salt_pepper_noise. cbv zeta.
    apply uint8_mapi; [intros i v Hv; destruct (IEEE.ltb _ _); lia|].
    apply uint8_mapi; [intros i v Hv; destruct (IEEE.ltb _ _); lia|].
    exact Himg.
  - unfold NoiseGradient.apply_poisson_noise.
    destruct (NoiseGradient.poisson_clipped _ _ _) as [noisy|e];
      [|discriminate].
    cbn [bind]. intros H. injection H as <-. apply uint8_astype.
  - intros H. injection H as <-. unfold NoiseGradient.apply_speckle_noise.
    apply uint8_mapi; [|exact Himg]. intros i v _. apply to_uint8_range.
  - intros H. injection H as <-.
    unfold NoiseGradient.apply_blur_effect, PIL.filter_GaussianBlur.
    apply uint8_tabulate. intros i. apply Hblur, Himg.
  - unfold NoiseGradient.apply_pixelation. cbv zeta.
    destruct (py_int _) as [p|e]; [|discriminate]. cbn [bind].
    intros H. injection H as <-.
    apply resize_NEAREST_uint8; [exact Hnear|].
    apply resize_NEAREST_uint8; [exact Hnear|exact Himg].
  - unfold NoiseGradient.apply_color_shift. cbv zeta.
    destruct (NDArray.shape image) as [|a [|b [|n [|x s]]]];
      try (intros H; injection H as <-; exact Himg).
    destruct (3 <=? n)%nat; [|discriminate].
    intros H. injection H as <-. unfold NDArray.update_channel.
    repeat (apply uint8_mapi;
            [intros i v Hv; destruct (Nat.eqb _ _);
             [apply to_uint8_range|exact Hv]|]).
    exact Himg.
  - intros H. injection H as <-.
    apply blend_uint8; [apply contrast_degenerate_uint8|exact Himg].
  - intros H. injection H as <-.
    apply blend_uint8; [|exact Himg].
    apply uint8_map. intros v. lia.
  - intros H. injection H as <-.
    apply blend_uint8; [apply color_degenerate_uint8, Himg|exact Himg].
Qed.

Lemma fast_noise_uint8 undef nearest_at rng image level :
  (forall a sz i, NDArray.is_uint8 a -> 0 <= nearest_at a sz i <= 255) ->
  NDArray.is_uint8 image ->
  (forall out, FastNoise.apply_noise_gradient undef rng image level = Ok out ->
               NDArray.is_uint8 out) /\
  (forall out, FastNoise.apply_pixel_manipulation nearest_at image level =
               Ok out -> NDArray.is_uint8 out).
Proof.
  intros Hnear Himg. split; intros out.
  - unfold FastNoise.apply_noise_gradient. cbv zeta.
    destruct (NoiseGradient.gaussian_noise _ _ _) as [noise|e];
      [|discriminate].
    cbn [bind]. intros H. injection H as <-. apply add_noise_uint8.
  - unfold FastNoise.apply_pixel_manipulation. cbv zeta.
    destruct (py_int _) as [p|e]; [|discriminate]. cbn [bind].
    intros H. injection H as <-.
    apply resize_NEAREST_uint8; [exact Hnear|].
    apply resize_NEAREST_uint8; [exact Hnear|exact Himg].
Qed.

Lemma colorblind_uint8 undef image m severity out :
  ColorBlind.apply_colorblindness_matrix undef image m severity = Ok out ->
  NDArray.is_uint8 out.
Proof.
  destruct (three_channel_dec (NDArray.shape image)) as [Hrgb|Hrgb].
  - rewrite apply_colorblindness_matrix_rgb by exact Hrgb.
    intros H. injection H as <-. unfold NDArray.is_uint8.
    cbn [NDArray.data]. apply Forall_transform_pixels.
  - rewrite apply_colorblindness_matrix_non_rgb by exact Hrgb.
    discriminate.
Qed.

Lemma returns_valid_of_dims image r :
  keeps_dims image r ->
  (forall out, r = Ok out -> NDArray.is_uint8 out) ->
  returns_valid r.
Proof.
  intros (out & Hr & _) H. exists out. split; [exact Hr|apply H, Hr].
Qed.

(** C3: for every image of in-range pixel values and every level of the
    valid range, every transform raises nothing and returns an image all
    of whose channel values lie in 0..255: the six levelled
    degradations, the ten transforms of the noise generator at each of
    its hundred intensities (the Poisson transform at intensity 0
    included), the two transforms of the fast generator and the
    colour-vision simulations at any severity.  The library kernels are
    taken to give 8-bit values on 8-bit images; nothing is asked of the
    random draws. *)
Theorem transforms_return_valid_images :
  forall (undef : spec_float -> Z)
         (gaussian_blur_at : spec_float -> ndarray Z -> nat -> Z)
         (resize_at : VisualDegradation.interpolation -> ndarray Z ->
                      nat * nat -> nat -> Z)
         (bgr2hsv hsv2bgr : Z * Z * Z -> Z * Z * Z)
         (nearest_at : PIL.Image -> nat * nat -> nat -> Z)
         (rng : NPRandom.source) (py_random : nat -> spec_float)
         (image : ndarray Z) (h w : nat),
    NDArray.shape image = [h; w; 3%nat] ->
    (0 < h)%nat -> (0 < w)%nat ->
    Z.of_nat h < 2 ^ 31 -> Z.of_nat w < 2 ^ 31 ->
    NDArray.wf image ->
    NDArray.is_uint8 image ->
    kernels_8bit gaussian_blur_at resize_at hsv2bgr nearest_at ->
    (forall t level, 0 <= level <= 100 ->
       returns_valid
         (VisualDegradation.degradation_methods undef gaussian_blur_at
            resize_at bgr2hsv hsv2bgr t image level)) /\
    (forall t i, 0 <= i <= 99 ->
       returns_valid
         (NoiseGradient.transformations undef gaussian_blur_at nearest_at rng
            py_random t image (NoiseGradient.gradient_intensity i))) /\
    (forall level, 0 <= level <= 99 ->
       returns_valid (FastNoise.apply_noise_gradient undef rng image level) /\
       returns_valid
         (FastNoise.apply_pixel_manipulation nearest_at image level)) /\
    (forall t severity improved,
       returns_valid
         (ColorBlind.simulation_functions undef t image severity improved)).
Proof.
  intros undef gaussian_blur_at resize_at bgr2hsv hsv2bgr nearest_at rng
    py_random image h w Hs Hh Hw Hh31 Hw31 Hwf Himg Hk.
  split; [|split; [|split]].
  - intros t level Hl. apply (returns_valid_of_dims image).
    + apply (degradation_methods_dims _ _ _ _ _ _ _ _ h w); assumption.
    + intros out.
      apply (degradation_methods_uint8 _ _ _ _ _ nearest_at); assumption.
  - intros t i Hi. apply (returns_valid_of_dims image).
    + apply (transformations_dims _ _ _ _ _ _ _ _ h w); assumption.
    + intros out.
      apply (transformations_uint8 _ _ resize_at hsv2bgr); assumption.
  - intros level Hl.
    destruct (fast_noise_dims undef nearest_at rng image level h w Hs Hwf Hl)
      as [Hd1 Hd2].
    destruct (fast_noise_uint8 undef nearest_at rng image level
                (proj2 (proj2 (proj2 Hk))) Himg) as [Hu1 Hu2].
    split; apply (returns_valid_of_dims image); assumption.
  - intros t severity improved.
    assert (H : ColorBlind.simulation_functions undef t image severity improved =
                ColorBlind.apply_colorblindness_matrix undef image
                  (ColorBlind.matrix_of t improved) severity)
      by (destruct t, improved; reflexivity).
    rewrite H. apply (returns_valid_of_dims image).
    + apply (colorblind_dims _ _ _ _ h w); assumption.
    + intros out. apply colorblind_uint8.
Qed.

Lemma transforms_return_valid_images_witness :
  let image :=
    NDArray.mk [1%nat; 2%nat; 3%nat] [200; 100; 50; 10; 20; 30] in
  let rng :=
    NPRandom.mk (fun _ => IEEE.of_Z f64 3) (fun _ => S754_zero false)
      (fun _ _ => 7) in
  returns_valid
    (NoiseGradient.transformations (fun _ => 0) (fun _ _ _ => 128)
       (fun _ _ _ => 32) rng
       (fun _ => S754_zero false) NoiseGradient.poisson_noise image
       (NoiseGradient.gradient_intensity 0)) /\
  returns_valid
    (NoiseGradient.transformations (fun _ => 0) (fun _ _ _ => 128)
       (fun _ _ _ => 32) rng
       (fun _ => S754_zero false) NoiseGradient.gaussian_noise_t image
       (NoiseGradient.gradient_intensity 99)) /\
  returns_valid
    (VisualDegradation.degradation_methods (fun _ => 0) (fun _ _ _ => 128)
       (fun _ _ _ _ => 64) (fun p => p) (fun p => p)
       VisualDegradation.brightness image 100).
Proof.
  intros image rng.
  assert (Hk : kernels_8bit (fun _ _ _ => 128) (fun _ _ _ _ => 64)
                 (fun p => p) (fun _ _ _ => 32)).
  { split; [intros; lia|]. split; [intros; lia|].
    split; [intros p Hp; exact Hp|intros; lia]. }
  pose proof
    (transforms_return_valid_images (fun _ => 0) (fun _ _ _ => 128)
       (fun _ _ _ _ => 64) (fun p => p) (fun p => p)
       (fun _ _ _ => 32) rng
       (fun _ => S754_zero false) image 1%nat 2%nat
       ltac:(reflexivity) ltac:(lia) ltac:(lia) ltac:(lia) ltac:(lia)
       ltac:(reflexivity)
       ltac:(unfold NDArray.is_uint8; simpl; repeat constructor; lia)
       Hk) as H.
  split; [|split].
  - apply (proj1 (proj2 H)). lia.
  - apply (proj1 (proj2 H)). lia.
  - apply (proj1 H). lia.
Defined.
